(** * sleepy_checkr: the PERCLOS fatigue detector

    A shallow embedding of [src/src/fatigue-detector.ts] (the eye aspect
    ratio, EAR) and [src/src/perclos-detector.ts] (the windowed PERCLOS
    scorer), and of their callers (the two landmark detectors and the
    application), followed by the properties checked against them.

    Conventions of the embedding.

    - [Date.now()] is an input: every method takes the millisecond clock
      value [now] it reads; the reads made inside one synchronous call see
      the same millisecond.  Timestamps, durations and the closed time are
      integral milliseconds and are kept in [Z] (binary64 represents them
      exactly below 2^53).
    - A JavaScript [number] that is not such an integer (the EAR, PERCLOS,
      the score) is a value of a [JSNumber] structure.  The program text is
      written once, over that structure.  Two structures are given.
      [binary64] is the IEEE-754 doubles of the kernel, which is what the
      code runs on: the runs are evaluated on it, and the statements on all
      doubles are proved from the specification of the kernel's floats
      ([FloatAxioms], over [SpecFloat]).  [exact] is the rationals extended
      with NaN and the two infinities; it keeps IEEE's rules for the
      special values and drops the rounding of finite results; the
      range of the score after the instant of construction is stated on
      it as well.
    - [console.log] calls are omitted; [details], a string built from a
      number, is kept as that number. *)

From Stdlib Require Import ZArith QArith Qround Qreduction Floats Uint63.
From Stdlib Require Import List Sorted String Bool Lia Lqa.
Import ListNotations.

#[local] Set Warnings "-inexact-float".
#[local] Open Scope Z_scope.

(** ** JavaScript numbers *)

(** The operations of [number] the two source files use. *)
Class JSNumber : Type := {
  number : Type;
  of_Z : Z -> number;                      (* an integer literal or value *)
  add : number -> number -> number;        (* a + b *)
  sub : number -> number -> number;        (* a - b *)
  mul : number -> number -> number;        (* a * b *)
  div : number -> number -> number;        (* a / b *)
  ltb : number -> number -> bool;          (* a < b *)
  geb : number -> number -> bool;          (* a >= b *)
  Math_sqrt : number -> number;
  Math_max : number -> number -> number;
  Math_round : number -> number;
}.

Declare Scope js_scope.
Delimit Scope js_scope with js.
Infix "+" := add : js_scope.
Infix "-" := sub : js_scope.
Infix "*" := mul : js_scope.
Infix "/" := div : js_scope.
Infix "<?" := ltb : js_scope.
Infix ">=?" := geb (at level 70) : js_scope.

(** The decimal literal [m]e-[k], e.g. [decimal 2 1] for [0.2]: the quotient
    of two integers, which in binary64 is the double nearest to the literal
    (both integers are exact and the division rounds once). *)
Definition decimal {N : JSNumber} (m : Z) (k : nat) : number :=
  (of_Z m / of_Z (10 ^ Z.of_nat k))%js.

(** *** binary64 *)

Module Float64.

(** The double of an integer, exact for [|z| < 2^53]. *)
Definition of_Z (z : Z) : float :=
  if z <? 0 then PrimFloat.opp (PrimFloat.of_uint63 (Uint63.of_Z (- z)))
  else PrimFloat.of_uint63 (Uint63.of_Z z).

Definition geb (a b : float) : bool := PrimFloat.leb b a.

(** [Math.max]: NaN if either argument is, and [+0] above [-0]. *)
Definition max (a b : float) : float :=
  if PrimFloat.is_nan a || PrimFloat.is_nan b then nan
  else if PrimFloat.ltb a b then b
  else if PrimFloat.ltb b a then a
  else if PrimFloat.is_zero a then PrimFloat.add a b
  else a.

Definition two52 : float := 4503599627370496%float.

(** The largest integer not above [x], for [|x| < 2^52]: adding and
    removing 2^52 rounds to an integer, one too high at most. *)
Definition floor (x : float) : float :=
  let t := if PrimFloat.leb 0 x
           then PrimFloat.sub (PrimFloat.add x two52) two52
           else PrimFloat.add (PrimFloat.sub x two52) two52 in
  if PrimFloat.ltb x t then PrimFloat.sub t 1 else t.

(** [Math.round]: the nearest integer, a tie going up; NaN, the
    infinities, the zeros and every [|x| >= 2^52] (an integer already)
    are returned as they are, and a zero result keeps the sign of [x]. *)
Definition round (x : float) : float :=
  if PrimFloat.is_zero x then x
  else if PrimFloat.ltb (PrimFloat.abs x) two52 then
    let f := floor x in
    let r := if PrimFloat.ltb (PrimFloat.sub x f) 0.5 then f
             else PrimFloat.add f 1 in
    if PrimFloat.is_zero r && PrimFloat.ltb x 0 then (-0)%float else r
  else x.

End Float64.

Definition binary64 : JSNumber := {|
  number := float;
  of_Z := Float64.of_Z;
  add := PrimFloat.add;
  sub := PrimFloat.sub;
  mul := PrimFloat.mul;
  div := PrimFloat.div;
  ltb := PrimFloat.ltb;
  geb := Float64.geb;
  Math_sqrt := PrimFloat.sqrt;
  Math_max := Float64.max;
  Math_round := Float64.round;
|}.

Canonical Structure binary64.

(** *** Exact arithmetic with IEEE's special values *)

Module Exact.

Inductive xnum : Type :=
| NaN
| PosInf
| NegInf
| Fin (q : Q).

Definition of_Z (z : Z) : xnum := Fin (inject_Z z).

Definition Qltb (p q : Q) : bool := negb (Qle_bool q p).
Definition Qis0 (q : Q) : bool := Qeq_bool q 0.

Definition neg (a : xnum) : xnum :=
  match a with
  | NaN => NaN
  | PosInf => NegInf
  | NegInf => PosInf
  | Fin q => Fin (Qred (- q))
  end.

Definition add (a b : xnum) : xnum :=
  match a, b with
  | NaN, _ | _, NaN => NaN
  | PosInf, NegInf | NegInf, PosInf => NaN
  | PosInf, _ | _, PosInf => PosInf
  | NegInf, _ | _, NegInf => NegInf
  | Fin p, Fin q => Fin (Qred (p + q))
  end.

Definition sub (a b : xnum) : xnum := add a (neg b).

(** An infinity with the sign of [q] ([pos] tells the sign of the
    infinity it multiplies); a zero [q] gives NaN. *)
Definition inf_times (pos : bool) (q : Q) : xnum :=
  if Qis0 q then NaN
  else if Bool.eqb pos (Qltb 0 q) then PosInf else NegInf.

Definition mul (a b : xnum) : xnum :=
  match a, b with
  | NaN, _ | _, NaN => NaN
  | PosInf, PosInf | NegInf, NegInf => PosInf
  | PosInf, NegInf | NegInf, PosInf => NegInf
  | PosInf, Fin q | Fin q, PosInf => inf_times true q
  | NegInf, Fin q | Fin q, NegInf => inf_times false q
  | Fin p, Fin q => Fin (Qred (p * q))
  end.

(** Division.  The one zero of this structure is IEEE's [+0], which is
    the zero the program divides by ([now - startTime] at [now =
    startTime], and the square root of a sum of squares). *)
Definition div (a b : xnum) : xnum :=
  match a, b with
  | NaN, _ | _, NaN => NaN
  | Fin _, PosInf | Fin _, NegInf => Fin 0
  | PosInf, Fin q => if Qltb q 0 then NegInf else PosInf
  | NegInf, Fin q => if Qltb q 0 then PosInf else NegInf
  | PosInf, _ | NegInf, _ => NaN
  | Fin p, Fin q =>
      if Qis0 q then
        if Qis0 p then NaN else if Qltb 0 p then PosInf else NegInf
      else Fin (Qred (p / q))
  end.

Definition ltb (a b : xnum) : bool :=
  match a, b with
  | NaN, _ | _, NaN => false
  | _, NegInf => false
  | NegInf, _ => true
  | PosInf, _ => false
  | Fin _, PosInf => true
  | Fin p, Fin q => Qltb p q
  end.

Definition geb (a b : xnum) : bool :=
  match a, b with
  | NaN, _ | _, NaN => false
  | _, NegInf => true
  | NegInf, _ => false
  | PosInf, _ => true
  | Fin _, PosInf => false
  | Fin p, Fin q => Qle_bool q p
  end.

(** [Math.sqrt], exact on the square of a rational and cut to 52 more
    binary digits otherwise. *)
Definition sqrt (a : xnum) : xnum :=
  match a with
  | NaN | NegInf => NaN
  | PosInf => PosInf
  | Fin q =>
      if Qltb q 0 then NaN
      else Fin (Qred (Z.sqrt (Qnum q * Zpos (Qden q) * 4 ^ 52)
                      # (Qden q * 2 ^ 52)))
  end.

Definition max (a b : xnum) : xnum :=
  match a, b with
  | NaN, _ | _, NaN => NaN
  | _, _ => if ltb a b then b else a
  end.

Definition round (a : xnum) : xnum :=
  match a with
  | Fin q => Fin (inject_Z (Qfloor (q + (1 # 2))))
  | _ => a
  end.

End Exact.

Definition exact : JSNumber := {|
  number := Exact.xnum;
  of_Z := Exact.of_Z;
  add := Exact.add;
  sub := Exact.sub;
  mul := Exact.mul;
  div := Exact.div;
  ltb := Exact.ltb;
  geb := Exact.geb;
  Math_sqrt := Exact.sqrt;
  Math_max := Exact.max;
  Math_round := Exact.round;
|}.

Canonical Structure exact.

(** ** fatigue-detector.ts *)

Section Program.

Context {N : JSNumber}.
#[local] Open Scope js_scope.

(** Modelled from the spec: the landmark type [Keypoint] is declared by the
    face-landmarks library, not in this repository; a landmark is a point
    with real coordinates [x], [y] and an optional [z], which the code
    never reads. *)
Record Keypoint : Type := {
  x : number;
  y : number;
  z : option number;
}.

(** The six landmark indices of one eye. *)
Record EyeIndices : Type := {
  p1 : nat;
  p2 : nat;
  p3 : nat;
  p4 : nat;
  p5 : nat;
  p6 : nat;
}.

Definition EYE_LANDMARKS_LEFT : EyeIndices :=
  {| p1 := 33; p2 := 160; p3 := 158; p4 := 133; p5 := 153; p6 := 144 |}.

Definition EYE_LANDMARKS_RIGHT : EyeIndices :=
  {| p1 := 362; p2 := 385; p3 := 387; p4 := 263; p5 := 373; p6 := 380 |}.

Definition distance (a b : Keypoint) : number :=
  let dx := x a - x b in
  let dy := y a - y b in
  Math_sqrt (dx * dx + dy * dy).

(** [keypoints[i]] is [undefined] past the end of the array and reading
    [.x] of it throws a [TypeError]: [None]. *)
Definition calculateEAR (keypoints : list Keypoint) (indices : EyeIndices)
  : option number :=
  match nth_error keypoints (p1 indices), nth_error keypoints (p2 indices),
        nth_error keypoints (p3 indices), nth_error keypoints (p4 indices),
        nth_error keypoints (p5 indices), nth_error keypoints (p6 indices)
  with
  | Some k1, Some k2, Some k3, Some k4, Some k5, Some k6 =>
      let vertical1 := distance k2 k6 in
      let vertical2 := distance k3 k5 in
      let horizontal := distance k1 k4 in
      Some ((vertical1 + vertical2) / (of_Z 2 * horizontal))
  | _, _, _, _, _, _ => None
  end.

(** ** perclos-detector.ts *)

Record EARRecord : Type := {
  timestamp : Z;
  ear : number;
}.

Record FatigueScore : Type := {
  score : number;
  level : string;
  details : number;
}.

Record PERCLOSDetector : Type := {
  earHistory : list EARRecord;
  startTime : Z;
  lastUpdateTime : Z;
}.

Definition WINDOW_MS : Z := 60000.
Definition EAR_THRESHOLD : number := decimal 2 1.
Definition NORMAL_PERCLOS : number := of_Z 15.
Definition FATIGUE_PERCLOS : number := of_Z 20.

Definition level_normal : string := "正常".
Definition level_mild : string := "やや疲労".
Definition level_fatigue : string := "疲労".

Definition getName : string := "PERCLOS".

(** [new PERCLOSDetector()] at clock value [now]. *)
Definition new (now : Z) : PERCLOSDetector :=
  {| earHistory := []; startTime := now; lastUpdateTime := now |}.

Definition cleanOldData (now : Z) (this : PERCLOSDetector)
  : PERCLOSDetector :=
  let cutoff := (now - WINDOW_MS * 2)%Z in
  {| earHistory :=
       filter (fun record => (cutoff <? timestamp record)%Z)
              (earHistory this);
     startTime := startTime this;
     lastUpdateTime := lastUpdateTime this |}.

Definition getRecentEARs (now : Z) (this : PERCLOSDetector)
  : list EARRecord :=
  let cutoff := (now - WINDOW_MS)%Z in
  filter (fun record => (cutoff <? timestamp record)%Z) (earHistory this).

(** [update] from the averaged ratio on: push the sample, note the time,
    clean up. *)
Definition record_sample (avgEAR : number) (now : Z)
           (this : PERCLOSDetector) : PERCLOSDetector :=
  cleanOldData now
    {| earHistory :=
         earHistory this ++ [{| timestamp := now; ear := avgEAR |}];
       startTime := startTime this;
       lastUpdateTime := now |}.

(** The ratio [update] stores for a frame; [None] when an eye's landmark
    is missing from [keypoints]. *)
Definition averageEAR (keypoints : list Keypoint) : option number :=
  match calculateEAR keypoints EYE_LANDMARKS_LEFT with
  | None => None
  | Some leftEAR =>
      match calculateEAR keypoints EYE_LANDMARKS_RIGHT with
      | None => None
      | Some rightEAR => Some ((leftEAR + rightEAR) / of_Z 2)
      end
  end.

(** [None]: the call threw and left the detector as it was. *)
Definition update (keypoints : list Keypoint) (now : Z)
           (this : PERCLOSDetector) : option PERCLOSDetector :=
  match averageEAR keypoints with
  | None => None
  | Some avgEAR => Some (record_sample avgEAR now this)
  end.

(** [earRecords[i].timestamp]; the loop below only reads inside the
    array. *)
Definition timestamp_at (earRecords : list EARRecord) (i : nat) : Z :=
  nth i (map timestamp earRecords) 0%Z.

(** The duration the loop body gives to the frame at index [i]. *)
Definition frameDuration (earRecords : list EARRecord) (i : nat) : Z :=
  if (Z.of_nat i <? Z.of_nat (List.length earRecords) - 1)%Z then
    (timestamp_at earRecords (i + 1) - timestamp_at earRecords i)%Z
  else if (0 <? i)%nat then
    (timestamp_at earRecords i - timestamp_at earRecords (i - 1))%Z
  else 33%Z.

(** The [for] loop of [calculateClosurePercentage], [steps] iterations
    from index [i] on. *)
Fixpoint closure_loop (earRecords : list EARRecord) (steps i : nat)
         (closedTimeMs : Z) : Z :=
  match steps with
  | O => closedTimeMs
  | S steps' =>
      match nth_error earRecords i with
      | None => closedTimeMs
      | Some record =>
          closure_loop earRecords steps' (S i)
            (if ear record <? EAR_THRESHOLD
             then (closedTimeMs + frameDuration earRecords i)%Z
             else closedTimeMs)
      end
  end.

(** [closedTimeMs] when the loop ends. *)
Definition closedTime (earRecords : list EARRecord) : Z :=
  closure_loop earRecords (List.length earRecords) 0 0%Z.

Definition calculateClosurePercentage (earRecords : list EARRecord)
           (windowMs : Z) : number :=
  if (List.length earRecords =? 0)%nat then of_Z 0
  else of_Z (closedTime earRecords) / of_Z windowMs * of_Z 100.

Definition calculatePERCLOS (now : Z) (this : PERCLOSDetector) : number :=
  let recentEARs := getRecentEARs now this in
  if (List.length recentEARs =? 0)%nat then of_Z 0
  else
    let elapsedMs := (now - startTime this)%Z in
    let actualWindowMs := Z.min elapsedMs WINDOW_MS in
    if (actualWindowMs <? 30000)%Z then
      calculateClosurePercentage recentEARs actualWindowMs
    else
      calculateClosurePercentage recentEARs actualWindowMs.

(** The three score formulas of [getScore], in the order of its
    branches. *)
Definition score_fatigue (perclos : number) : number :=
  Math_max (of_Z 0) (of_Z 100 - (perclos - FATIGUE_PERCLOS) * of_Z 4).

Definition score_mild (perclos : number) : number :=
  of_Z 100 - (perclos - NORMAL_PERCLOS) * of_Z 4.

Definition score_normal (perclos : number) : number :=
  of_Z 100 - perclos * (of_Z 20 / of_Z 15).

(** [getScore] from the value of [perclos] on. *)
Definition score_of (perclos : number) : FatigueScore :=
  let '(level, score) :=
    if perclos >=? FATIGUE_PERCLOS then
      (level_fatigue, score_fatigue perclos)
    else if perclos >=? NORMAL_PERCLOS then
      (level_mild, score_mild perclos)
    else
      (level_normal, score_normal perclos) in
  {| score := Math_round score;
     level := level;
     details := Math_round (perclos * of_Z 10) / of_Z 10 |}.

Definition getScore (now : Z) (this : PERCLOSDetector) : FatigueScore :=
  score_of (calculatePERCLOS now this).

End Program.

Arguments Keypoint : clear implicits.
Arguments EARRecord : clear implicits.
Arguments FatigueScore : clear implicits.
Arguments PERCLOSDetector : clear implicits.
Arguments Build_FatigueScore {N} & score level details.
Arguments Build_EARRecord {N} & timestamp ear.
Arguments Build_Keypoint {N} & x y z.

(** ** Notions the statements use *)

Section Notions.

Context {N : JSNumber}.

(** The detectors a program can hold: created at clock value [t0], then
    updated by calls that succeed, the clock never running backwards. *)
Inductive reachable (t0 : Z) : PERCLOSDetector N -> Prop :=
| reach_new : reachable t0 (new t0)
| reach_update (this : PERCLOSDetector N) keypoints now this' :
    reachable t0 this ->
    lastUpdateTime this <= now ->
    update keypoints now this = Some this' ->
    reachable t0 this'.

(** Samples in the order of their timestamps. *)
Definition chronological (earRecords : list (EARRecord N)) : Prop :=
  StronglySorted Z.le (map timestamp earRecords).

Definition last_timestamp (earRecords : list (EARRecord N)) : option Z :=
  match rev earRecords with
  | [] => None
  | record :: _ => Some (timestamp record)
  end.

(** What holds of every detector a program can hold. *)
Record well_formed (t0 : Z) (this : PERCLOSDetector N) : Prop := {
  wf_start : startTime this = t0;
  wf_last : t0 <= lastUpdateTime this;
  wf_order : chronological (earHistory this);
  wf_range : forall r : EARRecord N,
      In r (earHistory this) -> t0 <= timestamp r <= lastUpdateTime this;
}.

(** The closed time in the words of the specification: going through
    the samples in order, a sample's frame duration is the delta to the
    next sample; the last sample takes the delta to the previous one
    ([previous]) if there is one and 33 ms otherwise; the duration counts
    when the ratio is below the threshold. *)
Fixpoint spec_closed_time (previous : option Z)
         (samples : list (EARRecord N)) : Z :=
  match samples with
  | [] => 0
  | sample :: rest =>
      let duration :=
        match rest with
        | next :: _ => timestamp next - timestamp sample
        | [] =>
            match previous with
            | Some t => timestamp sample - t
            | None => 33
            end
        end in
      (if (ear sample <? EAR_THRESHOLD)%js then duration else 0)
      + spec_closed_time (Some (timestamp sample)) rest
  end.


Definition point (px py : Z) : Keypoint N :=
  {| x := of_Z px; y := of_Z py; z := None |}.

Definition is_one_of (i : nat) (indices : list nat) : bool :=
  existsb (Nat.eqb i) indices.

(** Landmark [i] of a face whose eyes are both [h] wide and [v] high:
    the corners at (0,0) and ([h],0), the two upper landmarks [v] above
    the two lower ones, every other landmark at the origin. *)
Definition landmark (h v : Z) (i : nat) : Keypoint N :=
  let L := EYE_LANDMARKS_LEFT in
  let R := EYE_LANDMARKS_RIGHT in
  if is_one_of i [p4 L; p4 R] then point h 0
  else if is_one_of i [p2 L; p2 R] then point 3 v
  else if is_one_of i [p6 L; p6 R] then point 3 0
  else if is_one_of i [p3 L; p3 R] then point 7 v
  else if is_one_of i [p5 L; p5 R] then point 7 0
  else point 0 0.

(** The 478 landmarks of such a face. *)
Definition face (h v : Z) : list (Keypoint N) :=
  map (landmark h v) (seq 0 478).

Definition sample (t : Z) (ratio : number) : EARRecord N :=
  {| timestamp := t; ear := ratio |}.

(** A detector created at [t0] that holds [earRecords]. *)
Definition detector (t0 : Z) (earRecords : list (EARRecord N))
  : PERCLOSDetector N :=
  {| earHistory := earRecords;
     startTime := t0;
     lastUpdateTime :=
       match last_timestamp earRecords with
       | Some t => t
       | None => t0
       end |}.

End Notions.

(** The values of [binary64] that are not finite. *)
Definition is_finite64 (a : float) : bool :=
  negb (PrimFloat.is_nan a || PrimFloat.is_infinity a).

(** A number of [exact] that is an integer between [lo] and [hi]. *)
Definition integer_between (lo hi : Z) (a : Exact.xnum) : Prop :=
  exists n : Z, a = Exact.of_Z n /\ lo <= n <= hi.


(** *** Doubles by mantissa and exponent *)

(** The value of mantissa [m] and exponent [e], scaled by 2^2200 to stay
    in the integers. *)
Definition scaled (m : Z) (e : Z) : Z := m * 2 ^ (e + 2200).

(** The one representation a double has. *)
Definition canonical (m : positive) (e : Z) : Prop :=
  fexp prec emax (Zpos (digits2_pos m) + e) = e.

(** A double that is the number of mantissa [mc] and exponent [ec] at
    least. *)
Definition at_least (mc : positive) (ec : Z) (f : spec_float) : Prop :=
  match f with
  | S754_infinity false => True
  | S754_finite false m e => scaled (Zpos mc) ec <= scaled (Zpos m) e
  | _ => False
  end.

(** A double that is zero at most. *)
Definition at_most_zero (f : spec_float) : Prop :=
  match f with
  | S754_zero _ | S754_infinity true | S754_finite true _ _ => True
  | _ => False
  end.

(** NaN, [+0], a positive number or +Infinity. *)
Definition not_below_zero (f : spec_float) : Prop :=
  match f with
  | S754_nan => True
  | S754_zero s | S754_infinity s | S754_finite s _ _ => s = false
  end.

(** A double that is NaN, [+0], positive or +Infinity. *)
Definition nonneg64 (f : float) : Prop := not_below_zero (Prim2SF f).

Arguments sample {N} & t ratio.
Arguments detector {N} & t0 earRecords.

(** *** The detectors of the scenarios, in binary64 *)

Module Scenario.

#[local] Open Scope float_scope.

Definition sample64 (t : Z) (ratio : float) : EARRecord binary64 :=
  sample t ratio.

(** One closed sample taken at the instant of construction. *)
Definition blink_at_start : PERCLOSDetector binary64 :=
  detector 0 [sample64 0 0.1].

(** Closed, closed, open, one second apart. *)
Definition three_samples : PERCLOSDetector binary64 :=
  detector 0 [sample64 0 0.1; sample64 1000 0.1; sample64 2000 0.3].

(** Closed for [closed] ms, then open. *)
Definition closed_for (closed : Z) : PERCLOSDetector binary64 :=
  detector 0 [sample64 0 0.1; sample64 closed 0.3].

(** A new detector after one [update] with open eyes, the clock still at
    the instant of construction. *)
Definition open_at_start : PERCLOSDetector binary64 :=
  record_sample (N:=binary64) 0.3 0 (new 0).

(** An older history, for a frame at 200000 ms. *)
Definition old_history : PERCLOSDetector binary64 :=
  detector 0 [sample64 70000 0.1; sample64 130000 0.3; sample64 150000 0.1].


End Scenario.

(** *** Notions of the further properties *)

Section MoreNotions.

Context {N : JSNumber}.

(** A sample taken [d] ms later. *)
Definition delayed (d : Z) (r : EARRecord N) : EARRecord N :=
  {| timestamp := timestamp r + d; ear := ear r |}.

(** The same detector on a clock that runs [d] ms ahead: every clock
    value it holds is [d] later. *)
Definition later (d : Z) (this : PERCLOSDetector N) : PERCLOSDetector N :=
  {| earHistory := map (delayed d) (earHistory this);
     startTime := startTime this + d;
     lastUpdateTime := lastUpdateTime this + d |}.

(** A sample the loop of [calculateClosurePercentage] does not count: its
    ratio is not below the threshold (NaN is not). *)
Definition counts_as_open (r : EARRecord N) : Prop :=
  (ear r <? EAR_THRESHOLD)%js = false.

(** [update] without its last statement, the call of [cleanOldData]. *)
Definition push_sample (avgEAR : number) (now : Z)
           (this : PERCLOSDetector N) : PERCLOSDetector N :=
  {| earHistory :=
       earHistory this ++ [{| timestamp := now; ear := avgEAR |}];
     startTime := startTime this;
     lastUpdateTime := now |}.

End MoreNotions.

Section Spacing.

Context {N : JSNumber}.

(** Samples taken every [step] ms. *)
Fixpoint evenly_spaced (step : Z) (samples : list (EARRecord N)) : Prop :=
  match samples with
  | r :: (next :: _) as rest =>
      timestamp next - timestamp r = step /\ evenly_spaced step rest
  | _ => True
  end.

(** The samples the loop counts as closed. *)
Definition closed_samples (samples : list (EARRecord N))
  : list (EARRecord N) :=
  filter (fun r => (ear r <? EAR_THRESHOLD)%js) samples.

End Spacing.

(** *** More on doubles by mantissa and exponent *)

(** A double that is zero or above: a zero, a positive number or
    +Infinity. *)
Definition from_zero (f : spec_float) : Prop :=
  match f with
  | S754_nan => False
  | S754_zero _ => True
  | S754_infinity s | S754_finite s _ _ => s = false
  end.

(** A double that is the number of mantissa [mc] and exponent [ec] at
    most. *)
Definition at_most (mc : positive) (ec : Z) (f : spec_float) : Prop :=
  match f with
  | S754_zero _ | S754_infinity true | S754_finite true _ _ => True
  | S754_finite false m e => scaled (Zpos m) e <= scaled (Zpos mc) ec
  | _ => False
  end.

(** The digits a shift to the right has dropped are not all zero. *)
Definition inexact (mrs : shr_record) : bool := shr_r mrs || shr_s mrs.

(** [+0] or a positive double that is the number of mantissa [mc] and
    exponent [ec] at most. *)
Definition zero_to (mc : positive) (ec : Z) (f : spec_float) : Prop :=
  match f with
  | S754_zero false => True
  | S754_finite false m e => scaled (Zpos m) e <= scaled (Zpos mc) ec
  | _ => False
  end.

(** The same double, decided on sign, mantissa and exponent. *)
Definition same64 (a b : float) : bool :=
  match Prim2SF a, Prim2SF b with
  | S754_zero s, S754_zero s' | S754_infinity s, S754_infinity s' =>
      Bool.eqb s s'
  | S754_nan, S754_nan => true
  | S754_finite s m e, S754_finite s' m' e' =>
      Bool.eqb s s' && Pos.eqb m m' && Z.eqb e e'
  | _, _ => false
  end.

(** [Float64.round x] for a positive [x] below 2^52, from the sum [x +
    2^52] and the outcomes [b1], [b2] of its two comparisons. *)
Definition round_from (sum : float) (b1 b2 : bool) : float :=
  let t := PrimFloat.sub sum Float64.two52 in
  let f := if b1 then PrimFloat.sub t 1 else t in
  if b2 then f else PrimFloat.add f 1.

(** The double 2^52 + [n], for [0 <= n < 2^52]. *)
Definition two52_plus (n : Z) : float :=
  SF2Prim (S754_finite false (Z.to_pos (4503599627370496 + n)) 0).

(** For the sums 2^52 + n, n from 0 to 100, [round_from] gives the
    integer it should, whatever the comparisons say. *)
Definition round_table_checked : bool :=
  forallb
    (fun n =>
       forallb
         (fun b1 =>
            forallb
              (fun b2 =>
                 same64 (round_from (two52_plus n) b1 b2)
                        (Float64.of_Z (n - (if b1 then 1 else 0)
                                       + (if b2 then 0 else 1))))
              [true; false])
         [true; false])
    (map Z.of_nat (seq 0 101)).

(** The integers [start], [start + 1], ..., [count] of them. *)
Fixpoint integers_from (start : Z) (count : nat) : list Z :=
  match count with
  | O => []
  | S count' => start :: integers_from (start + 1) count'
  end.

(** NaN or +Infinity. *)
Definition nan_or_plus_infinity (f : spec_float) : Prop :=
  f = S754_nan \/ f = S754_infinity false.

(** NaN or [+0]. *)
Definition nan_or_plus_zero (f : spec_float) : Prop :=
  f = S754_nan \/ f = S754_zero false.


(** ** detector.ts: the landmark detector *)

(** More of [Math], for the callers of the detector. *)

(** [Math.min]: NaN if either argument is, and [-0] below [+0]. *)
Definition Math_min64 (a b : float) : float :=
  if PrimFloat.is_nan a || PrimFloat.is_nan b then nan
  else if PrimFloat.ltb a b then a
  else if PrimFloat.ltb b a then b
  else if PrimFloat.is_zero a
       then PrimFloat.opp (PrimFloat.add (PrimFloat.opp a) (PrimFloat.opp b))
       else a.

(** [Math.ceil]: the least integer not below [x]; NaN, the infinities,
    the zeros and every [|x| >= 2^52] are returned as they are, and a zero
    result has the sign of [x]. *)
Definition Math_ceil64 (x : float) : float :=
  if PrimFloat.is_zero x then x
  else if PrimFloat.ltb (PrimFloat.abs x) Float64.two52 then
    PrimFloat.opp (Float64.floor (PrimFloat.opp x))
  else x.

(** How a call that can throw ends. *)
Inductive outcome (A : Type) : Type :=
| returned (value : A)
| thrown (message : string).

Arguments returned {A} value.
Arguments thrown {A} message.

(** [array.slice(start, stop)] for [0 <= start <= stop]. *)
Definition slice {A : Type} (start stop : nat) (array : list A) : list A :=
  firstn (stop - start) (skipn start array).

Section Detection.

Context {N : JSNumber}.
#[local] Open Scope js_scope.

(** [Point]; its coordinates are [x] and [y] in the source. *)
Record Point : Type := {
  Point_x : number;
  Point_y : number;
}.

(** [DetectionResult]; [null] is [None], and the third field is
    [keypoints] in the source. *)
Record DetectionResult : Type := {
  irisCenter : option Point;
  faceDetected : bool;
  detected : option (list (Keypoint N));
}.

(** [{ irisCenter: null, faceDetected: false, keypoints: null }]. *)
Definition nothing_detected : DetectionResult :=
  {| irisCenter := None; faceDetected := false; detected := None |}.

(** [calculateCenter], the same text in both versions of the detector. *)
Definition calculateCenter (points : list (Keypoint N)) : Point :=
  let sum :=
    fold_left
      (fun acc point =>
         {| Point_x := Point_x acc + x point;
            Point_y := Point_y acc + y point |})
      points
      {| Point_x := of_Z 0; Point_y := of_Z 0 |} in
  {| Point_x := Point_x sum / of_Z (Z.of_nat (List.length points));
     Point_y := Point_y sum / of_Z (Z.of_nat (List.length points)) |}.

(** [[...leftIris, ...rightIris]]: the landmarks 468 to 472 and 473 to
    477, as far as the array has them. *)
Definition allIrisPoints (keypoints : list (Keypoint N))
  : list (Keypoint N) :=
  slice 468 473 keypoints ++ slice 473 478 keypoints.

(** [detect] of [src/src/detector.ts].  [detector] tells whether
    [initialize] has set the field, and [faces] is what [estimateFaces]
    resolves with, each face given by its [keypoints]. *)
Definition detect (detector : bool) (faces : list (list (Keypoint N)))
  : outcome DetectionResult :=
  if negb detector then thrown "Detector not initialized"%string
  else
    match faces with
    | [] => returned nothing_detected
    | keypoints :: _ =>
        returned {| irisCenter := Some (calculateCenter (allIrisPoints keypoints));
                    faceDetected := true;
                    detected := Some keypoints |}
    end.

End Detection.

Arguments Point : clear implicits.
Arguments DetectionResult : clear implicits.
Arguments Build_Point {N} & Point_x Point_y.
Arguments Build_DetectionResult {N} & irisCenter faceDetected detected.

(** ** The detector on MediaPipe Tasks Vision ([src/unnamed/part_001]) *)

Module TasksVision.

(** What [detect] reads of the [HTMLVideoElement]. *)
Record Video : Type := {
  readyState : Z;
  videoWidth : Z;
  videoHeight : Z;
  currentTime : float;
}.

(** A landmark of [result.faceLandmarks], in normalized coordinates. *)
Record NormalizedLandmark : Type := {
  landmark_x : float;
  landmark_y : float;
  landmark_z : float;
}.

(** [faceLandmarker] tells whether [initialize] has set the field. *)
Record FaceDetector : Type := {
  faceLandmarker : bool;
  lastVideoTime : float;
}.

Definition new : FaceDetector :=
  {| faceLandmarker := false; lastVideoTime := (-1)%float |}.

(** The landmarks of a face as keypoints, in pixels. *)
Definition toKeypoints (video : Video) (landmarks : list NormalizedLandmark)
  : list (Keypoint binary64) :=
  map (fun landmark =>
         {| x := PrimFloat.mul (landmark_x landmark)
                               (Float64.of_Z (videoWidth video));
            y := PrimFloat.mul (landmark_y landmark)
                               (Float64.of_Z (videoHeight video));
            z := Some (landmark_z landmark) |})
      landmarks.

(** [detect]; [faceLandmarks] is the field of that name of what
    [detectForVideo] returns for this frame ([None]: not set).  A call
    that throws leaves the detector as it was. *)
Definition detect (video : Video)
           (faceLandmarks : option (list (list NormalizedLandmark)))
           (this : FaceDetector)
  : outcome (DetectionResult binary64 * FaceDetector) :=
  if negb (faceLandmarker this) then thrown "Detector not initialized"%string
  else if negb (readyState video =? 4) || (videoWidth video =? 0) then
    returned (nothing_detected, this)
  else if PrimFloat.eqb (currentTime video) (lastVideoTime this) then
    returned (nothing_detected, this)
  else
    let this := {| faceLandmarker := faceLandmarker this;
                   lastVideoTime := currentTime video |} in
    match faceLandmarks with
    | None | Some [] => returned (nothing_detected, this)
    | Some (landmarks :: _) =>
        let keypoints := toKeypoints video landmarks in
        let irisCenter :=
          if (477 <? List.length keypoints)%nat
          then Some (calculateCenter (allIrisPoints keypoints))
          else None in
        returned ({| irisCenter := irisCenter;
                     faceDetected := true;
                     detected := Some keypoints |}, this)
    end.

End TasksVision.

(** ** The application ([src/unnamed/part_000]) *)

Module SpotCheck.

#[local] Open Scope string_scope.

Inductive SpotCheckState : Type :=
| idle
| initializing
| measuring
| result.

(** A text of the page: a string, or a number turned into a string and
    followed by a suffix. *)
Inductive text : Type :=
| literal (s : string)
| shown (n : float) (suffix : string).

Section App.

(** The camera's streams. *)
Context {MediaStream : Type}.

(** The three containers, by their [style.display]. *)
Record Containers : Type := {
  idleState : string;
  measuringState : string;
  resultState : string;
}.

(** The video and its switch: whether [videoContainer.classList] holds
    ['hidden'], [video.srcObject], the streams whose tracks [stopCamera]
    has stopped, [cameraToggleText.textContent] and whether
    [cameraToggleBtn.classList] holds ['active']. *)
Record Camera : Type := {
  videoContainer_hidden : bool;
  video_srcObject : option MediaStream;
  stopped : list MediaStream;
  cameraToggleText : text;
  cameraToggleBtn_active : bool;
}.

(** [timerElement.textContent] and [progressElement.style.width]. *)
Record Timer : Type := {
  timerElement : text;
  progressElement_width : text;
}.

(** The elements of the result, by [textContent] and [style.color]. *)
Record Result : Type := {
  resultLevelElement : text;
  resultLevelElement_color : string;
  resultScoreElement : text;
  resultScoreElement_color : string;
  resultPERCLOSElement : text;
}.

(** The elements the constructor looks up, by the properties the code
    writes. *)
Record Page : Type := {
  containers : Containers;
  camera : Camera;
  timer : Timer;
  shownResult : Result;
  infoElement : text;
}.

(** The fields of [SpotCheckApp]; the landmark detector is seen through
    the results of its calls. *)
Record SpotCheckApp : Type := {
  page : Page;
  perclosDetector : option (PERCLOSDetector binary64);
  currentState : SpotCheckState;
  isRunning : bool;
  isCameraVisible : bool;
  measurementStartTime : Z;
}.

Definition MEASUREMENT_DURATION_MS : Z := 30000.

Definition with_page (f : Page -> Page) (this : SpotCheckApp)
  : SpotCheckApp :=
  {| page := f (page this);
     perclosDetector := perclosDetector this;
     currentState := currentState this;
     isRunning := isRunning this;
     isCameraVisible := isCameraVisible this;
     measurementStartTime := measurementStartTime this |}.

Definition with_camera (f : Camera -> Camera) (document : Page) : Page :=
  {| containers := containers document;
     camera := f (camera document);
     timer := timer document;
     shownResult := shownResult document;
     infoElement := infoElement document |}.

Definition set_isRunning (v : bool) (this : SpotCheckApp) : SpotCheckApp :=
  {| page := page this;
     perclosDetector := perclosDetector this;
     currentState := currentState this;
     isRunning := v;
     isCameraVisible := isCameraVisible this;
     measurementStartTime := measurementStartTime this |}.

Definition updateInfo (message : string) (this : SpotCheckApp)
  : SpotCheckApp :=
  with_page
    (fun document =>
       {| containers := containers document;
          camera := camera document;
          timer := timer document;
          shownResult := shownResult document;
          infoElement := literal message |})
    this.

Definition setState (state : SpotCheckState) (this : SpotCheckApp)
  : SpotCheckApp :=
  let shows (c : Containers) (message : string) : SpotCheckApp :=
    updateInfo message
      {| page :=
           {| containers := c;
              camera := camera (page this);
              timer := timer (page this);
              shownResult := shownResult (page this);
              infoElement := infoElement (page this) |};
         perclosDetector := perclosDetector this;
         currentState := state;
         isRunning := isRunning this;
         isCameraVisible := isCameraVisible this;
         measurementStartTime := measurementStartTime this |} in
  match state with
  | idle =>
      shows {| idleState := "block"; measuringState := "none";
               resultState := "none" |}
            "測定開始ボタンを押してください"
  | initializing =>
      shows {| idleState := "none"; measuringState := "block";
               resultState := "none" |}
            "カメラとモデルを初期化しています..."
  | measuring =>
      shows {| idleState := "none"; measuringState := "block";
               resultState := "none" |}
            "測定中... カメラを見つめてください"
  | result =>
      shows {| idleState := "none"; measuringState := "none";
               resultState := "block" |}
            "測定完了"
  end.

Definition stopCamera (this : SpotCheckApp) : SpotCheckApp :=
  match video_srcObject (camera (page this)) with
  | Some stream =>
      with_page
        (with_camera
           (fun c => {| videoContainer_hidden := videoContainer_hidden c;
                        video_srcObject := None;
                        stopped := stream :: stopped c;
                        cameraToggleText := cameraToggleText c;
                        cameraToggleBtn_active := cameraToggleBtn_active c |}))
        this
  | None => this
  end.

(** The closure [updateTimer] of [startTimer], at clock value [now];
    the boolean tells whether [requestAnimationFrame(updateTimer)] is
    called. *)
Definition updateTimer (now : Z) (this : SpotCheckApp)
  : SpotCheckApp * bool :=
  if negb (isRunning this) then (this, false)
  else
    let elapsed := now - measurementStartTime this in
    let remaining := Z.max 0 (MEASUREMENT_DURATION_MS - elapsed) in
    let secondsRemaining :=
      Math_ceil64 (PrimFloat.div (Float64.of_Z remaining)
                                 (Float64.of_Z 1000)) in
    let progress :=
      PrimFloat.mul
        (PrimFloat.div (Float64.of_Z elapsed)
                       (Float64.of_Z MEASUREMENT_DURATION_MS))
        (Float64.of_Z 100) in
    (with_page
       (fun document =>
          {| containers := containers document;
             camera := camera document;
             timer :=
               {| timerElement := shown secondsRemaining "";
                  progressElement_width :=
                    shown (Math_min64 (Float64.of_Z 100) progress) "%" |};
             shownResult := shownResult document;
             infoElement := infoElement document |})
       this,
     (0 <? remaining)%Z).

(** [startMeasurement] up to its first [await], of [getUserMedia]. *)
Definition startMeasurement (this : SpotCheckApp) : SpotCheckApp :=
  updateInfo "カメラにアクセスしています..." (setState initializing this).

(** [startMeasurement] once [getUserMedia] has resolved with [stream],
    up to the [await] of the video's metadata. *)
Definition startMeasurement_stream (stream : MediaStream)
           (this : SpotCheckApp) : SpotCheckApp :=
  with_page
    (with_camera
       (fun c => {| videoContainer_hidden := videoContainer_hidden c;
                    video_srcObject := Some stream;
                    stopped := stopped c;
                    cameraToggleText := cameraToggleText c;
                    cameraToggleBtn_active := cameraToggleBtn_active c |}))
    this.

(** [startMeasurement] once the metadata is loaded, up to the [await] of
    [detector.initialize()]. *)
Definition startMeasurement_metadata (this : SpotCheckApp) : SpotCheckApp :=
  updateInfo "顔検出モデルを読み込んでいます..." this.

(** [startMeasurement] once the model is initialized: the detector is
    constructed at clock value [t0], the measurement starts at clock
    value [t1], the detection loop makes its first call of the landmark
    detector and the timer shows the time left at clock value [t2]. *)
Definition startMeasurement_ready (t0 t1 t2 : Z) (this : SpotCheckApp)
  : SpotCheckApp :=
  let this :=
    setState measuring
      {| page := page this;
         perclosDetector := Some (new t0);
         currentState := currentState this;
         isRunning := isRunning this;
         isCameraVisible := isCameraVisible this;
         measurementStartTime := measurementStartTime this |} in
  fst (updateTimer t2
         {| page := page this;
            perclosDetector := perclosDetector this;
            currentState := currentState this;
            isRunning := true;
            isCameraVisible := isCameraVisible this;
            measurementStartTime := t1 |}).

(** The [catch] of [startMeasurement], for an [Error] with [message]. *)
Definition startMeasurement_catch (message : string) (this : SpotCheckApp)
  : SpotCheckApp :=
  setState idle (stopCamera (updateInfo ("エラー: " ++ message) this)).

Definition cancelMeasurement (this : SpotCheckApp) : SpotCheckApp :=
  setState idle (stopCamera (set_isRunning false this)).

Definition retryMeasurement (this : SpotCheckApp) : SpotCheckApp :=
  setState idle this.

Definition toggleCamera (this : SpotCheckApp) : SpotCheckApp :=
  let visible := negb (isCameraVisible this) in
  {| page :=
       with_camera
         (fun c =>
            {| videoContainer_hidden := negb visible;
               video_srcObject := video_srcObject c;
               stopped := stopped c;
               cameraToggleText :=
                 literal (if visible then "カメラ表示: ON"
                          else "カメラ表示: OFF");
               cameraToggleBtn_active := visible |})
         (page this);
     perclosDetector := perclosDetector this;
     currentState := currentState this;
     isRunning := isRunning this;
     isCameraVisible := visible;
     measurementStartTime := measurementStartTime this |}.

(** The colour of the level. *)
Definition levelColor (level : string) : string :=
  if String.eqb level "正常" then "#4CAF50"
  else if String.eqb level "やや疲労" then "#FF9800"
  else "#F44336".

(** The colour of the score. *)
Definition scoreColor (value : float) : string :=
  if Float64.geb value 80%float then "#4CAF50"
  else if Float64.geb value 60%float then "#2196F3"
  else if Float64.geb value 40%float then "#FF9800"
  else "#F44336".

(** [completeMeasurement], [getScore] reading the clock value [now];
    the text of [details] without ['PERCLOS '] is the number and ['%']. *)
Definition completeMeasurement (now : Z) (this : SpotCheckApp)
  : SpotCheckApp :=
  let this := set_isRunning false this in
  match perclosDetector this with
  | None =>
      setState idle
        (stopCamera (updateInfo "エラー: 測定データがありません" this))
  | Some perclos =>
      let fatigueScore := getScore now perclos in
      let this :=
        with_page
          (fun document =>
             {| containers := containers document;
                camera := camera document;
                timer := timer document;
                shownResult :=
                  {| resultLevelElement := literal (level fatigueScore);
                     resultLevelElement_color :=
                       levelColor (level fatigueScore);
                     resultScoreElement := shown (score fatigueScore) "";
                     resultScoreElement_color :=
                       scoreColor (score fatigueScore);
                     resultPERCLOSElement :=
                       shown (details fatigueScore) "%" |};
                infoElement := infoElement document |})
          this in
      setState result (stopCamera this)
  end.

(** The closure [detect] of [startDetectionLoop] from its [await] on,
    run on the application as it is when the landmark detector answers.
    [detection] is how [this.detector.detect] ended; [update], the test
    of the elapsed time and [getScore] read the clock values
    [now_update], [now_elapsed] and [now_score].  The boolean tells
    whether [requestAnimationFrame(detect)] is called. *)
Definition detect_resume (detection : outcome (DetectionResult binary64))
           (now_update now_elapsed now_score : Z) (this : SpotCheckApp)
  : SpotCheckApp * bool :=
  match detection with
  | thrown _ => (this, true)
  | returned found =>
      let updated :=
        match faceDetected found, detected found, perclosDetector this with
        | true, Some keypoints, Some perclos =>
            match update keypoints now_update perclos with
            | Some perclos' =>
                returned
                  {| page := page this;
                     perclosDetector := Some perclos';
                     currentState := currentState this;
                     isRunning := isRunning this;
                     isCameraVisible := isCameraVisible this;
                     measurementStartTime := measurementStartTime this |}
            | None => thrown "TypeError"
            end
        | _, _, _ => returned this
        end in
      match updated with
      | thrown _ => (this, true)
      | returned this =>
          let elapsed := now_elapsed - measurementStartTime this in
          if (elapsed >=? MEASUREMENT_DURATION_MS)%Z
          then (completeMeasurement now_score this, false)
          else (this, true)
      end
  end.

(** The closure [detect] of [startDetectionLoop].  While the measurement
    is not running it returns at once, without another frame: the loop
    ends ([None]).  Otherwise it calls the landmark detector and awaits
    it; what it does once the detector has answered, on the application
    as it is by then, is [detect_resume]. *)
Definition detect (this : SpotCheckApp)
  : option (outcome (DetectionResult binary64) -> Z -> Z -> Z ->
            SpotCheckApp -> SpotCheckApp * bool) :=
  if negb (isRunning this) then None else Some detect_resume.

(** [startDetectionLoop] makes the first call of [detect]. *)
Definition startDetectionLoop (this : SpotCheckApp)
  : option (outcome (DetectionResult binary64) -> Z -> Z -> Z ->
            SpotCheckApp -> SpotCheckApp * bool) :=
  detect this.

(** [new SpotCheckApp()] on the page [document]. *)
Definition new (document : Page) : SpotCheckApp :=
  {| page :=
       with_camera
         (fun c => {| videoContainer_hidden := true;
                      video_srcObject := video_srcObject c;
                      stopped := stopped c;
                      cameraToggleText := cameraToggleText c;
                      cameraToggleBtn_active := cameraToggleBtn_active c |})
         document;
     perclosDetector := None;
     currentState := idle;
     isRunning := false;
     isCameraVisible := false;
     measurementStartTime := 0 |}.

(** What happens to the application: the steps of [startMeasurement],
    the clicks, the landmark detector's answer to a call of [detect]
    ([frame]; the call itself changes nothing) and the frames of the
    timer. *)
Inductive event : Type :=
| click_start
| camera_granted (stream : MediaStream)
| metadata_loaded
| model_ready (t0 t1 t2 : Z)
| start_failed (message : string)
| click_cancel
| click_retry
| click_camera_toggle
| frame (detection : outcome (DetectionResult binary64))
        (now_update now_elapsed now_score : Z)
| tick (now : Z).

Definition handle (e : event) (this : SpotCheckApp) : SpotCheckApp :=
  match e with
  | click_start => startMeasurement this
  | camera_granted stream => startMeasurement_stream stream this
  | metadata_loaded => startMeasurement_metadata this
  | model_ready t0 t1 t2 => startMeasurement_ready t0 t1 t2 this
  | start_failed message => startMeasurement_catch message this
  | click_cancel => cancelMeasurement this
  | click_retry => retryMeasurement this
  | click_camera_toggle => toggleCamera this
  | frame detection now_update now_elapsed now_score =>
      fst (detect_resume detection now_update now_elapsed now_score this)
  | tick now => fst (updateTimer now this)
  end.

(** The clock values an event reads are in order, from [clock] on, and
    end at [clock']. *)
Definition in_order (clock : Z) (e : event) (clock' : Z) : Prop :=
  match e with
  | model_ready t0 t1 t2 => clock <= t0 <= t1 /\ t1 <= t2 /\ clock' = t2
  | frame _ now_update now_elapsed now_score =>
      clock <= now_update <= now_elapsed /\ now_elapsed <= now_score
      /\ clock' = now_score
  | tick now => clock <= now /\ clock' = now
  | _ => clock' = clock
  end.

(** The states of the application on the page [document], for any order
    of the events, with the last clock value read. *)
Inductive reaches (document : Page) : Z -> SpotCheckApp -> Prop :=
| reaches_new clock : reaches document clock (new document)
| reaches_event clock this e clock' :
    reaches document clock this ->
    in_order clock e clock' ->
    reaches document clock' (handle e this).

(** What the application keeps of its detector: it is one a program can
    hold, constructed before the measurement started and last updated by
    the clock value [clock] at the latest. *)
Definition consistent (clock : Z) (this : SpotCheckApp) : Prop :=
  match perclosDetector this with
  | Some perclos =>
      reachable (startTime perclos) perclos
      /\ startTime perclos <= measurementStartTime this
      /\ lastUpdateTime perclos <= clock
  | None => True
  end.

End App.

Arguments Containers : clear implicits.
Arguments Page : clear implicits.
Arguments SpotCheckApp : clear implicits.
Arguments event : clear implicits.

End SpotCheck.

(** *** A run of the application *)

Module Run.

#[local] Open Scope string_scope.

(** A page before the application is constructed. *)
Definition document : SpotCheck.Page unit :=
  {| SpotCheck.containers :=
       {| SpotCheck.idleState := "block";
          SpotCheck.measuringState := "none";
          SpotCheck.resultState := "none" |};
     SpotCheck.camera :=
       {| SpotCheck.videoContainer_hidden := false;
          SpotCheck.video_srcObject := None;
          SpotCheck.stopped := [];
          SpotCheck.cameraToggleText := SpotCheck.literal "";
          SpotCheck.cameraToggleBtn_active := false |};
     SpotCheck.timer :=
       {| SpotCheck.timerElement := SpotCheck.literal "30";
          SpotCheck.progressElement_width := SpotCheck.literal "0%" |};
     SpotCheck.shownResult :=
       {| SpotCheck.resultLevelElement := SpotCheck.literal "";
          SpotCheck.resultLevelElement_color := "";
          SpotCheck.resultScoreElement := SpotCheck.literal "";
          SpotCheck.resultScoreElement_color := "";
          SpotCheck.resultPERCLOSElement := SpotCheck.literal "" |};
     SpotCheck.infoElement := SpotCheck.literal "" |}.

(** The application after a start at clock value 0 with the camera
    granted. *)
Definition started : SpotCheck.SpotCheckApp unit :=
  SpotCheck.handle (SpotCheck.model_ready 0 0 0)
    (SpotCheck.handle SpotCheck.metadata_loaded
       (SpotCheck.handle (SpotCheck.camera_granted tt)
          (SpotCheck.handle SpotCheck.click_start
             (SpotCheck.new document)))).

(** A frame with open eyes. *)
Definition open_eyes : outcome (DetectionResult binary64) :=
  returned {| irisCenter := None; faceDetected := true;
              detected := Some (face 10 3) |}.

(** The application after that frame, 30 s later. *)
Definition finished : SpotCheck.SpotCheckApp unit :=
  match SpotCheck.startDetectionLoop started with
  | Some resume => fst (resume open_eyes 30000 30000 30000 started)
  | None => started
  end.

(** The application after a click on cancel. *)
Definition cancelled : SpotCheck.SpotCheckApp unit :=
  SpotCheck.handle SpotCheck.click_cancel started.

End Run.

(** ** Runs in binary64 *)

Example decimal_0_2 : @EAR_THRESHOLD binary64 = 0.2%float.
Proof. reflexivity. Qed.

Example round_half_up :
  map Float64.round [2.5; -2.5; 0.49999999999999994; 99.5; -0.3]%float
  = [3; -2; 0; 100; -0]%float.
Proof. reflexivity. Qed.

Example face_10_2 :
  averageEAR (N:=binary64) (face 10 2) = Some 0.2%float.
Proof. vm_compute. reflexivity. Qed.

Example face_short : averageEAR (N:=binary64) (firstn 300 (face 10 2)) = None.
Proof. vm_compute. reflexivity. Qed.

(** ** The loop of [calculateClosurePercentage] *)

Section Loop.

Context {N : JSNumber}.
Implicit Types (pre rest : list (EARRecord N)) (r : EARRecord N).

Lemma snoc_cons pre r rest : pre ++ r :: rest = (pre ++ [r]) ++ rest.
Proof. now rewrite <- app_assoc. Qed.

Lemma length_snoc pre r : List.length (pre ++ [r]) = S (List.length pre).
Proof. rewrite length_app. simpl. lia. Qed.

Lemma last_timestamp_snoc pre r :
  last_timestamp (pre ++ [r]) = Some (timestamp r).
Proof. unfold last_timestamp. now rewrite rev_unit. Qed.

Lemma timestamp_at_app pre r rest :
  timestamp_at (pre ++ r :: rest) (List.length pre) = timestamp r.
Proof.
  unfold timestamp_at.
  rewrite map_app, app_nth2; rewrite length_map; [ | lia ].
  now rewrite Nat.sub_diag.
Qed.

(** What the loop body computes for the sample that follows [pre]. *)
Lemma frameDuration_app pre r rest :
  frameDuration (pre ++ r :: rest) (List.length pre) =
  match rest with
  | next :: _ => timestamp next - timestamp r
  | [] =>
      match last_timestamp pre with
      | Some t => timestamp r - t
      | None => 33
      end
  end.
Proof.
  unfold frameDuration.
  destruct rest as [ | next rest' ].
  - destruct pre as [ | p0 pre0 _ ] using rev_ind.
    + reflexivity.
    + rewrite last_timestamp_snoc, !length_snoc.
      destruct (Z.ltb_spec (Z.of_nat (S (List.length pre0)))
                  (Z.of_nat (S (S (List.length pre0))) - 1)); [ lia | ].
      cbn [Nat.ltb Nat.leb].
      rewrite <- (length_snoc pre0 p0) at 1.
      rewrite timestamp_at_app.
      replace (S (List.length pre0) - 1)%nat with (List.length pre0) by lia.
      rewrite <- app_assoc. cbn [app].
      now rewrite timestamp_at_app.
  - rewrite length_app. cbn [List.length].
    destruct (Z.ltb_spec (Z.of_nat (List.length pre))
                (Z.of_nat (List.length pre + S (S (List.length rest'))) - 1));
      [ | lia ].
    rewrite timestamp_at_app.
    rewrite snoc_cons.
    replace (List.length pre + 1)%nat with (List.length (pre ++ [r]))
      by (rewrite length_snoc; lia).
    now rewrite timestamp_at_app.
Qed.

Lemma closure_loop_spec rest :
  forall pre acc,
    closure_loop (pre ++ rest) (List.length rest) (List.length pre) acc
    = acc + spec_closed_time (last_timestamp pre) rest.
Proof.
  induction rest as [ | r rest IH ]; intros pre acc.
  - cbn. lia.
  - cbn [List.length closure_loop spec_closed_time].
    rewrite nth_error_app2, Nat.sub_diag by lia.
    cbn [nth_error].
    rewrite frameDuration_app.
    rewrite snoc_cons, <- length_snoc with (r := r).
    rewrite IH, last_timestamp_snoc.
    destruct (ear r <? EAR_THRESHOLD)%js; lia.
Qed.

Lemma closedTime_spec (earRecords : list (EARRecord N)) :
  closedTime earRecords = spec_closed_time None earRecords.
Proof.
  unfold closedTime.
  now rewrite (closure_loop_spec earRecords []).
Qed.

(** In chronological order no frame has a negative duration. *)
Lemma spec_closed_time_nonneg rest :
  forall previous,
    chronological rest ->
    (forall t r, previous = Some t -> In r rest -> t <= timestamp r) ->
    0 <= spec_closed_time previous rest.
Proof.
  induction rest as [ | r rest IH ]; intros previous Hs Hp.
  - cbn. lia.
  - cbn [spec_closed_time].
    unfold chronological in Hs. cbn [map] in Hs.
    apply StronglySorted_inv in Hs. destruct Hs as [Hs Hr].
    rewrite Forall_forall in Hr.
    assert (0 <= spec_closed_time (Some (timestamp r)) rest) as Hrest.
    { apply IH; [ exact Hs | ].
      intros t r' [= <-] Hin. apply Hr, in_map, Hin. }
    assert (0 <= match rest with
                 | next :: _ => timestamp next - timestamp r
                 | [] => match previous with
                         | Some t => timestamp r - t
                         | None => 33
                         end
                 end) as Hd.
    { destruct rest as [ | next rest' ].
      - destruct previous as [ t | ]; [ | lia ].
        specialize (Hp t r eq_refl (or_introl eq_refl)). lia.
      - specialize (Hr (timestamp next) (or_introl eq_refl)). lia. }
    destruct (ear r <? EAR_THRESHOLD)%js; lia.
Qed.

Lemma closedTime_nonneg (earRecords : list (EARRecord N)) :
  chronological earRecords -> 0 <= closedTime earRecords.
Proof.
  intros Hs. rewrite closedTime_spec.
  apply spec_closed_time_nonneg; [ exact Hs | discriminate ].
Qed.

End Loop.

(** ** One sample's ratio and the closed time *)

Section OneSample.

Context {N : JSNumber}.
Implicit Types (pre rest : list (EARRecord N)) (r : EARRecord N).








End OneSample.

(** ** The history *)

Section History.

Context {N : JSNumber}.
Implicit Types (this : PERCLOSDetector N) (r : EARRecord N).

Lemma chronological_filter (f : EARRecord N -> bool) earRecords :
  chronological earRecords -> chronological (filter f earRecords).
Proof.
  unfold chronological.
  induction earRecords as [ | r l IH ]; intros Hs; [ exact Hs | ].
  cbn [map] in Hs. apply StronglySorted_inv in Hs. destruct Hs as [Hs Hr].
  cbn [filter]. destruct (f r); [ | now apply IH ].
  cbn [map]. constructor; [ now apply IH | ].
  rewrite Forall_forall in *. intros t Ht.
  apply in_map_iff in Ht. destruct Ht as (r' & <- & Hin).
  apply filter_In in Hin. apply Hr, in_map, Hin.
Qed.

Lemma chronological_snoc earRecords r :
  chronological earRecords ->
  (forall r', In r' earRecords -> timestamp r' <= timestamp r) ->
  chronological (earRecords ++ [r]).
Proof.
  unfold chronological.
  induction earRecords as [ | r0 l IH ]; intros Hs Hle.
  - cbn. constructor; constructor.
  - cbn [map app] in *. apply StronglySorted_inv in Hs.
    destruct Hs as [Hs Hr].
    constructor; [ apply IH; [ exact Hs | intros; apply Hle; now right ] | ].
    rewrite map_app. apply Forall_app. split; [ exact Hr | ].
    constructor; [ | constructor ]. apply Hle. now left.
Qed.

Lemma update_inv keypoints now this this' :
  update keypoints now this = Some this' ->
  exists avgEAR,
    averageEAR keypoints = Some avgEAR /\
    this' = record_sample avgEAR now this.
Proof.
  unfold update. destruct (averageEAR keypoints) as [ avgEAR | ];
    [ | discriminate ].
  intros [= <-]. now exists avgEAR.
Qed.

Lemma record_sample_history avgEAR now this r :
  In r (earHistory (record_sample avgEAR now this)) <->
  (In r (earHistory this) \/ r = sample now avgEAR) /\
  now - 2 * 60000 < timestamp r.
Proof.
  unfold record_sample, cleanOldData, WINDOW_MS. cbn [earHistory].
  rewrite filter_In, in_app_iff, Z.ltb_lt. cbn [In]. unfold sample.
  intuition (subst; auto; lia).
Qed.

Lemma getRecentEARs_In now this r :
  In r (getRecentEARs now this) <->
  In r (earHistory this) /\ now - 60000 < timestamp r.
Proof.
  unfold getRecentEARs, WINDOW_MS. now rewrite filter_In, Z.ltb_lt.
Qed.

Lemma reachable_well_formed t0 this :
  reachable t0 this -> well_formed t0 this.
Proof.
  induction 1 as [ | this keypoints now this' _ IH Hnow Hup ].
  - split.
    + reflexivity.
    + cbn. lia.
    + constructor.
    + intros r [].
  - destruct IH as [Hs Hl Ho Hr].
    apply update_inv in Hup. destruct Hup as (avgEAR & _ & ->).
    split.
    + exact Hs.
    + cbn. lia.
    + unfold record_sample, cleanOldData. cbn [earHistory].
      apply chronological_filter, chronological_snoc; [ exact Ho | ].
      intros r' Hin. cbn. apply Hr in Hin. lia.
    + intros r Hin. apply record_sample_history in Hin.
      destruct Hin as [[Hin | ->] _].
      * apply Hr in Hin. cbn. lia.
      * cbn. lia.
Qed.

Lemma recent_chronological now this :
  chronological (earHistory this) ->
  chronological (getRecentEARs now this).
Proof. apply chronological_filter. Qed.

End History.

(** *** The closed time at the instant of construction *)

Section AtStart.

Context {N : JSNumber}.

Lemma spec_closed_time_same_after (t : Z) (samples : list (EARRecord N)) :
  (forall r, In r samples -> timestamp r = t) ->
  spec_closed_time (Some t) samples = 0.
Proof.
  induction samples as [ | r rest IH ]; intros Hsame; [ reflexivity | ].
  cbn [spec_closed_time].
  rewrite (Hsame r (or_introl eq_refl)), IH
    by (intros r' Hin; apply Hsame; now right).
  destruct rest as [ | next rest' ].
  - destruct (ear r <? EAR_THRESHOLD)%js; lia.
  - rewrite (Hsame next (or_intror (or_introl eq_refl))).
    destruct (ear r <? EAR_THRESHOLD)%js; lia.
Qed.

Lemma spec_closed_time_same (t : Z) (samples : list (EARRecord N)) :
  (forall r, In r samples -> timestamp r = t) ->
  spec_closed_time None samples = 0 \/ spec_closed_time None samples = 33.
Proof.
  destruct samples as [ | r rest ]; intros Hsame; [ now left | ].
  cbn [spec_closed_time].
  rewrite (Hsame r (or_introl eq_refl)), spec_closed_time_same_after
    by (intros r' Hin; apply Hsame; now right).
  destruct rest as [ | next rest' ].
  - destruct (ear r <? EAR_THRESHOLD)%js; [ now right | now left ].
  - rewrite (Hsame next (or_intror (or_introl eq_refl))).
    left. destruct (ear r <? EAR_THRESHOLD)%js; lia.
Qed.

(** While the clock stands at the instant of construction every sample
    has that timestamp, and the closed time is 0, or 33 for a single closed
    sample. *)
Lemma closedTime_at_start (t0 : Z) (this : PERCLOSDetector N) :
  reachable t0 this -> lastUpdateTime this <= t0 ->
  closedTime (getRecentEARs t0 this) = 0
  \/ closedTime (getRecentEARs t0 this) = 33.
Proof.
  intros Hreach Hlast. rewrite closedTime_spec.
  apply (spec_closed_time_same t0). intros r Hin.
  apply getRecentEARs_In in Hin. destruct Hin as [Hin _].
  destruct (reachable_well_formed t0 this Hreach) as [_ _ _ Hrange].
  specialize (Hrange r Hin). lia.
Qed.

End AtStart.

(** C5.  After a call [update(keypoints)] made at clock value [now], with
    W = 60000 ms: the history holds exactly the samples it held before and
    the new one whose timestamp is above [now - 2W], so none at or below
    [now - 2W] stays and none above it is dropped; and the samples
    [getRecentEARs] hands to the scoring at clock value [t] are those of
    the history with a timestamp above [t - W]. *)
Theorem C5_update_prunes_history
        (N : JSNumber) (this this' : PERCLOSDetector N)
        (keypoints : list (Keypoint N)) (now : Z) :
  update keypoints now this = Some this' ->
  exists avgEAR,
    averageEAR keypoints = Some avgEAR /\
    WINDOW_MS = 60000 /\
    (forall r, In r (earHistory this') <->
               (In r (earHistory this) \/ r = sample now avgEAR) /\
               now - 2 * WINDOW_MS < timestamp r) /\
    (forall t r, In r (getRecentEARs t this') <->
                 In r (earHistory this') /\ t - WINDOW_MS < timestamp r).
Proof.
  intros Hup. apply update_inv in Hup. destruct Hup as (avgEAR & He & ->).
  exists avgEAR.
  split; [ exact He | ]. split; [ reflexivity | ]. split.
  - intros r. apply record_sample_history.
  - intros t r. apply getRecentEARs_In.
Qed.

Lemma calculatePERCLOS_recent
      (N : JSNumber) (this : PERCLOSDetector N) (now : Z) :
  getRecentEARs now this <> [] ->
  calculatePERCLOS now this =
  calculateClosurePercentage (getRecentEARs now this)
                             (Z.min (now - startTime this) WINDOW_MS).
Proof.
  intros Hne. unfold calculatePERCLOS.
  destruct (getRecentEARs now this) as [ | r l ]; [ contradiction | ].
  cbn [List.length Nat.eqb].
  now destruct (Z.min (now - startTime this) WINDOW_MS <? 30000).
Qed.

(** C10.  The test [actualWindowMs < 30000] of [calculatePERCLOS] decides
    nothing: for every history and every clock value, on either side of the
    test, the result is [calculateClosurePercentage] of the recent samples
    and [min(now - startTime, WINDOW_MS)].  (The equation holds without
    recent samples too: both functions then return 0.) *)
Theorem C10_short_window_branch_is_vacuous
        (N : JSNumber) (this : PERCLOSDetector N) (now : Z) :
  calculatePERCLOS now this =
  calculateClosurePercentage (getRecentEARs now this)
                             (Z.min (now - startTime this) WINDOW_MS).
Proof.
  unfold calculatePERCLOS.
  destruct (getRecentEARs now this) as [ | r l ] eqn:Hrecent.
  - reflexivity.
  - cbn [List.length Nat.eqb].
    destruct (Z.min (now - startTime this) WINDOW_MS <? 30000); reflexivity.
Qed.

(** ** Exact arithmetic

    The score mapping and PERCLOS on [exact], where a finite result is the
    rational the formula denotes. *)

Section ExactArithmetic.

#[local] Open Scope Q_scope.

#[local] Abbreviation xnum := Exact.xnum.
#[local] Abbreviation NaN := Exact.NaN.
#[local] Abbreviation PosInf := Exact.PosInf.
#[local] Abbreviation NegInf := Exact.NegInf.
#[local] Abbreviation Fin := Exact.Fin.
#[local] Abbreviation Qltb := Exact.Qltb.
#[local] Abbreviation Qis0 := Exact.Qis0.

Lemma Qltb_lt p q : Qltb p q = true <-> p < q.
Proof.
  unfold Exact.Qltb. rewrite negb_true_iff, <- not_true_iff_false, Qle_bool_iff.
  split; [ apply Qnot_le_lt | apply Qlt_not_le ].
Qed.

Lemma Qltb_ge p q : Qltb p q = false <-> q <= p.
Proof. unfold Exact.Qltb. now rewrite negb_false_iff, Qle_bool_iff. Qed.

Lemma Qleb_gt p q : Qle_bool p q = false <-> q < p.
Proof.
  rewrite <- not_true_iff_false, Qle_bool_iff.
  split; [ apply Qnot_le_lt | apply Qlt_not_le ].
Qed.

Lemma Qis0_eq q : Qis0 q = true <-> q == 0.
Proof. apply Qeq_bool_iff. Qed.

Lemma Qis0_neq q : Qis0 q = false <-> ~ q == 0.
Proof.
  unfold Exact.Qis0. rewrite <- not_true_iff_false, Qeq_bool_iff. tauto.
Qed.

(** Unfolds the operations of [exact] down to the rationals. *)
Ltac to_rationals :=
  cbv [score_of score_fatigue score_mild score_normal
       calculateClosurePercentage
       FATIGUE_PERCLOS NORMAL_PERCLOS EAR_THRESHOLD decimal
       Math_max Math_round add sub mul
       div ltb geb of_Z exact
       Exact.sub Exact.add Exact.neg Exact.mul Exact.div Exact.max
       Exact.ltb Exact.geb Exact.of_Z Exact.round Exact.inf_times].

(** Settles a goal on rationals from the hypotheses on rationals. *)
Ltac rationals :=
  repeat match goal with
         | H : Qle_bool _ _ = true |- _ => apply Qle_bool_iff in H
         | H : Qle_bool _ _ = false |- _ => apply Qleb_gt in H
         | H : Qltb _ _ = true |- _ => apply Qltb_lt in H
         | H : Qltb _ _ = false |- _ => apply Qltb_ge in H
         | H : Qis0 _ = true |- _ => apply Qis0_eq in H
         | H : Qis0 _ = false |- _ => apply Qis0_neq in H
         | H : context [Qred _] |- _ => rewrite !Qred_correct in H
         end;
  rewrite ?Qred_correct; unfold inject_Z in *; lra.

Lemma round_between_0_100 (X : Q) :
  0 <= X -> X <= 100 -> integer_between 0 100 (Exact.round (Fin X)).
Proof.
  intros Hlo Hhi. exists (Qfloor (X + (1 # 2))). split; [ reflexivity | ].
  split.
  - apply (Qfloor_resp_le 0 (X + (1 # 2))). lra.
  - apply (Qfloor_resp_le (X + (1 # 2)) (100 + (1 # 2))). lra.
Qed.

(** The score of a finite PERCLOS that is not negative. *)
Lemma score_of_nonneg (P : Q) :
  0 <= P -> integer_between 0 100 (score (score_of (N:=exact) (Fin P))).
Proof.
  intros HP. to_rationals.
  destruct (Qle_bool (inject_Z 20) P) eqn:H20; cbn [score].
  - match goal with
    | |- context [Qltb ?a ?b] => destruct (Qltb a b) eqn:Hm
    end.
    + apply round_between_0_100; rationals.
    + apply round_between_0_100; rationals.
  - destruct (Qle_bool (inject_Z 15) P) eqn:H15; cbn [score].
    + apply round_between_0_100; rationals.
    + change (Qis0 (inject_Z 15)) with false. cbv iota.
      change (Qred (inject_Z 20 / inject_Z 15)) with (4 # 3).
      apply round_between_0_100; rationals.
Qed.

(** The score of a PERCLOS of 45 or more, infinite or not. *)
Lemma score_of_saturates (p : xnum) :
  Exact.geb p (Exact.of_Z 45) = true ->
  score_fatigue (N:=exact) p = of_Z 0 /\
  score_of (N:=exact) p
  = {| score := of_Z 0; level := level_fatigue;
       details := details (score_of (N:=exact) p) |}.
Proof.
  destruct p as [ | | | q ]; try discriminate.
  - intros _. split; reflexivity.
  - cbv [Exact.geb Exact.of_Z]. intros H45.
    assert (Qle_bool (inject_Z 20) q = true) as H20
      by (apply Qle_bool_iff; rationals).
    assert (score_fatigue (N:=exact) (Fin q) = of_Z 0) as Hs.
    { to_rationals.
      match goal with
      | |- context [Qltb ?a ?b] => destruct (Qltb a b) eqn:Hm
      end; [ exfalso; rationals | reflexivity ]. }
    split; [ exact Hs | ].
    unfold score_of.
    assert (@geb exact (Fin q) FATIGUE_PERCLOS = true) as ->
      by exact H20.
    rewrite Hs. reflexivity.
Qed.

(** *** PERCLOS over a window that has a length *)

Lemma closure_percentage_value (l : list (EARRecord exact)) (w : Z) :
  l <> [] -> (0 < w)%Z ->
  calculateClosurePercentage l w
  = Fin (Qred (Qred (inject_Z (closedTime l) / inject_Z w) * inject_Z 100)).
Proof.
  intros Hl Hw. destruct l as [ | r l ]; [ contradiction | ].
  unfold calculateClosurePercentage. cbn [List.length Nat.eqb].
  to_rationals.
  destruct (Qis0 (inject_Z w)) eqn:H0; [ | reflexivity ].
  rewrite (Zlt_Qlt 0 w) in Hw. generalize dependent (inject_Z w).
  intros W HW H0. exfalso. rationals.
Qed.

Lemma closure_percentage_nonneg (l : list (EARRecord exact)) (w : Z) :
  l <> [] -> (0 < w)%Z -> (0 <= closedTime l)%Z ->
  exists P, calculateClosurePercentage l w = Fin P /\ 0 <= P.
Proof.
  intros Hl Hw Hc. rewrite closure_percentage_value by assumption.
  eexists. split; [ reflexivity | ].
  rewrite !Qred_correct.
  rewrite (Zlt_Qlt 0 w) in Hw. rewrite (Zle_Qle 0) in Hc.
  generalize dependent (inject_Z (closedTime l)).
  generalize dependent (inject_Z w). intros W HW c Hc.
  assert (0 <= c / W) as Hq by (apply Qle_shift_div_l; rationals).
  generalize dependent (c / W). intros. rationals.
Qed.

(** *** PERCLOS over a window of length 0 *)

Lemma closure_percentage_zero_window (l : list (EARRecord exact)) :
  l <> [] ->
  calculateClosurePercentage l 0 =
  if (0 <? closedTime l)%Z then PosInf
  else if (closedTime l =? 0)%Z then NaN
  else NegInf.
Proof.
  intros Hl. destruct l as [ | r l ]; [ contradiction | ].
  unfold calculateClosurePercentage. cbn [List.length Nat.eqb].
  generalize (closedTime (r :: l)). intros c.
  to_rationals. change (Qis0 (inject_Z 0)) with true. cbv iota.
  destruct (Z.ltb_spec 0 c) as [Hc | Hc].
  - rewrite (Zlt_Qlt 0 c) in Hc. generalize dependent (inject_Z c).
    intros C HC.
    destruct (Qis0 C) eqn:H0; [ exfalso; rationals | ].
    destruct (Qltb 0 C) eqn:H1;
      [ reflexivity | exfalso; rationals ].
  - destruct (Z.eqb_spec c 0) as [-> | Hne]; [ reflexivity | ].
    assert (c < 0)%Z as Hneg by lia. rewrite (Zlt_Qlt c 0) in Hneg.
    clear Hc Hne. generalize dependent (inject_Z c). intros C HC.
    destruct (Qis0 C) eqn:H0; [ exfalso; rationals | ].
    destruct (Qltb 0 C) eqn:H1;
      [ exfalso; rationals | reflexivity ].
Qed.

(** *** The score of a detector a program can hold *)

Lemma recent_closedTime_nonneg t0 (this : PERCLOSDetector exact) now :
  reachable t0 this -> (0 <= closedTime (getRecentEARs now this))%Z.
Proof.
  intros Hr. apply closedTime_nonneg, recent_chronological.
  now destruct (reachable_well_formed t0 this Hr).
Qed.

(** Once the clock has moved on from the instant of construction, the
    score is an integer from 0 to 100. *)
Lemma score_in_range_after_start t0 (this : PERCLOSDetector exact) now :
  reachable t0 this -> (t0 < now)%Z ->
  integer_between 0 100 (score (getScore now this)).
Proof.
  intros Hr Hnow. unfold getScore.
  destruct (getRecentEARs now this) as [ | r l ] eqn:Hrecent.
  - unfold calculatePERCLOS. rewrite Hrecent. cbn [List.length Nat.eqb].
    apply (score_of_nonneg 0). lra.
  - rewrite calculatePERCLOS_recent by (rewrite Hrecent; discriminate).
    destruct (closure_percentage_nonneg (getRecentEARs now this)
                (Z.min (now - startTime this) WINDOW_MS))
      as (P & -> & HP).
    + rewrite Hrecent. discriminate.
    + destruct (reachable_well_formed t0 this Hr) as [-> _ _ _].
      unfold WINDOW_MS. lia.
    + now apply recent_closedTime_nonneg with (t0 := t0).
    + now apply score_of_nonneg.
Qed.

(** At the instant of construction, with a recent sample. *)
Lemma score_at_start t0 (this : PERCLOSDetector exact) :
  reachable t0 this -> getRecentEARs t0 this <> [] ->
  getScore t0 this =
  if (0 <? closedTime (getRecentEARs t0 this))%Z
  then {| score := of_Z 0; level := level_fatigue; details := PosInf |}
  else {| score := NaN; level := level_normal; details := NaN |}.
Proof.
  intros Hr Hne. unfold getScore.
  rewrite calculatePERCLOS_recent by assumption.
  destruct (reachable_well_formed t0 this Hr) as [-> _ _ _].
  rewrite Z.sub_diag. change (Z.min 0 WINDOW_MS) with 0%Z.
  rewrite closure_percentage_zero_window by assumption.
  pose proof (recent_closedTime_nonneg t0 this t0 Hr) as Hc.
  destruct (Z.ltb_spec 0 (closedTime (getRecentEARs t0 this)));
    [ reflexivity | ].
  destruct (Z.eqb_spec (closedTime (getRecentEARs t0 this)) 0);
    [ reflexivity | lia ].
Qed.

(** Without a recent sample the score is 100 in exact arithmetic too. *)
Lemma no_recent_sample_exact (this : PERCLOSDetector exact) (now : Z) :
  getRecentEARs now this = [] ->
  getScore now this
  = {| score := of_Z 100; level := level_normal; details := of_Z 0 |}.
Proof.
  intros Hrecent. unfold getScore, calculatePERCLOS. now rewrite Hrecent.
Qed.

End ExactArithmetic.

(** ** Rounding in binary64, against a representable bound

    The operations of the kernel's floats are specified by [FloatAxioms] as
    the functions of [SpecFloat] on sign, mantissa and exponent.  This
    section follows a value through their rounding ([binary_round_aux]):
    the value is cut to 53 digits by shifts to the right and moved up by
    one unit at most, so it stays at or above every double it was at or
    above. *)

Section Rounding64.

Lemma fexp_eq x : fexp prec emax x = Z.max (x - 53) (-1074).
Proof. reflexivity. Qed.

Lemma digits2_pos_bounds (m : positive) :
  2 ^ (Zpos (digits2_pos m) - 1) <= Zpos m < 2 ^ Zpos (digits2_pos m).
Proof.
  induction m as [ p IH | p IH | ]; cbn [digits2_pos].
  - rewrite Pos2Z.inj_succ, Z.pow_succ_r by lia.
    replace (Z.succ (Zpos (digits2_pos p)) - 1)
      with (Z.succ (Zpos (digits2_pos p) - 1)) by lia.
    rewrite Z.pow_succ_r by lia. lia.
  - rewrite Pos2Z.inj_succ, Z.pow_succ_r by lia.
    replace (Z.succ (Zpos (digits2_pos p)) - 1)
      with (Z.succ (Zpos (digits2_pos p) - 1)) by lia.
    rewrite Z.pow_succ_r by lia. lia.
  - cbn. lia.
Qed.

Lemma valid_finite s m e :
  valid_binary (S754_finite s m e) = true -> canonical m e /\ e <= 971.
Proof.
  cbn [SpecFloat.valid_binary]. unfold bounded, canonical_mantissa, canonical.
  rewrite andb_true_iff, Z.eqb_eq, Z.leb_le. intros [H1 H2].
  split; [ exact H1 | exact H2 ].
Qed.

Lemma canonical_bounds m e :
  canonical m e -> -1074 <= e /\ Zpos (digits2_pos m) <= 53.
Proof. unfold canonical. rewrite fexp_eq. lia. Qed.

Lemma pow2_pos k : 0 <= k -> 0 < 2 ^ k.
Proof. intros. apply Z.pow_pos_nonneg; lia. Qed.

(** A number of smaller magnitude is smaller. *)
Lemma scaled_lt_of_magnitude (m1 m2 : positive) (e1 e2 : Z) :
  -2200 <= e1 -> -2200 <= e2 ->
  Zpos (digits2_pos m1) + e1 < Zpos (digits2_pos m2) + e2 ->
  scaled (Zpos m1) e1 < scaled (Zpos m2) e2.
Proof.
  intros He1 He2 Hmag. unfold scaled.
  destruct (digits2_pos_bounds m1) as [_ H1].
  destruct (digits2_pos_bounds m2) as [H2 _].
  set (d1 := Zpos (digits2_pos m1)) in *.
  set (d2 := Zpos (digits2_pos m2)) in *.
  assert (0 < d1) as Hd1 by (subst d1; lia).
  assert (0 < d2) as Hd2 by (subst d2; lia).
  assert (2 ^ d1 * 2 ^ (e1 + 2200) = 2 ^ (d1 + e1 + 2200)) as Ha
    by (rewrite <- Z.pow_add_r by lia; f_equal; lia).
  assert (2 ^ (d2 - 1) * 2 ^ (e2 + 2200) = 2 ^ (d2 - 1 + e2 + 2200)) as Hb
    by (rewrite <- Z.pow_add_r by lia; f_equal; lia).
  assert (2 ^ (d1 + e1 + 2200) <= 2 ^ (d2 - 1 + e2 + 2200)) as Hc
    by (apply Z.pow_le_mono_r; lia).
  pose proof (pow2_pos (e1 + 2200) ltac:(lia)) as Hp1.
  pose proof (pow2_pos (e2 + 2200) ltac:(lia)) as Hp2.
  nia.
Qed.

(** On canonical representations the comparison of binary64 is the
    comparison of the values. *)
Lemma SFcompare_scaled (m1 m2 : positive) (e1 e2 : Z) :
  canonical m1 e1 -> canonical m2 e2 ->
  SFcompare (S754_finite false m1 e1) (S754_finite false m2 e2)
  = Some (scaled (Zpos m1) e1 ?= scaled (Zpos m2) e2).
Proof.
  intros H1 H2. cbn [SFcompare]. f_equal.
  pose proof (canonical_bounds m1 e1 H1) as [Hb1 Hd1].
  pose proof (canonical_bounds m2 e2 H2) as [Hb2 Hd2].
  unfold canonical in H1, H2. rewrite fexp_eq in H1, H2.
  destruct (Z.compare_spec e1 e2) as [-> | Hlt | Hgt].
  - unfold scaled.
    rewrite <- Zmult_compare_compat_r
      by (apply Z.lt_gt, pow2_pos; lia).
    reflexivity.
  - symmetry. apply Z.compare_lt_iff.
    apply scaled_lt_of_magnitude; lia.
  - symmetry. apply Z.compare_gt_iff.
    apply scaled_lt_of_magnitude; lia.
Qed.

(** *** Shifting right *)

Lemma shr_1_m mrs : 0 <= shr_m mrs -> shr_m (shr_1 mrs) = shr_m mrs / 2.
Proof.
  destruct mrs as [ m r s ]. cbn [shr_m]. intros Hm.
  destruct m as [ | [ p | p | ] | p ]; cbn [shr_1 shr_m]; try lia.
  - reflexivity.
  - rewrite (Pos2Z.inj_xI p). apply Z.div_unique with 1; lia.
  - rewrite (Pos2Z.inj_xO p). apply Z.div_unique with 0; lia.
  - reflexivity.
Qed.

Lemma pow2_xO p : 2 ^ Zpos p~0 = 2 ^ Zpos p * 2 ^ Zpos p.
Proof.
  rewrite (Pos2Z.inj_xO p).
  replace (2 * Zpos p) with (Zpos p + Zpos p) by lia.
  apply Z.pow_add_r; lia.
Qed.

Lemma pow2_xI p : 2 ^ Zpos p~1 = 2 * (2 ^ Zpos p * 2 ^ Zpos p).
Proof.
  rewrite (Pos2Z.inj_xI p).
  replace (2 * Zpos p + 1) with (Z.succ (Zpos p + Zpos p)) by lia.
  rewrite Z.pow_succ_r, Z.pow_add_r by lia. reflexivity.
Qed.

Lemma iter_pos_shr_1 (p : positive) :
  forall mrs, 0 <= shr_m mrs ->
              shr_m (iter_pos shr_1 p mrs) = shr_m mrs / 2 ^ Zpos p.
Proof.
  induction p as [ p IH | p IH | ]; intros mrs Hm; cbn [iter_pos].
  - assert (0 <= shr_m (shr_1 mrs)) as H1
        by (rewrite shr_1_m by assumption; apply Z.div_pos; lia).
    assert (0 <= shr_m (iter_pos shr_1 p (shr_1 mrs))) as H2
        by (rewrite IH by assumption; apply Z.div_pos;
            [ lia | apply pow2_pos; lia ]).
    rewrite IH, IH, shr_1_m by assumption.
    pose proof (pow2_pos (Zpos p) ltac:(lia)).
    rewrite !Z.div_div, pow2_xI by lia. f_equal; lia.
  - assert (0 <= shr_m (iter_pos shr_1 p mrs)) as H2
        by (rewrite IH by assumption; apply Z.div_pos;
            [ lia | apply pow2_pos; lia ]).
    rewrite IH, IH by assumption.
    pose proof (pow2_pos (Zpos p) ltac:(lia)).
    rewrite !Z.div_div, pow2_xO by lia. reflexivity.
  - rewrite shr_1_m by assumption. reflexivity.
Qed.

Lemma shr_record_of_loc_m m l : shr_m (shr_record_of_loc m l) = m.
Proof. now destruct l as [ | [ | | ] ]. Qed.

(** Cutting a mantissa down to the precision of binary64 does not take the
    value below a representable number that it is not below. *)
Lemma floor_ge (mx mc : positive) (e ec : Z) :
  canonical mc ec -> -2200 <= e ->
  scaled (Zpos mc) ec <= scaled (Zpos mx) e ->
  let e' := fexp prec emax (Zpos (digits2_pos mx) + e) in
  0 < e' - e ->
  scaled (Zpos mc) ec <= scaled (Zpos mx / 2 ^ (e' - e)) e'.
Proof.
  intros Hc He Hle e' Hn.
  pose proof (canonical_bounds mc ec Hc) as [Hbc Hdc].
  unfold canonical in Hc. rewrite fexp_eq in Hc.
  subst e'. rewrite fexp_eq in *.
  set (d := Zpos (digits2_pos mx)) in *.
  set (dc := Zpos (digits2_pos mc)) in *.
  set (e' := Z.max (d + e - 53) (-1074)) in *.
  assert (dc + ec <= d + e) as Hmag.
  { destruct (Z_lt_le_dec (d + e) (dc + ec)) as [Hlt | Hge]; [ | exact Hge ].
    pose proof (scaled_lt_of_magnitude mx mc e ec He ltac:(lia) Hlt). lia. }
  pose proof (pow2_pos (e' - e) ltac:(lia)) as Hpn.
  pose proof (pow2_pos (e + 2200) ltac:(lia)) as Hpe.
  pose proof (pow2_pos (e' + 2200) ltac:(lia)) as Hpe'.
  assert (2 ^ (e' + 2200) = 2 ^ (e' - e) * 2 ^ (e + 2200)) as Hsplit
      by (rewrite <- Z.pow_add_r by lia; f_equal; lia).
  unfold scaled in *.
  destruct (Z.eq_dec e' ec) as [Heq | Hne].
  - (* the same exponent: the bound is on the grid *)
    assert (Zpos mc <= Zpos mx / 2 ^ (e' - e)) as Hq.
    { apply Z.div_le_lower_bound; [ exact Hpn | ].
      rewrite <- Heq, Hsplit in Hle. nia. }
    rewrite <- Heq. nia.
  - (* a higher exponent: the bound is below the binade *)
    assert (ec < e') as Hlt by lia.
    assert (e' = d + e - 53) as He' by lia.
    destruct (digits2_pos_bounds mx) as [Hlo _]. fold d in Hlo.
    destruct (digits2_pos_bounds mc) as [_ Hhi]. fold dc in Hhi.
    assert (2 ^ 52 <= Zpos mx / 2 ^ (e' - e)) as Hq.
    { apply Z.div_le_lower_bound; [ exact Hpn | ].
      rewrite <- Z.pow_add_r by lia.
      replace (e' - e + 52) with (d - 1) by lia. exact Hlo. }
    assert (2 ^ dc * 2 ^ (ec + 2200) <= 2 ^ 52 * 2 ^ (e' + 2200)) as Hb.
    { rewrite <- !Z.pow_add_r by lia. apply Z.pow_le_mono_r; lia. }
    pose proof (pow2_pos (ec + 2200) ltac:(lia)) as Hpc.
    nia.
Qed.

Lemma shr_fexp_ge (mx mc : positive) (e ec : Z) (l : location) :
  canonical mc ec -> -2200 <= e ->
  scaled (Zpos mc) ec <= scaled (Zpos mx) e ->
  scaled (Zpos mc) ec
  <= scaled (shr_m (fst (shr_fexp prec emax (Zpos mx) e l)))
            (snd (shr_fexp prec emax (Zpos mx) e l))
  /\ -2200 <= snd (shr_fexp prec emax (Zpos mx) e l).
Proof.
  intros Hc He Hle. unfold shr_fexp, shr. cbn [Zdigits2].
  pose proof (floor_ge mx mc e ec Hc He Hle) as Hfloor. cbv zeta in Hfloor.
  set (e' := fexp prec emax (Zpos (digits2_pos mx) + e)) in *.
  destruct (e' - e) as [ | n | n ] eqn:Hn; cbn [fst snd].
  - rewrite shr_record_of_loc_m. split; [ exact Hle | exact He ].
  - rewrite iter_pos_shr_1, shr_record_of_loc_m
      by (rewrite shr_record_of_loc_m; lia).
    replace (e + Zpos n) with e' by lia.
    split; [ apply Hfloor; lia | lia ].
  - rewrite shr_record_of_loc_m. split; [ exact Hle | exact He ].
Qed.

Lemma round_nearest_even_ge m l : m <= round_nearest_even m l.
Proof.
  destruct l as [ | [ | | ] ]; cbn [round_nearest_even]; try lia.
  destruct (Z.even m); lia.
Qed.

Lemma scaled_le_mono m m' e :
  -2200 <= e -> m <= m' -> scaled m e <= scaled m' e.
Proof.
  intros He Hm. unfold scaled.
  pose proof (pow2_pos (e + 2200) ltac:(lia)). nia.
Qed.

Lemma scaled_pos_inv m e : -2200 <= e -> 0 < scaled m e -> 0 < m.
Proof.
  intros He Hs. unfold scaled in Hs.
  pose proof (pow2_pos (e + 2200) ltac:(lia)). nia.
Qed.

(** Rounding to nearest does not take a value below a representable number
    that it is not below: the result is that number at least, or
    infinite. *)
Lemma binary_round_aux_ge (sx : bool) (mx mc : positive) (ex ec : Z)
      (lx : location) :
  canonical mc ec -> -2200 <= ex ->
  scaled (Zpos mc) ec <= scaled (Zpos mx) ex ->
  match binary_round_aux prec emax sx (Zpos mx) ex lx with
  | S754_finite s m e => s = sx /\ scaled (Zpos mc) ec <= scaled (Zpos m) e
  | S754_infinity s => s = sx
  | _ => False
  end.
Proof.
  intros Hc He Hle. unfold binary_round_aux.
  destruct (shr_fexp_ge mx mc ex ec lx Hc He Hle) as [H1 He1].
  destruct (shr_fexp prec emax (Zpos mx) ex lx) as [mrs' e'].
  cbn [fst snd] in H1, He1.
  assert (0 < scaled (Zpos mc) ec) as Hpos
      by (unfold scaled; pose proof (canonical_bounds mc ec Hc);
          pose proof (pow2_pos (ec + 2200) ltac:(lia)); nia).
  pose proof (round_nearest_even_ge (shr_m mrs') (loc_of_shr_record mrs'))
    as Hr.
  set (m2 := round_nearest_even (shr_m mrs') (loc_of_shr_record mrs')) in *.
  assert (scaled (Zpos mc) ec <= scaled m2 e') as H2
      by (pose proof (scaled_le_mono _ _ e' He1 Hr); lia).
  assert (0 < m2) as Hm2 by (apply (scaled_pos_inv m2 e'); lia).
  destruct m2 as [ | p2 | p2 ]; try lia.
  destruct (shr_fexp_ge p2 mc e' ec loc_Exact Hc He1 H2) as [H3 He3].
  destruct (shr_fexp prec emax (Zpos p2) e' loc_Exact) as [mrs'' e''].
  cbn [fst snd] in H3, He3.
  assert (0 < shr_m mrs'') as Hm3 by (apply (scaled_pos_inv _ e''); lia).
  destruct (shr_m mrs'') as [ | p3 | p3 ]; try lia.
  destruct (e'' <=? emax - prec);
    [ split; [ reflexivity | exact H3 ] | reflexivity ].
Qed.

(** *** Aligning two mantissas *)

Lemma iter_xO (m d : positive) : Zpos (Pos.iter xO m d) = Zpos m * 2 ^ Zpos d.
Proof.
  induction d as [ | d IH ] using Pos.peano_ind.
  - change (Pos.iter xO m 1) with (xO m).
    rewrite (Pos2Z.inj_xO m). change (2 ^ 1) with 2. lia.
  - rewrite Pos.iter_succ, (Pos2Z.inj_xO (Pos.iter xO m d)), IH.
    rewrite Pos2Z.inj_succ, Z.pow_succ_r by lia. lia.
Qed.

Lemma shl_align_scaled (mx : positive) (ex ex' : Z) :
  -2200 <= ex -> -2200 <= ex' ->
  scaled (Zpos (fst (shl_align mx ex ex'))) (snd (shl_align mx ex ex'))
  = scaled (Zpos mx) ex
  /\ -2200 <= snd (shl_align mx ex ex')
  /\ snd (shl_align mx ex ex') = Z.min ex ex'.
Proof.
  intros He He'. unfold shl_align.
  destruct (ex' - ex) as [ | d | d ] eqn:Hd; cbn [fst snd];
    try (split; [ reflexivity | lia ]).
  split; [ | lia ].
  rewrite iter_xO. unfold scaled.
  replace (ex + 2200) with (Zpos d + (ex' + 2200)) by lia.
  rewrite (Z.pow_add_r 2 (Zpos d) (ex' + 2200)) by lia. ring.
Qed.

Lemma smallest_canonical : canonical 1 (-1074).
Proof. reflexivity. Qed.

(** Rounding a positive number given by a mantissa and an exponent. *)
Lemma binary_round_ge (sx : bool) (mx mc : positive) (ex ec : Z) :
  canonical mc ec -> -2200 <= ex ->
  scaled (Zpos mc) ec <= scaled (Zpos mx) ex ->
  match binary_round prec emax sx mx ex with
  | S754_finite s m e => s = sx /\ scaled (Zpos mc) ec <= scaled (Zpos m) e
  | S754_infinity s => s = sx
  | _ => False
  end.
Proof.
  intros Hc He Hle. unfold binary_round.
  destruct (shl_align_scaled mx ex
              (fexp prec emax (Zpos (digits2_pos mx) + ex)) He)
    as (Hv & He' & _); [ rewrite fexp_eq; lia | ].
  destruct (shl_align mx ex (fexp prec emax (Zpos (digits2_pos mx) + ex)))
    as [mz ez]. cbn [fst snd] in Hv, He'.
  apply binary_round_aux_ge; [ exact Hc | exact He' | lia ].
Qed.

Lemma SFleb_at_least (mc : positive) (ec : Z) (f : spec_float) :
  canonical mc ec -> valid_binary f = true ->
  SFleb (S754_finite false mc ec) f = true <-> at_least mc ec f.
Proof.
  intros Hc Hv. unfold SFleb.
  destruct f as [ s | [ | ] | | [ | ] m e ];
    try (cbn [SFcompare at_least];
         split; [ discriminate | contradiction ]);
    try (cbn [SFcompare at_least]; tauto).
  apply valid_finite in Hv. destruct Hv as [Hm _].
  rewrite SFcompare_scaled by assumption. cbn [at_least].
  destruct (Z.compare_spec (scaled (Zpos mc) ec) (scaled (Zpos m) e));
    split; intros H'; try reflexivity; try discriminate; lia.
Qed.

Lemma at_least_weaken (mc mc' : positive) (ec ec' : Z) (f : spec_float) :
  scaled (Zpos mc') ec' <= scaled (Zpos mc) ec ->
  at_least mc ec f -> at_least mc' ec' f.
Proof.
  destruct f as [ s | [ | ] | | [ | ] m e ]; cbn [at_least]; try tauto.
  intros Hle Hm. lia.
Qed.

Lemma scaled_sub a b e : scaled (a - b) e = scaled a e - scaled b e.
Proof. unfold scaled. ring. Qed.

Lemma scaled_pos (m : positive) (e : Z) : -2200 <= e -> 0 < scaled (Zpos m) e.
Proof.
  intros He. unfold scaled. pose proof (pow2_pos (e + 2200) ltac:(lia)). nia.
Qed.

(** [x - y] for [x >= c] is [r] at least, when [c - y >= r > 0]. *)
Lemma SFsub_at_least (x : spec_float) (mc my mr : positive) (ec ey er : Z) :
  valid_binary x = true -> canonical my ey -> canonical mr er ->
  at_least mc ec x ->
  scaled (Zpos mr) er + scaled (Zpos my) ey <= scaled (Zpos mc) ec ->
  at_least mr er (SFsub prec emax x (S754_finite false my ey)).
Proof.
  intros Hv Hy Hr Hx Hsum.
  destruct x as [ s | [ | ] | | [ | ] m e ]; cbn [at_least] in Hx;
    try contradiction; [ exact I | ].
  apply valid_finite in Hv. destruct Hv as [Hm _].
  pose proof (canonical_bounds m e Hm) as [He _].
  pose proof (canonical_bounds my ey Hy) as [Hey _].
  pose proof (canonical_bounds mr er Hr) as [Her _].
  cbn [SFsub cond_Zopp].
  destruct (shl_align_scaled m e (Z.min e ey)) as (Ha & _ & Hea); try lia.
  destruct (shl_align_scaled my ey (Z.min e ey)) as (Hb & _ & Heb); try lia.
  replace (Z.min e (Z.min e ey)) with (Z.min e ey) in Hea by lia.
  replace (Z.min ey (Z.min e ey)) with (Z.min e ey) in Heb by lia.
  rewrite Hea in Ha. rewrite Heb in Hb.
  set (a := Zpos (fst (shl_align m e (Z.min e ey)))) in *.
  set (b := Zpos (fst (shl_align my ey (Z.min e ey)))) in *.
  pose proof (scaled_sub a b (Z.min e ey)) as Hd.
  pose proof (scaled_pos mr er ltac:(lia)) as Hrpos.
  assert (0 < a - b) as Hpos
      by (apply (scaled_pos_inv _ (Z.min e ey)); lia).
  destruct (a - b) as [ | pd | pd ]; try lia.
  cbn [binary_normalize].
  pose proof (binary_round_ge false pd mr (Z.min e ey) er Hr ltac:(lia)
                ltac:(lia)) as Hround.
  destruct (binary_round prec emax false pd (Z.min e ey))
    as [ s | s | | s m' e' ]; try contradiction.
  - subst s. exact I.
  - destruct Hround as [-> Hle]. exact Hle.
Qed.

(** [x * 4] for [x >= c] is [r] at least, when [4 c >= r]. *)
Lemma SFmul_4_at_least (x : spec_float) (mc mr : positive) (ec er : Z) :
  valid_binary x = true -> canonical mr er ->
  at_least mc ec x ->
  scaled (Zpos mr) er <= 4 * scaled (Zpos mc) ec ->
  at_least mr er
           (SFmul prec emax x (S754_finite false 4503599627370496 (-50))).
Proof.
  intros Hv Hr Hx Hle.
  destruct x as [ s | [ | ] | | [ | ] m e ]; cbn [at_least] in Hx;
    try contradiction; [ exact I | ].
  apply valid_finite in Hv. destruct Hv as [Hm _].
  pose proof (canonical_bounds m e Hm) as [He _].
  cbn [SFmul xorb].
  assert (scaled (Zpos (m * 4503599627370496)) (e + -50)
          = 4 * scaled (Zpos m) e) as Hv.
  { unfold scaled. rewrite Pos2Z.inj_mul.
    replace (e + 2200) with ((e + -50 + 2200) + 50) by lia.
    rewrite (Z.pow_add_r 2 (e + -50 + 2200) 50) by lia.
    change (2 ^ 50) with 1125899906842624. lia. }
  pose proof (binary_round_aux_ge false (m * 4503599627370496) mr
                (e + -50) er loc_Exact Hr ltac:(lia) ltac:(lia)) as Hround.
  destruct (binary_round_aux prec emax false
              (Zpos (m * 4503599627370496)) (e + -50) loc_Exact)
    as [ s | s | | s m' e' ]; try contradiction.
  - subst s. exact I.
  - destruct Hround as [-> Hle']. exact Hle'.
Qed.

(** [x - y] for [y >= c >= x] is zero at most. *)
Lemma SFsub_at_most_zero (y : spec_float) (mc mx : positive) (ec ex : Z) :
  valid_binary y = true -> canonical mx ex ->
  at_least mc ec y ->
  scaled (Zpos mx) ex <= scaled (Zpos mc) ec ->
  at_most_zero (SFsub prec emax (S754_finite false mx ex) y).
Proof.
  intros Hv Hx Hy Hle.
  destruct y as [ s | [ | ] | | [ | ] m e ]; cbn [at_least] in Hy;
    try contradiction; [ exact I | ].
  apply valid_finite in Hv. destruct Hv as [Hm _].
  pose proof (canonical_bounds m e Hm) as [He _].
  pose proof (canonical_bounds mx ex Hx) as [Hex _].
  cbn [SFsub cond_Zopp].
  destruct (shl_align_scaled mx ex (Z.min ex e)) as (Ha & _ & Hea); try lia.
  destruct (shl_align_scaled m e (Z.min ex e)) as (Hb & _ & Heb); try lia.
  replace (Z.min ex (Z.min ex e)) with (Z.min ex e) in Hea by lia.
  replace (Z.min e (Z.min ex e)) with (Z.min ex e) in Heb by lia.
  rewrite Hea in Ha. rewrite Heb in Hb.
  set (a := Zpos (fst (shl_align mx ex (Z.min ex e)))) in *.
  set (b := Zpos (fst (shl_align m e (Z.min ex e)))) in *.
  pose proof (scaled_sub a b (Z.min ex e)) as Hd.
  assert (a - b <= 0) as Hneg.
  { destruct (Z_lt_le_dec 0 (a - b)) as [Hpos | Hle0]; [ | exact Hle0 ].
    pose proof (scaled_le_mono 1 (a - b) (Z.min ex e) ltac:(lia) ltac:(lia)).
    pose proof (scaled_pos 1 (Z.min ex e) ltac:(lia)). lia. }
  destruct (a - b) as [ | pd | pd ]; try lia; [ exact I | ].
  cbn [binary_normalize].
  assert (scaled (Zpos 1) (-1074) <= scaled (Zpos pd) (Z.min ex e)) as Hmin.
  { unfold scaled.
    pose proof (Z.pow_le_mono_r 2 (-1074 + 2200) (Z.min ex e + 2200)
                  ltac:(lia) ltac:(lia)).
    pose proof (pow2_pos (-1074 + 2200) ltac:(lia)). nia. }
  pose proof (binary_round_ge true pd 1 (Z.min ex e) (-1074)
                smallest_canonical ltac:(lia) Hmin) as Hround.
  destruct (binary_round prec emax true pd (Z.min ex e))
    as [ s | s | | s m' e' ]; try contradiction.
  - subst s. exact I.
  - destruct Hround as [-> _]. exact I.
Qed.

End Rounding64.


(** ** The fatigue formula from PERCLOS 45 on, in binary64 *)

Section Saturation64.

#[local] Open Scope float_scope.

Lemma at_most_zero_not_nan (f : spec_float) :
  at_most_zero f -> SFeqb f f = true.
Proof.
  unfold SFeqb.
  destruct f as [ s | [ | ] | | [ | ] m e ]; cbn [at_most_zero SFcompare];
    try contradiction; try reflexivity.
  intros _. rewrite Z.compare_refl.
  change (Pos.compare_cont Eq m m) with (Pos.compare m m).
  now rewrite Pos.compare_refl.
Qed.

Lemma at_most_zero_not_above (f : spec_float) :
  at_most_zero f -> SFltb (S754_zero false) f = false.
Proof.
  unfold SFltb.
  destruct f as [ s | [ | ] | | [ | ] m e ]; cbn [at_most_zero SFcompare];
    try contradiction; reflexivity.
Qed.

Lemma at_most_zero_cases (f : spec_float) :
  at_most_zero f ->
  SFltb f (S754_zero false) = true \/ exists s, f = S754_zero s.
Proof.
  unfold SFltb.
  destruct f as [ s | [ | ] | | [ | ] m e ]; cbn [at_most_zero SFcompare];
    try contradiction; intros _; try (left; reflexivity).
  right. now exists s.
Qed.

(** [Math.max(0, c)] is 0 when [c] is zero at most. *)
Lemma max_0_at_most_zero (c : float) :
  at_most_zero (Prim2SF c) -> Float64.max 0 c = 0.
Proof.
  intros Hc. unfold Float64.max.
  assert (PrimFloat.is_nan c = false) as ->.
  { unfold PrimFloat.is_nan.
    rewrite FloatAxioms.eqb_spec, at_most_zero_not_nan by assumption.
    reflexivity. }
  change (PrimFloat.is_nan 0 || false)%bool with false. cbv iota.
  assert ((0 <? c) = false) as ->.
  { rewrite FloatAxioms.ltb_spec. change (Prim2SF 0) with (S754_zero false).
    now apply at_most_zero_not_above. }
  destruct (at_most_zero_cases _ Hc) as [Hlt | [s Hz]].
  - assert ((c <? 0) = true) as ->; [ | reflexivity ].
    rewrite FloatAxioms.ltb_spec. exact Hlt.
  - assert ((c <? 0) = false) as ->.
    { rewrite FloatAxioms.ltb_spec, Hz. reflexivity. }
    change (PrimFloat.is_zero 0) with true. cbv iota.
    apply Prim2SF_inj. rewrite FloatAxioms.add_spec, Hz.
    change (Prim2SF 0) with (S754_zero false). now destruct s.
Qed.

Lemma canonical_checked (m : positive) (e : Z) :
  (fexp prec emax (Zpos (digits2_pos m) + e) =? e)%Z = true -> canonical m e.
Proof. apply Z.eqb_eq. Qed.

Lemma scaled_le_checked (m m' : Z) (e e' : Z) :
  (scaled m e <=? scaled m' e')%Z = true -> (scaled m e <= scaled m' e')%Z.
Proof. apply Z.leb_le. Qed.

(** From PERCLOS 45 on the formula of the fatigue branch gives 0, for every
    double. *)
Lemma score_fatigue_from_45 (p : float) :
  (45 <=? p) = true ->
  score_fatigue (N:=binary64) p = 0 /\ (20 <=? p) = true.
Proof.
  intros H45.
  pose proof (Prim2SF_valid p) as Hvp.
  rewrite FloatAxioms.leb_spec in H45.
  change (Prim2SF 45) with (S754_finite false 6333186975989760 (-47)) in H45.
  apply SFleb_at_least in H45;
    [ | apply canonical_checked; reflexivity | exact Hvp ].
  split.
  - change (score_fatigue (N:=binary64) p)
      with (Float64.max 0 (100 - (p - 20) * 4)).
    apply max_0_at_most_zero.
    rewrite FloatAxioms.sub_spec, FloatAxioms.mul_spec, FloatAxioms.sub_spec.
    change (Prim2SF 100) with (S754_finite false 7036874417766400 (-46)).
    change (Prim2SF 4) with (S754_finite false 4503599627370496 (-50)).
    change (Prim2SF 20) with (S754_finite false 5629499534213120 (-48)).
    pose proof (Prim2SF_valid (p - 20)) as Hva.
    rewrite FloatAxioms.sub_spec in Hva.
    change (Prim2SF 20) with (S754_finite false 5629499534213120 (-48)) in Hva.
    pose proof (Prim2SF_valid ((p - 20) * 4)) as Hvb.
    rewrite FloatAxioms.mul_spec, FloatAxioms.sub_spec in Hvb.
    change (Prim2SF 4) with (S754_finite false 4503599627370496 (-50)) in Hvb.
    change (Prim2SF 20) with (S754_finite false 5629499534213120 (-48)) in Hvb.
    unfold SF64sub, SF64mul in *.
    apply (SFsub_at_most_zero _ 7036874417766400 7036874417766400 (-46) (-46));
      [ exact Hvb | apply canonical_checked; reflexivity | | lia ].
    apply (SFmul_4_at_least _ 7036874417766400 7036874417766400 (-48) (-46));
      [ exact Hva | apply canonical_checked; reflexivity |
      | apply Z.leb_le; vm_compute; reflexivity ].
    apply (SFsub_at_least _ 6333186975989760 5629499534213120
             7036874417766400 (-47) (-48) (-48));
      [ exact Hvp | apply canonical_checked; reflexivity
      | apply canonical_checked; reflexivity | exact H45 | ].
    apply Z.leb_le. vm_compute. reflexivity.
  - rewrite FloatAxioms.leb_spec.
    change (Prim2SF 20) with (S754_finite false 5629499534213120 (-48)).
    apply SFleb_at_least;
      [ apply canonical_checked; reflexivity | exact Hvp | ].
    apply (at_least_weaken 6333186975989760 _ (-47)); [ | exact H45 ].
    apply scaled_le_checked. vm_compute. reflexivity.
Qed.

End Saturation64.


(** ** The sign of the estimator's ratio, in binary64

    A square, a sum of squares, its square root, and the sums, doubles and
    quotients of such roots are NaN, [+0], positive or +Infinity: the
    ratio is never negative and never -Infinity. *)

Section Sign64.

Lemma shr_nonneg mrs e n : 0 <= shr_m mrs -> 0 <= shr_m (fst (shr mrs e n)).
Proof.
  intros Hm. unfold shr. destruct n as [ | p | p ]; cbn [fst]; try exact Hm.
  rewrite iter_pos_shr_1 by exact Hm.
  apply Z.div_pos; [ exact Hm | apply pow2_pos; lia ].
Qed.

Lemma shr_fexp_nonneg m e l :
  0 <= m -> 0 <= shr_m (fst (shr_fexp prec emax m e l)).
Proof.
  intros Hm. unfold shr_fexp. apply shr_nonneg.
  now rewrite shr_record_of_loc_m.
Qed.

(** Rounding a mantissa that is not negative gives a zero, a number or an
    infinity of the sign asked for. *)
Lemma binary_round_aux_sign (sx : bool) (m e : Z) (l : location) :
  0 <= m ->
  match binary_round_aux prec emax sx m e l with
  | S754_nan => False
  | S754_zero s | S754_infinity s | S754_finite s _ _ => s = sx
  end.
Proof.
  intros Hm. unfold binary_round_aux.
  pose proof (shr_fexp_nonneg m e l Hm) as H1.
  destruct (shr_fexp prec emax m e l) as [mrs' e']. cbn [fst] in H1.
  pose proof (round_nearest_even_ge (shr_m mrs') (loc_of_shr_record mrs'))
    as Hr.
  set (m2 := round_nearest_even (shr_m mrs') (loc_of_shr_record mrs')) in *.
  pose proof (shr_fexp_nonneg m2 e' loc_Exact ltac:(lia)) as H2.
  destruct (shr_fexp prec emax m2 e' loc_Exact) as [mrs'' e''].
  cbn [fst] in H2.
  destruct (shr_m mrs'') as [ | p | p ]; try lia; [ reflexivity | ].
  now destruct (e'' <=? emax - prec)%Z.
Qed.

Lemma binary_round_sign (sx : bool) (m : positive) (e : Z) :
  match binary_round prec emax sx m e with
  | S754_nan => False
  | S754_zero s | S754_infinity s | S754_finite s _ _ => s = sx
  end.
Proof.
  unfold binary_round.
  destruct (shl_align m e (fexp prec emax (Zpos (digits2_pos m) + e)))
    as [mz ez].
  apply binary_round_aux_sign. lia.
Qed.

Lemma not_below_zero_of_sign (f : spec_float) :
  match f with
  | S754_nan => False
  | S754_zero s | S754_infinity s | S754_finite s _ _ => s = false
  end -> not_below_zero f.
Proof. destruct f; cbn; tauto. Qed.

Lemma SFmul_self (x : spec_float) : not_below_zero (SFmul prec emax x x).
Proof.
  destruct x as [ s | s | | s m e ]; cbn [SFmul not_below_zero];
    rewrite ?xorb_nilpotent; try exact I; try reflexivity.
  apply not_below_zero_of_sign, binary_round_aux_sign. lia.
Qed.

Lemma SFadd_not_below_zero (x y : spec_float) :
  not_below_zero x -> not_below_zero y ->
  not_below_zero (SFadd prec emax x y).
Proof.
  destruct x as [ sx | sx | | sx mx ex ], y as [ sy | sy | | sy my ey ];
    cbn [not_below_zero]; intros Hx Hy; subst; cbn [SFadd not_below_zero];
    try exact I; try reflexivity.
  cbn [cond_Zopp].
  set (a := fst (shl_align mx ex (Z.min ex ey))).
  set (b := fst (shl_align my ey (Z.min ex ey))).
  change (Zpos a + Zpos b)%Z with (Zpos (a + b)). cbn [binary_normalize].
  apply not_below_zero_of_sign, binary_round_sign.
Qed.

Lemma SFsqrt_not_below_zero (x : spec_float) :
  not_below_zero x -> not_below_zero (SFsqrt prec emax x).
Proof.
  destruct x as [ s | s | | s m e ]; cbn [not_below_zero]; intros Hx;
    subst; cbn [SFsqrt not_below_zero]; try exact I; try reflexivity.
  destruct (SFsqrt_core_binary prec emax (Zpos m) e) as [[mz ez] lz] eqn:Hcore.
  apply not_below_zero_of_sign, binary_round_aux_sign.
  unfold SFsqrt_core_binary in Hcore.
  match type of Hcore with
  | context [Z.sqrtrem ?n] =>
      pose proof (Z.sqrtrem_sqrt n) as Hs;
      destruct (Z.sqrtrem n) as [q r]
  end.
  cbn [fst] in Hs. injection Hcore as <- _ _.
  rewrite Hs. apply Z.sqrt_nonneg.
Qed.

Lemma SFdiv_not_below_zero (x y : spec_float) :
  not_below_zero x -> not_below_zero y ->
  not_below_zero (SFdiv prec emax x y).
Proof.
  destruct x as [ sx | sx | | sx mx ex ], y as [ sy | sy | | sy my ey ];
    cbn [not_below_zero]; intros Hx Hy; subst; cbn [SFdiv not_below_zero xorb];
    try exact I; try reflexivity.
  destruct (SFdiv_core_binary prec emax (Zpos mx) ex (Zpos my) ey)
    as [[mz ez] lz] eqn:Hcore.
  apply not_below_zero_of_sign, binary_round_aux_sign.
  unfold SFdiv_core_binary in Hcore.
  match type of Hcore with
  | context [Z.div_eucl ?a ?b] =>
      pose proof (Z.div_eucl_eq a b ltac:(lia)) as Hq;
      pose proof (Z.mod_pos_bound a b ltac:(lia)) as Hr;
      assert (0 <= a) as Ha;
      [ | unfold Z.modulo in Hr; destruct (Z.div_eucl a b) as [q r] ]
  end.
  - match goal with
    | |- (0 <= match ?s with _ => _ end)%Z => destruct s
    end; try lia.
    apply Z.shiftl_nonneg. lia.
  - injection Hcore as <- _ _. nia.
Qed.

Lemma SFmul_2_not_below_zero (x : spec_float) :
  not_below_zero x ->
  not_below_zero (SFmul prec emax (S754_finite false 4503599627370496 (-51)) x).
Proof.
  destruct x as [ s | s | | s m e ]; cbn [not_below_zero]; intros Hx;
    subst; cbn [SFmul not_below_zero xorb]; try exact I; try reflexivity.
  apply not_below_zero_of_sign, binary_round_aux_sign. lia.
Qed.

Lemma SFdiv_2_not_below_zero (x : spec_float) :
  not_below_zero x ->
  not_below_zero (SFdiv prec emax x (S754_finite false 4503599627370496 (-51))).
Proof. intros Hx. now apply SFdiv_not_below_zero. Qed.

End Sign64.


Section Estimator64.

#[local] Open Scope float_scope.

Lemma distance_nonneg64 (a b : Keypoint binary64) : nonneg64 (distance a b).
Proof.
  unfold nonneg64.
  change (distance a b)
    with (PrimFloat.sqrt
            ((x a - x b) * (x a - x b) + (y a - y b) * (y a - y b))).
  rewrite FloatAxioms.sqrt_spec, FloatAxioms.add_spec, !FloatAxioms.mul_spec.
  apply SFsqrt_not_below_zero, SFadd_not_below_zero; apply SFmul_self.
Qed.

Lemma calculateEAR_nonneg64 (keypoints : list (Keypoint binary64))
      (indices : EyeIndices) (e : float) :
  calculateEAR keypoints indices = Some e -> nonneg64 e.
Proof.
  unfold calculateEAR.
  destruct (nth_error keypoints (p1 indices)) as [ k1 | ]; [ | discriminate ].
  destruct (nth_error keypoints (p2 indices)) as [ k2 | ]; [ | discriminate ].
  destruct (nth_error keypoints (p3 indices)) as [ k3 | ]; [ | discriminate ].
  destruct (nth_error keypoints (p4 indices)) as [ k4 | ]; [ | discriminate ].
  destruct (nth_error keypoints (p5 indices)) as [ k5 | ]; [ | discriminate ].
  destruct (nth_error keypoints (p6 indices)) as [ k6 | ]; [ | discriminate ].
  intros [= <-]. unfold nonneg64.
  change ((distance k2 k6 + distance k3 k5) / (of_Z 2 * distance k1 k4))%js
    with ((distance k2 k6 + distance k3 k5) / (2 * distance k1 k4)).
  rewrite FloatAxioms.div_spec, FloatAxioms.add_spec, FloatAxioms.mul_spec.
  change (Prim2SF 2) with (S754_finite false 4503599627370496 (-51)).
  apply SFdiv_not_below_zero;
    [ apply SFadd_not_below_zero | apply SFmul_2_not_below_zero ];
    apply distance_nonneg64.
Qed.

Lemma averageEAR_nonneg64 (keypoints : list (Keypoint binary64)) (e : float) :
  averageEAR keypoints = Some e -> nonneg64 e.
Proof.
  unfold averageEAR.
  destruct (calculateEAR keypoints EYE_LANDMARKS_LEFT) as [ l | ] eqn:Hl;
    [ | discriminate ].
  destruct (calculateEAR keypoints EYE_LANDMARKS_RIGHT) as [ r | ] eqn:Hr;
    [ | discriminate ].
  intros [= <-]. apply calculateEAR_nonneg64 in Hl, Hr. unfold nonneg64 in *.
  change ((l + r) / of_Z 2)%js with ((l + r) / 2).
  rewrite FloatAxioms.div_spec, FloatAxioms.add_spec.
  change (Prim2SF 2) with (S754_finite false 4503599627370496 (-51)).
  apply SFdiv_2_not_below_zero. now apply SFadd_not_below_zero.
Qed.

Lemma reachable_nonneg64 (t0 : Z) (this : PERCLOSDetector binary64) :
  reachable t0 this ->
  forall r, In r (earHistory this) -> nonneg64 (ear r).
Proof.
  induction 1 as [ | this keypoints now this' _ IH _ Hup ]; intros r Hin.
  - destruct Hin.
  - apply update_inv in Hup. destruct Hup as (avgEAR & He & ->).
    apply record_sample_history in Hin. destruct Hin as [[Hin | ->] _].
    + now apply IH.
    + now apply averageEAR_nonneg64 in He.
Qed.



End Estimator64.

(** ** The claims on all numbers *)

Section AllNumbers.

#[local] Open Scope float_scope.

(** C9.  In binary64: the score of PERCLOS 0 is 100, and for every double
    [p] from 45 on, +Infinity included, the formula of the fatigue branch,
    max(0, 100 - (p - 20) * 4), gives 0 exactly, which is the score, with
    the level fatigue. *)
Theorem C9_score_100_at_0_and_0_from_45 (p : float) :
  (45 <=? p) = true ->
  score (score_of (N:=binary64) 0) = 100
  /\ score_fatigue (N:=binary64) p = 0
  /\ score (score_of (N:=binary64) p) = 0
  /\ level (score_of (N:=binary64) p) = level_fatigue.
Proof.
  intros H45. destruct (score_fatigue_from_45 p H45) as [Hf H20].
  split; [ reflexivity | ]. split; [ exact Hf | ].
  unfold score_of.
  change (@geb binary64 p FATIGUE_PERCLOS) with (20 <=? p).
  rewrite H20, Hf. split; reflexivity.
Qed.

Lemma C9_witness :
  score (score_of (N:=binary64) 0) = 100
  /\ score_fatigue (N:=binary64) 52.5 = 0
  /\ score (score_of (N:=binary64) 52.5) = 0
  /\ level (score_of (N:=binary64) 52.5) = level_fatigue.
Proof. apply (C9_score_100_at_0_and_0_from_45 52.5). reflexivity. Defined.

(** At the instant of construction, in binary64: with a recent sample the
    score is 0 when the closed time is positive and NaN when it is 0. *)
Lemma score_at_start64 (t0 : Z) (this : PERCLOSDetector binary64) :
  reachable t0 this -> (lastUpdateTime this <= t0)%Z ->
  getRecentEARs t0 this <> [] ->
  getScore t0 this =
  if (0 <? closedTime (getRecentEARs t0 this))%Z
  then {| score := 0; level := level_fatigue; details := infinity |}
  else {| score := nan; level := level_normal; details := nan |}.
Proof.
  intros Hreach Hlast Hne. unfold getScore.
  rewrite calculatePERCLOS_recent by assumption.
  destruct (reachable_well_formed t0 this Hreach) as [-> _ _ _].
  rewrite Z.sub_diag. change (Z.min 0 WINDOW_MS) with 0%Z.
  unfold calculateClosurePercentage.
  destruct (getRecentEARs t0 this) as [ | r l ] eqn:Hrecent;
    [ contradiction | ].
  cbn [List.length Nat.eqb]. rewrite <- Hrecent.
  destruct (closedTime_at_start t0 this Hreach Hlast) as [-> | ->];
    reflexivity.
Qed.

End AllNumbers.

(** ** Runs of the scorer in binary64 *)

Section Runs.

Import Scenario.
#[local] Open Scope float_scope.

(** The faces of the scenarios give the ratios 0.1, 0.2 and 0.3. *)
Example face_ratios :
  map (fun v => averageEAR (N:=binary64) (face 10 v)) [1; 2; 3]%Z
  = [Some 0.1; Some 0.2; Some 0.3].
Proof. vm_compute. reflexivity. Qed.

Example three_samples_reached :
  update (face 10 1) 0 (new (N:=binary64) 0)
  = Some (detector 0 [sample64 0 0.1])
  /\ update (face 10 1) 1000 (detector 0 [sample64 0 0.1])
     = Some (detector 0 [sample64 0 0.1; sample64 1000 0.1])
  /\ update (face 10 3) 2000 (detector 0 [sample64 0 0.1; sample64 1000 0.1])
     = Some three_samples.
Proof. vm_compute. repeat split. Qed.

Example open_at_start_reached :
  update (face 10 3) 0 (new (N:=binary64) 0) = Some open_at_start.
Proof. vm_compute. reflexivity. Qed.

(** A degenerate face: both eyes have width 0 and height 0, and the ratio
    is 0/0. *)
Example face_degenerate : averageEAR (N:=binary64) (face 0 0) = Some nan.
Proof. vm_compute. reflexivity. Qed.

Example nonfinite_ratio_comparisons :
  (nan <? @EAR_THRESHOLD binary64) = false
  /\ (infinity <? @EAR_THRESHOLD binary64) = false
  /\ (neg_infinity <? @EAR_THRESHOLD binary64) = true.
Proof. vm_compute. repeat split. Qed.

End Runs.

(** ** The score mapping at its breakpoints *)

Section Breakpoints.

Import Scenario.
#[local] Open Scope float_scope.

(** C2.  What the code computes at the two breakpoints, in binary64.  At
    PERCLOS 15 the formula of the normal branch gives 80 and that of the
    mild-fatigue branch, which is the one [getScore] takes there, gives
    100; at PERCLOS 20 the mild-fatigue formula gives 80 and the fatigue
    formula, the one taken, gives 100.  So the score steps up from 80 to
    100 at both breakpoints, where the comments of [getScore] announce
    80 at 15 % and 60 at 20 %. *)
Theorem C2_breakpoints_step_up :
  score_normal (N:=binary64) 15 = 80
  /\ score_mild (N:=binary64) 15 = 100
  /\ score_mild (N:=binary64) 20 = 80
  /\ score_fatigue (N:=binary64) 20 = 100
  /\ getScore 1000 (closed_for 149)
     = {| score := 80; level := level_normal; details := 14.9 |}
  /\ getScore 1000 (closed_for 150)
     = {| score := 100; level := level_mild; details := 15 |}
  /\ getScore 1000 (closed_for 199)
     = {| score := 80; level := level_mild; details := 19.9 |}
  /\ getScore 1000 (closed_for 200)
     = {| score := 100; level := level_fatigue; details := 20 |}.
Proof. vm_compute. repeat split. Qed.

(** The same in exact arithmetic. *)
Example breakpoints_exact :
  map (score_normal (N:=exact)) [of_Z 15] = [of_Z 80]
  /\ map (score_mild (N:=exact)) [of_Z 15; of_Z 20] = [of_Z 100; of_Z 80]
  /\ map (score_fatigue (N:=exact)) [of_Z 20; of_Z 30; of_Z 40; of_Z 45]
     = [of_Z 100; of_Z 60; of_Z 20; of_Z 0].
Proof. vm_compute. repeat split. Qed.

End Breakpoints.

(** ** The estimator *)

Lemma calculateEAR_value
      (N : JSNumber) (keypoints : list (Keypoint N)) (indices : EyeIndices)
      (k1 k2 k3 k4 k5 k6 : Keypoint N) :
  nth_error keypoints (p1 indices) = Some k1 ->
  nth_error keypoints (p2 indices) = Some k2 ->
  nth_error keypoints (p3 indices) = Some k3 ->
  nth_error keypoints (p4 indices) = Some k4 ->
  nth_error keypoints (p5 indices) = Some k5 ->
  nth_error keypoints (p6 indices) = Some k6 ->
  calculateEAR keypoints indices
  = Some ((distance k2 k6 + distance k3 k5) / (of_Z 2 * distance k1 k4))%js.
Proof.
  intros H1 H2 H3 H4 H5 H6. unfold calculateEAR.
  now rewrite H1, H2, H3, H4, H5, H6.
Qed.

Lemma averageEAR_value
      (N : JSNumber) (keypoints : list (Keypoint N))
      (leftEAR rightEAR : number) :
  calculateEAR keypoints EYE_LANDMARKS_LEFT = Some leftEAR ->
  calculateEAR keypoints EYE_LANDMARKS_RIGHT = Some rightEAR ->
  averageEAR keypoints = Some ((leftEAR + rightEAR) / of_Z 2)%js.
Proof. intros Hl Hr. unfold averageEAR. now rewrite Hl, Hr. Qed.

Section Estimator.

#[local] Open Scope float_scope.

(** C8.  In binary64, for an eye whose six landmarks [k1] .. [k6] are in
    [keypoints] at the indices [p1] .. [p6]: the ratio is
    (|k2 k6| + |k3 k5|) / (2 |k1 k4|), where |a b| is the square root of
    the sum of the squared differences of the coordinates; it is 0.2 when
    the corners are 10 apart and both upper landmarks are 2 from the lower
    ones; and the value of a frame is the sum of the ratios of the two
    eyes divided by 2. *)
Theorem C8_eye_aspect_ratio
        (keypoints : list (Keypoint binary64)) (indices : EyeIndices)
        (k1 k2 k3 k4 k5 k6 : Keypoint binary64) :
  nth_error keypoints (p1 indices) = Some k1 ->
  nth_error keypoints (p2 indices) = Some k2 ->
  nth_error keypoints (p3 indices) = Some k3 ->
  nth_error keypoints (p4 indices) = Some k4 ->
  nth_error keypoints (p5 indices) = Some k5 ->
  nth_error keypoints (p6 indices) = Some k6 ->
  calculateEAR keypoints indices
  = Some ((distance k2 k6 + distance k3 k5) / (2 * distance k1 k4))
  /\ (forall a b : Keypoint binary64,
        distance a b
        = PrimFloat.sqrt
            ((x a - x b) * (x a - x b) + (y a - y b) * (y a - y b)))
  /\ (distance k1 k4 = 10 -> distance k2 k6 = 2 -> distance k3 k5 = 2 ->
      calculateEAR keypoints indices = Some 0.2)
  /\ (forall leftEAR rightEAR : float,
        calculateEAR keypoints EYE_LANDMARKS_LEFT = Some leftEAR ->
        calculateEAR keypoints EYE_LANDMARKS_RIGHT = Some rightEAR ->
        averageEAR keypoints = Some ((leftEAR + rightEAR) / 2)).
Proof.
  intros H1 H2 H3 H4 H5 H6.
  pose proof (calculateEAR_value binary64 keypoints indices
                k1 k2 k3 k4 k5 k6 H1 H2 H3 H4 H5 H6) as Hv.
  split; [ exact Hv | ]. split; [ reflexivity | ]. split.
  - intros Hh Hv1 Hv2. rewrite Hv.
    change (of_Z 2 * distance k1 k4)%js with (2 * distance k1 k4).
    change (distance k2 k6 + distance k3 k5)%js
      with (distance k2 k6 + distance k3 k5).
    now rewrite Hh, Hv1, Hv2.
  - apply averageEAR_value.
Qed.

Lemma C8_witness :
  let keypoints := face (N:=binary64) 10 2 in
  let k1 := point (N:=binary64) 0 0 in
  let k2 := point (N:=binary64) 3 2 in
  let k3 := point (N:=binary64) 7 2 in
  let k4 := point (N:=binary64) 10 0 in
  let k5 := point (N:=binary64) 7 0 in
  let k6 := point (N:=binary64) 3 0 in
  calculateEAR keypoints EYE_LANDMARKS_LEFT
  = Some ((distance k2 k6 + distance k3 k5) / (2 * distance k1 k4))
  /\ (forall a b : Keypoint binary64,
        distance a b
        = PrimFloat.sqrt
            ((x a - x b) * (x a - x b) + (y a - y b) * (y a - y b)))
  /\ (distance k1 k4 = 10 -> distance k2 k6 = 2 -> distance k3 k5 = 2 ->
      calculateEAR keypoints EYE_LANDMARKS_LEFT = Some 0.2)
  /\ (forall leftEAR rightEAR : float,
        calculateEAR keypoints EYE_LANDMARKS_LEFT = Some leftEAR ->
        calculateEAR keypoints EYE_LANDMARKS_RIGHT = Some rightEAR ->
        averageEAR keypoints = Some ((leftEAR + rightEAR) / 2)).
Proof.
  apply (C8_eye_aspect_ratio (face 10 2) EYE_LANDMARKS_LEFT);
    vm_compute; reflexivity.
Defined.

Example symmetric_eye :
  let k1 := point (N:=binary64) 0 0 in
  let k2 := point (N:=binary64) 3 2 in
  let k3 := point (N:=binary64) 7 2 in
  let k4 := point (N:=binary64) 10 0 in
  let k5 := point (N:=binary64) 7 0 in
  let k6 := point (N:=binary64) 3 0 in
  distance k1 k4 = 10 /\ distance k2 k6 = 2 /\ distance k3 k5 = 2.
Proof. vm_compute. repeat split. Qed.

End Estimator.

(** ** The scenarios *)

Lemma zero_window_quotient
      (N : JSNumber) (this : PERCLOSDetector N) (now : Z) :
  Z.min (now - startTime this) WINDOW_MS = 0 ->
  getRecentEARs now this <> [] ->
  calculatePERCLOS now this
  = (of_Z (closedTime (getRecentEARs now this)) / of_Z 0 * of_Z 100)%js.
Proof.
  intros Hw Hne. rewrite calculatePERCLOS_recent, Hw by assumption.
  unfold calculateClosurePercentage.
  now destruct (getRecentEARs now this).
Qed.

Section Scenarios.

Import Scenario.

(** C1, as the code has it.  When the effective window is 0 and the
    recent samples have a positive closed time, the division is not
    guarded: PERCLOS is closedTimeMs / 0 * 100, and no exception is
    raised.  In binary64, for every detector a program can hold, asked
    while the clock stands at the instant of its construction, that is
    +Infinity, and [getScore] returns score 0 and level fatigue.  The
    detector created at 0 with the one sample (0, 0.1) has closed time 33
    and PERCLOS +Infinity at [now = 0], and [getScore] returns score 0
    and level fatigue. *)
Theorem C1_zero_window_is_not_guarded :
  (forall (N : JSNumber) (this : PERCLOSDetector N) (now : Z),
      Z.min (now - startTime this) WINDOW_MS = 0 ->
      0 < closedTime (getRecentEARs now this) ->
      calculatePERCLOS now this
      = (of_Z (closedTime (getRecentEARs now this)) / of_Z 0 * of_Z 100)%js)
  /\ (forall (t0 : Z) (this : PERCLOSDetector binary64),
        reachable t0 this ->
        lastUpdateTime this <= t0 ->
        0 < closedTime (getRecentEARs t0 this) ->
        Z.min (t0 - startTime this) WINDOW_MS = 0
        /\ calculatePERCLOS t0 this = infinity
        /\ getScore t0 this
           = {| score := 0%float; level := level_fatigue;
                details := infinity |})
  /\ closedTime (getRecentEARs 0 blink_at_start) = 33
  /\ calculatePERCLOS 0 blink_at_start = infinity
  /\ getScore 0 blink_at_start
     = {| score := 0%float; level := level_fatigue; details := infinity |}.
Proof.
  split.
  { intros N this now Hw Hclosed. apply zero_window_quotient; [ exact Hw | ].
    intros Hnone. rewrite Hnone in Hclosed. discriminate Hclosed. }
  split; [ | vm_compute; repeat split ].
  intros t0 this Hreach Hlast Hclosed.
  assert (getRecentEARs t0 this <> []) as Hne.
  { intros Hnone. rewrite Hnone in Hclosed. discriminate Hclosed. }
  assert (Z.min (t0 - startTime this) WINDOW_MS = 0) as Hw.
  { destruct (reachable_well_formed t0 this Hreach) as [-> _ _ _].
    now rewrite Z.sub_diag. }
  split; [ exact Hw | ]. split.
  - rewrite (zero_window_quotient binary64 this t0 Hw Hne).
    destruct (closedTime_at_start t0 this Hreach Hlast) as [H0 | ->];
      [ rewrite H0 in Hclosed; discriminate Hclosed | ].
    vm_compute. reflexivity.
  - rewrite (score_at_start64 t0 this Hreach Hlast Hne).
    apply Z.ltb_lt in Hclosed. now rewrite Hclosed.
Qed.

Lemma C1_witness :
  Z.min (0 - startTime blink_at_start) WINDOW_MS = 0
  /\ calculatePERCLOS 0 blink_at_start = infinity
  /\ getScore 0 blink_at_start
     = {| score := 0%float; level := level_fatigue; details := infinity |}.
Proof.
  apply (proj1 (proj2 C1_zero_window_is_not_guarded) 0 blink_at_start).
  - apply (reach_update 0 (new 0) (face 10 1) 0).
    + apply reach_new.
    + cbn. lia.
    + vm_compute. reflexivity.
  - cbn. lia.
  - vm_compute. reflexivity.
Defined.

(** C1 as the specification has it fails on that detector: PERCLOS is not
    0, the score is not 100 and the level is not normal. *)
Lemma C1_counterexample :
  calculatePERCLOS 0 blink_at_start <> 0%float
  /\ score (getScore 0 blink_at_start) <> 100%float
  /\ level (getScore 0 blink_at_start) <> level_normal.
Proof.
  repeat split; intros H.
  - apply (f_equal (fun v : float => PrimFloat.eqb v 0)) in H.
    vm_compute in H. discriminate H.
  - apply (f_equal (fun v : float => PrimFloat.eqb v 100)) in H.
    vm_compute in H. discriminate H.
  - vm_compute in H. discriminate H.
Qed.

(** C3.  The loop computes the closed time the specification words: a
    sample's frame lasts until the next sample, the last sample's as long
    as the gap to the previous one, or 33 ms when it is alone, and a
    frame counts when its ratio is below the threshold.  In binary64,
    for the detector created at 0 with the samples (0, 0.1), (1000, 0.1),
    (2000, 0.3), at [now = 2000] all three are recent, the closed time is
    2000, PERCLOS is 100, the score 0 and the level fatigue. *)
Theorem C3_frame_durations_and_closed_time :
  (forall (N : JSNumber) (earRecords : list (EARRecord N)),
      closedTime earRecords = spec_closed_time None earRecords)
  /\ (forall (N : JSNumber) (pre : list (EARRecord N)) r rest,
        frameDuration (pre ++ r :: rest) (List.length pre) =
        match rest with
        | next :: _ => timestamp next - timestamp r
        | [] =>
            match last_timestamp pre with
            | Some t => timestamp r - t
            | None => 33
            end
        end)
  /\ getRecentEARs 2000 three_samples = earHistory three_samples
  /\ map (frameDuration (earHistory three_samples)) [0; 1; 2]%nat
     = [1000; 1000; 1000]
  /\ closedTime (getRecentEARs 2000 three_samples) = 2000
  /\ calculatePERCLOS 2000 three_samples = 100%float
  /\ getScore 2000 three_samples
     = {| score := 0%float; level := level_fatigue; details := 100%float |}.
Proof.
  split; [ exact (@closedTime_spec) | ].
  split; [ exact (@frameDuration_app) | ].
  vm_compute. repeat split.
Qed.

(** C4, at the input where it fails, in binary64.  A detector is created
    at clock value 0, updated once with open eyes (ratio 0.3) and asked for
    its score, the clock still at 0: no frame counts as closed, PERCLOS is
    0/0 and the score is NaN, which is no integer from 0 to 100.  So it is
    for every detector a program can hold that has a recent sample and a
    closed time of 0 while the clock stands at the instant of construction.
    That instant is the only one (exact arithmetic): for every detector a
    program can hold, the score is an integer from 0 to 100 at every clock
    value after its construction. *)
Theorem C4_score_is_NaN_at_the_instant_of_construction :
  update (face 10 3) 0 (new 0) = Some open_at_start
  /\ reachable 0 open_at_start
  /\ lastUpdateTime open_at_start = 0
  /\ closedTime (getRecentEARs 0 open_at_start) = 0
  /\ calculatePERCLOS 0 open_at_start = nan
  /\ getScore 0 open_at_start
     = {| score := nan; level := level_normal; details := nan |}
  /\ is_finite64 (score (getScore 0 open_at_start)) = false
  /\ (forall (t0 : Z) (this : PERCLOSDetector binary64),
         reachable t0 this -> lastUpdateTime this <= t0 ->
         getRecentEARs t0 this <> [] ->
         closedTime (getRecentEARs t0 this) = 0 ->
         score (getScore t0 this) = nan)
  /\ (forall (t0 now : Z) (this : PERCLOSDetector exact),
         reachable t0 this -> t0 < now ->
         integer_between 0 100 (score (getScore now this))).
Proof.
  split; [ vm_compute; reflexivity | ].
  split.
  - apply (reach_update 0 (new 0) (face 10 3) 0).
    + apply reach_new.
    + cbn. lia.
    + vm_compute. reflexivity.
  - split; [ reflexivity | ].
    split; [ reflexivity | ].
    split; [ reflexivity | ].
    split; [ vm_compute; reflexivity | ].
    split; [ reflexivity | ].
    split.
    + intros t0 this Hreach Hlast Hne Hclosed.
      rewrite (score_at_start64 t0 this Hreach Hlast Hne), Hclosed.
      reflexivity.
    + intros t0 now this. apply score_in_range_after_start.
Qed.

(** C6.  In binary64, whatever the clock value: when no sample of the
    history is recent, PERCLOS is 0 and [getScore] returns score 100 and
    level normal; so it does for a detector that was never updated. *)
Theorem C6_no_recent_sample
        (this : PERCLOSDetector binary64) (now t0 : Z) :
  getRecentEARs now this = [] ->
  calculatePERCLOS now this = 0%float
  /\ getScore now this
     = {| score := 100%float; level := level_normal; details := 0%float |}
  /\ getScore now (new t0)
     = {| score := 100%float; level := level_normal; details := 0%float |}.
Proof.
  intros Hrecent. unfold getScore, calculatePERCLOS.
  rewrite Hrecent. repeat split.
Qed.

Lemma C6_witness :
  calculatePERCLOS 300000 old_history = 0%float
  /\ getScore 300000 old_history
     = {| score := 100%float; level := level_normal; details := 0%float |}
  /\ getScore 300000 (new 5)
     = {| score := 100%float; level := level_normal; details := 0%float |}.
Proof. apply (C6_no_recent_sample old_history 300000 5). reflexivity. Defined.

Lemma C5_witness :
  exists avgEAR,
    averageEAR (face 10 2) = Some avgEAR /\
    WINDOW_MS = 60000 /\
    (forall r,
        In r (earHistory (record_sample 0.2%float 200000 old_history)) <->
               (In r (earHistory old_history) \/ r = sample 200000 avgEAR) /\
               (200000 - 2 * WINDOW_MS < timestamp r)) /\
    (forall t r,
        In r (getRecentEARs t (record_sample 0.2%float 200000 old_history)) <->
        In r (earHistory (record_sample 0.2%float 200000 old_history)) /\
        (t - WINDOW_MS < timestamp r)).
Proof.
  apply (C5_update_prunes_history
           binary64 old_history (record_sample 0.2%float 200000 old_history)
           (face 10 2) 200000).
  vm_compute. reflexivity.
Defined.

Example old_history_pruned :
  earHistory (record_sample 0.2%float 200000 old_history)
  = [sample64 130000 0.3%float; sample64 150000 0.1%float;
     sample64 200000 0.2%float]
  /\ getRecentEARs 200000 (record_sample 0.2%float 200000 old_history)
     = [sample64 150000 0.1%float; sample64 200000 0.2%float].
Proof. vm_compute. split; reflexivity. Qed.

(** Both sides of the test: 2 s and 40 s after the construction. *)
Example short_and_long_window :
  map (fun now => calculatePERCLOS now three_samples) [2000; 40000]
  = map (fun now =>
           calculateClosurePercentage (getRecentEARs now three_samples)
                                      (Z.min now WINDOW_MS)) [2000; 40000]
  /\ map (fun now => calculatePERCLOS now three_samples) [2000; 40000]
     = [100; 5]%float.
Proof. vm_compute. split; reflexivity. Qed.

End Scenarios.

(** * Further properties of the code *)

(** ** The history a detector keeps *)

Section HistoryInvariant.

Context {N : JSNumber}.
Implicit Types (this : PERCLOSDetector N) (r : EARRecord N).

Lemma record_sample_eq avgEAR now this :
  record_sample avgEAR now this
  = {| earHistory :=
         filter (fun r => now - WINDOW_MS * 2 <? timestamp r)
                (earHistory this)
         ++ [sample now avgEAR];
       startTime := startTime this;
       lastUpdateTime := now |}.
Proof.
  unfold record_sample, cleanOldData. cbn [earHistory startTime lastUpdateTime].
  rewrite filter_app. cbn [filter timestamp].
  replace (now - WINDOW_MS * 2 <? now) with true
    by (symmetry; apply Z.ltb_lt; unfold WINDOW_MS; lia).
  reflexivity.
Qed.

Lemma getRecentEARs_record_sample avgEAR now this :
  getRecentEARs now (record_sample avgEAR now this)
  = getRecentEARs now this ++ [sample now avgEAR].
Proof.
  rewrite record_sample_eq. unfold getRecentEARs. cbn [earHistory].
  rewrite filter_app. cbn [filter sample timestamp].
  replace (now - WINDOW_MS <? now) with true
    by (symmetry; apply Z.ltb_lt; unfold WINDOW_MS; lia).
  f_equal. induction (earHistory this) as [ | r l IH ]; [ reflexivity | ].
  cbn [filter].
  destruct (Z.ltb_spec (now - WINDOW_MS * 2) (timestamp r)) as [H2 | H2];
    destruct (Z.ltb_spec (now - WINDOW_MS) (timestamp r)) as [H1 | H1];
    cbn [filter]; unfold WINDOW_MS in *.
  - apply Z.ltb_lt in H1. unfold WINDOW_MS. rewrite H1. now f_equal.
  - apply Z.ltb_ge in H1. unfold WINDOW_MS. now rewrite H1.
  - lia.
  - exact IH.
Qed.

Lemma reachable_last_sample t0 this :
  reachable t0 this ->
  (earHistory this = [] -> this = new t0)
  /\ (earHistory this <> [] ->
      last_timestamp (earHistory this) = Some (lastUpdateTime this))
  /\ (forall r, In r (earHistory this) ->
                lastUpdateTime this - 2 * WINDOW_MS < timestamp r).
Proof.
  induction 1 as [ | this keypoints now this' Hreach IH Hnow Hup ].
  - split; [ reflexivity | ]. split; [ now intros [] | intros r [] ].
  - apply update_inv in Hup. destruct Hup as (avgEAR & _ & ->).
    split; [ | split ].
    + rewrite record_sample_eq. cbn [earHistory]. intros Hnil.
      now apply app_eq_nil in Hnil.
    + intros _. rewrite record_sample_eq. cbn [earHistory lastUpdateTime].
      now rewrite last_timestamp_snoc.
    + intros r Hin. apply record_sample_history in Hin.
      rewrite record_sample_eq. cbn [lastUpdateTime]. unfold WINDOW_MS. lia.
Qed.

End HistoryInvariant.

(** X1.  Every detector a program can hold (created at [t0], then updated
    by calls that return, on a clock that does not run backwards) keeps its
    start time; its last update is not before [t0]; its history is in the
    order of the timestamps; every sample it holds was taken between [t0]
    and the last update and less than 2 x 60000 ms before the last update;
    the history is empty only before the first update; and the last sample
    is the one of the last update. *)
Theorem X1_history_of_a_reachable_detector
        (N : JSNumber) (t0 : Z) (this : PERCLOSDetector N) :
  reachable t0 this ->
  startTime this = t0
  /\ t0 <= lastUpdateTime this
  /\ chronological (earHistory this)
  /\ (forall r, In r (earHistory this) ->
                t0 <= timestamp r <= lastUpdateTime this
                /\ lastUpdateTime this - 2 * WINDOW_MS < timestamp r)
  /\ (earHistory this = [] -> this = new t0)
  /\ (earHistory this <> [] ->
      last_timestamp (earHistory this) = Some (lastUpdateTime this)).
Proof.
  intros Hreach.
  destruct (reachable_well_formed t0 this Hreach) as [Hs Hl Ho Hr].
  destruct (reachable_last_sample t0 this Hreach) as (Hnil & Hlast & Hold).
  repeat (split; [ assumption | ]).
  split; [ | split; assumption ].
  intros r Hin. split; [ now apply Hr | now apply Hold ].
Qed.

Lemma X1_witness :
  chronological (earHistory Scenario.three_samples)
  /\ last_timestamp (earHistory Scenario.three_samples) = Some 2000.
Proof.
  assert (reachable 0 Scenario.three_samples) as Hreach.
  { apply (reach_update 0 (detector 0 [sample 0 0.1; sample 1000 0.1])%float
                        (face 10 3) 2000).
    - apply (reach_update 0 (detector 0 [sample 0 0.1])%float
                          (face 10 1) 1000).
      + apply (reach_update 0 (new 0) (face 10 1) 0).
        * apply reach_new.
        * cbn. lia.
        * vm_compute. reflexivity.
      + cbn. lia.
      + vm_compute. reflexivity.
    - cbn. lia.
    - vm_compute. reflexivity. }
  destruct (X1_history_of_a_reachable_detector binary64 0 _ Hreach)
    as (_ & _ & Ho & _ & _ & Hlast).
  split; [ exact Ho | ]. apply Hlast. discriminate.
Defined.

(** ** Frames with a missing landmark *)

Section MissingLandmark.

Context {N : JSNumber}.

(** [calculateEAR] throws exactly when one of its six indices is past the
    end of the array. *)
Lemma calculateEAR_None (keypoints : list (Keypoint N)) indices :
  calculateEAR keypoints indices = None <->
  (List.length keypoints
   <= Nat.max (p1 indices)
        (Nat.max (p2 indices)
           (Nat.max (p3 indices)
              (Nat.max (p4 indices)
                 (Nat.max (p5 indices) (p6 indices))))))%nat.
Proof.
  unfold calculateEAR.
  destruct (nth_error keypoints (p1 indices)) eqn:H1;
    [ | apply nth_error_None in H1; split; [ lia | reflexivity ] ].
  destruct (nth_error keypoints (p2 indices)) eqn:H2;
    [ | apply nth_error_None in H2; split; [ lia | reflexivity ] ].
  destruct (nth_error keypoints (p3 indices)) eqn:H3;
    [ | apply nth_error_None in H3; split; [ lia | reflexivity ] ].
  destruct (nth_error keypoints (p4 indices)) eqn:H4;
    [ | apply nth_error_None in H4; split; [ lia | reflexivity ] ].
  destruct (nth_error keypoints (p5 indices)) eqn:H5;
    [ | apply nth_error_None in H5; split; [ lia | reflexivity ] ].
  destruct (nth_error keypoints (p6 indices)) eqn:H6;
    [ | apply nth_error_None in H6; split; [ lia | reflexivity ] ].
  assert (nth_error keypoints (p1 indices) <> None) as N1 by congruence.
  assert (nth_error keypoints (p2 indices) <> None) as N2 by congruence.
  assert (nth_error keypoints (p3 indices) <> None) as N3 by congruence.
  assert (nth_error keypoints (p4 indices) <> None) as N4 by congruence.
  assert (nth_error keypoints (p5 indices) <> None) as N5 by congruence.
  assert (nth_error keypoints (p6 indices) <> None) as N6 by congruence.
  apply nth_error_Some in N1, N2, N3, N4, N5, N6.
  split; [ discriminate | lia ].
Qed.

End MissingLandmark.

(** X2.  [update] throws, and leaves the detector as it was, exactly for a
    frame of fewer than 388 landmarks: the ratio of the left eye needs the
    landmarks up to index 160, that of the right eye those up to index 387,
    and nothing else makes the call fail. *)
Theorem X2_update_throws_on_fewer_than_388_landmarks
        (N : JSNumber) (keypoints : list (Keypoint N)) (now : Z)
        (this : PERCLOSDetector N) :
  (calculateEAR keypoints EYE_LANDMARKS_LEFT = None
   <-> (List.length keypoints <= 160)%nat)
  /\ (calculateEAR keypoints EYE_LANDMARKS_RIGHT = None
      <-> (List.length keypoints <= 387)%nat)
  /\ (update keypoints now this = None
      <-> (List.length keypoints <= 387)%nat)
  /\ (update keypoints now this <> None
      <-> (388 <= List.length keypoints)%nat).
Proof.
  assert (calculateEAR keypoints EYE_LANDMARKS_LEFT = None
          <-> (List.length keypoints <= 160)%nat) as HL
    by (rewrite calculateEAR_None; cbn; lia).
  assert (calculateEAR keypoints EYE_LANDMARKS_RIGHT = None
          <-> (List.length keypoints <= 387)%nat) as HR
    by (rewrite calculateEAR_None; cbn; lia).
  assert (update keypoints now this = None
          <-> (List.length keypoints <= 387)%nat) as HU.
  { unfold update, averageEAR.
    destruct (calculateEAR keypoints EYE_LANDMARKS_LEFT) as [ l | ].
    - destruct (calculateEAR keypoints EYE_LANDMARKS_RIGHT) as [ r | ].
      + split; [ discriminate | ]. intros H. apply HR in H. discriminate.
      + split; [ intros _; now apply HR | reflexivity ].
    - split; [ | reflexivity ]. intros _.
      assert (List.length keypoints <= 160)%nat by now apply HL. lia. }
  repeat (split; [ assumption | ]).
  rewrite HU. lia.
Qed.

(** ** What pruning leaves to the scoring *)

Section Pruning.

Context {N : JSNumber}.
Implicit Types (this : PERCLOSDetector N) (r : EARRecord N).

Lemma getRecentEARs_cleanOldData now now' this :
  now - WINDOW_MS <= now' ->
  getRecentEARs now' (cleanOldData now this) = getRecentEARs now' this.
Proof.
  intros Hnow. unfold getRecentEARs, cleanOldData. cbn [earHistory].
  induction (earHistory this) as [ | r l IH ]; [ reflexivity | ].
  cbn [filter].
  destruct (Z.ltb_spec (now - WINDOW_MS * 2) (timestamp r)) as [H2 | H2];
    cbn [filter]; rewrite IH; [ reflexivity | ].
  replace (now' - WINDOW_MS <? timestamp r) with false; [ reflexivity | ].
  symmetry. apply Z.ltb_ge. unfold WINDOW_MS in *. lia.
Qed.

Lemma getScore_recent now this this' :
  startTime this' = startTime this ->
  getRecentEARs now this' = getRecentEARs now this ->
  calculatePERCLOS now this' = calculatePERCLOS now this
  /\ getScore now this' = getScore now this.
Proof.
  intros Hs Hr. unfold getScore, calculatePERCLOS. now rewrite Hs, Hr.
Qed.

End Pruning.

(** X3.  Pruning never removes a sample a score can still use.  For
    every history, [cleanOldData] run at clock value [now] leaves the
    recent samples, PERCLOS and the score of every query made at [now -
    60000] or later as they were; so a call of [update] that returns acts
    on every later score as the mere push of its sample, and at the clock
    value of the call the recent samples are the former ones followed by
    the new one. *)
Theorem X3_pruning_is_invisible_to_scoring
        (N : JSNumber) (this : PERCLOSDetector N) (now now' : Z) :
  now - WINDOW_MS <= now' ->
  getRecentEARs now' (cleanOldData now this) = getRecentEARs now' this
  /\ calculatePERCLOS now' (cleanOldData now this)
     = calculatePERCLOS now' this
  /\ getScore now' (cleanOldData now this) = getScore now' this
  /\ (forall keypoints this',
         update keypoints now this = Some this' ->
         exists avgEAR,
           averageEAR keypoints = Some avgEAR
           /\ startTime this' = startTime this
           /\ lastUpdateTime this' = now
           /\ getScore now' this' = getScore now' (push_sample avgEAR now this)
           /\ getRecentEARs now this'
              = getRecentEARs now this ++ [sample now avgEAR]).
Proof.
  intros Hnow.
  pose proof (getRecentEARs_cleanOldData now now' this Hnow) as Hrecent.
  split; [ exact Hrecent | ].
  destruct (getScore_recent now' this (cleanOldData now this) eq_refl Hrecent)
    as [Hp Hs].
  split; [ exact Hp | ]. split; [ exact Hs | ].
  intros keypoints this' Hup.
  apply update_inv in Hup. destruct Hup as (avgEAR & He & ->).
  exists avgEAR. split; [ exact He | ].
  split; [ reflexivity | ]. split; [ reflexivity | ].
  split; [ | apply getRecentEARs_record_sample ].
  apply (getScore_recent now' (push_sample avgEAR now this)
           (cleanOldData now (push_sample avgEAR now this)) eq_refl).
  now apply getRecentEARs_cleanOldData.
Qed.

Lemma X3_witness :
  getRecentEARs 200000 (cleanOldData 200000 Scenario.old_history)
  = getRecentEARs 200000 Scenario.old_history
  /\ getScore 200000 (cleanOldData 200000 Scenario.old_history)
     = getScore 200000 Scenario.old_history.
Proof.
  destruct (X3_pruning_is_invisible_to_scoring
              binary64 Scenario.old_history 200000 200000)
    as (Hr & _ & Hs & _).
  - unfold WINDOW_MS. lia.
  - split; [ exact Hr | exact Hs ].
Defined.

(** ** Clock values count by their differences *)

Section ClockShift.

Context {N : JSNumber}.
Implicit Types (this : PERCLOSDetector N) (r : EARRecord N).

Lemma spec_closed_time_shifted d (samples : list (EARRecord N)) :
  forall previous,
    spec_closed_time (option_map (fun t => t + d) previous)
                     (map (delayed d) samples)
    = spec_closed_time previous samples.
Proof.
  induction samples as [ | r rest IH ]; intros previous; [ reflexivity | ].
  pose proof (IH (Some (timestamp r))) as IHr. cbn [option_map] in IHr.
  cbn [map spec_closed_time delayed timestamp ear]. rewrite IHr.
  destruct rest as [ | next rest' ].
  - destruct previous as [ t | ]; cbn [option_map map];
      destruct (ear r <? EAR_THRESHOLD)%js; lia.
  - cbn [map delayed timestamp]. destruct (ear r <? EAR_THRESHOLD)%js; lia.
Qed.

Lemma closedTime_shifted d (samples : list (EARRecord N)) :
  closedTime (map (delayed d) samples) = closedTime samples.
Proof.
  rewrite !closedTime_spec. apply (spec_closed_time_shifted d samples None).
Qed.

Lemma filter_delayed d cutoff (samples : list (EARRecord N)) :
  filter (fun r => cutoff + d <? timestamp r) (map (delayed d) samples)
  = map (delayed d) (filter (fun r => cutoff <? timestamp r) samples).
Proof.
  induction samples as [ | r l IH ]; [ reflexivity | ].
  cbn [map filter delayed timestamp].
  replace (cutoff + d <? timestamp r + d) with (cutoff <? timestamp r)
    by (destruct (Z.ltb_spec cutoff (timestamp r));
        symmetry; [ apply Z.ltb_lt | apply Z.ltb_ge ]; lia).
  destruct (cutoff <? timestamp r); cbn [map]; now rewrite IH.
Qed.

Lemma getRecentEARs_later d now this :
  getRecentEARs (now + d) (later d this)
  = map (delayed d) (getRecentEARs now this).
Proof.
  unfold getRecentEARs, later. cbn [earHistory].
  replace (now + d - WINDOW_MS) with (now - WINDOW_MS + d) by lia.
  apply filter_delayed.
Qed.

Lemma calculatePERCLOS_later d now this :
  calculatePERCLOS (now + d) (later d this) = calculatePERCLOS now this.
Proof.
  unfold calculatePERCLOS. rewrite getRecentEARs_later.
  rewrite length_map. cbn [later startTime].
  replace (now + d - (startTime this + d)) with (now - startTime this) by lia.
  unfold calculateClosurePercentage.
  now rewrite length_map, closedTime_shifted.
Qed.

Lemma record_sample_later d avgEAR now this :
  record_sample avgEAR (now + d) (later d this)
  = later d (record_sample avgEAR now this).
Proof.
  unfold record_sample, cleanOldData, later.
  cbn [earHistory startTime lastUpdateTime].
  replace (now + d - WINDOW_MS * 2) with (now - WINDOW_MS * 2 + d) by lia.
  rewrite <- filter_delayed, map_app. reflexivity.
Qed.

Lemma update_later d keypoints now this :
  update keypoints (now + d) (later d this)
  = option_map (later d) (update keypoints now this).
Proof.
  unfold update. destruct (averageEAR keypoints) as [ avgEAR | ];
    [ | reflexivity ].
  cbn [option_map]. now rewrite record_sample_later.
Qed.

Lemma reachable_later d t0 this :
  reachable t0 this -> reachable (t0 + d) (later d this).
Proof.
  induction 1 as [ | this keypoints now this' _ IH Hnow Hup ].
  - apply reach_new.
  - apply (reach_update (t0 + d) (later d this) keypoints (now + d)).
    + exact IH.
    + cbn [later lastUpdateTime]. lia.
    + rewrite update_later, Hup. reflexivity.
Qed.

End ClockShift.

(** X4.  Only differences of clock values count.  On a clock that runs
    [d] ms ahead, every run gives the same results: [update] at [now + d]
    on the map (delayed d)etector gives the shifted result of [update] at [now]
    (and throws when that throws), PERCLOS and the whole score at [now + d]
    are those of the original at [now], and the map (delayed d)etector of one a
    program can hold is one a program can hold. *)
Theorem X4_results_depend_on_clock_differences_only
        (N : JSNumber) (d now : Z) (this : PERCLOSDetector N)
        (keypoints : list (Keypoint N)) :
  update keypoints (now + d) (later d this)
  = option_map (later d) (update keypoints now this)
  /\ calculatePERCLOS (now + d) (later d this) = calculatePERCLOS now this
  /\ getScore (now + d) (later d this) = getScore now this
  /\ (forall t0, reachable t0 this -> reachable (t0 + d) (later d this)).
Proof.
  split; [ apply update_later | ].
  split; [ apply calculatePERCLOS_later | ].
  split; [ unfold getScore; now rewrite calculatePERCLOS_later | ].
  intros t0. apply reachable_later.
Qed.

(** ** How much closed time a window can hold *)

Section ClosedTimeBound.

Context {N : JSNumber}.
Implicit Types (this : PERCLOSDetector N) (r : EARRecord N).

Lemma chronological_cons_inv r (rest : list (EARRecord N)) :
  chronological (r :: rest) ->
  chronological rest
  /\ (forall r', In r' rest -> timestamp r <= timestamp r').
Proof.
  unfold chronological. cbn [map]. intros Hs.
  apply StronglySorted_inv in Hs. destruct Hs as [Hs Hr].
  rewrite Forall_forall in Hr. split; [ exact Hs | ].
  intros r' Hin. apply Hr, in_map, Hin.
Qed.

(** After a sample taken at [t], the frames of samples taken up to [hi]
    last twice the time left at most. *)
Lemma spec_closed_time_after_le hi (rest : list (EARRecord N)) :
  forall t,
    chronological rest ->
    (forall r, In r rest -> t <= timestamp r <= hi) ->
    spec_closed_time (Some t) rest
    <= match rest with
       | [] => 0
       | r :: _ => (hi - timestamp r) + Z.max (hi - timestamp r) (timestamp r - t)
       end.
Proof.
  induction rest as [ | r rest IH ]; intros t Hs Hin; [ cbn; lia | ].
  destruct (chronological_cons_inv r rest Hs) as [Hs' Hr].
  pose proof (Hin r (or_introl eq_refl)) as Hrt.
  assert (forall r', In r' rest -> timestamp r <= timestamp r' <= hi) as Hin'.
  { intros r' Hr'. split; [ now apply Hr | ]. apply Hin. now right. }
  specialize (IH (timestamp r) Hs' Hin').
  cbn [spec_closed_time].
  destruct rest as [ | next rest' ].
  - cbn [spec_closed_time]. destruct (ear r <? EAR_THRESHOLD)%js; lia.
  - pose proof (Hin' next (or_introl eq_refl)) as Hnext.
    destruct (ear r <? EAR_THRESHOLD)%js; lia.
Qed.

Lemma spec_closed_time_le lo hi (samples : list (EARRecord N)) :
  chronological samples ->
  (forall r, In r samples -> lo <= timestamp r <= hi) ->
  spec_closed_time None samples <= Z.max 33 (2 * (hi - lo)).
Proof.
  intros Hs Hin. destruct samples as [ | r rest ]; [ cbn; lia | ].
  destruct (chronological_cons_inv r rest Hs) as [Hs' Hr].
  pose proof (Hin r (or_introl eq_refl)) as Hrt.
  assert (forall r', In r' rest -> timestamp r <= timestamp r' <= hi) as Hin'.
  { intros r' Hr'. split; [ now apply Hr | ]. apply Hin. now right. }
  pose proof (spec_closed_time_after_le hi rest (timestamp r) Hs' Hin') as Hle.
  cbn [spec_closed_time].
  destruct rest as [ | next rest' ].
  - cbn [spec_closed_time]. destruct (ear r <? EAR_THRESHOLD)%js; lia.
  - pose proof (Hin' next (or_introl eq_refl)) as Hnext.
    destruct (ear r <? EAR_THRESHOLD)%js; lia.
Qed.

Lemma recent_closedTime_le t0 now this :
  reachable t0 this -> lastUpdateTime this <= now ->
  0 <= closedTime (getRecentEARs now this)
    <= Z.max 33 (2 * Z.min (now - t0) (WINDOW_MS - 1)).
Proof.
  intros Hreach Hnow.
  destruct (reachable_well_formed t0 this Hreach) as [_ _ Ho Hr].
  pose proof (recent_chronological now this Ho) as Hs.
  split; [ now apply closedTime_nonneg | ].
  rewrite closedTime_spec.
  replace (Z.min (now - t0) (WINDOW_MS - 1))
    with (now - Z.max t0 (now - (WINDOW_MS - 1))) by lia.
  apply spec_closed_time_le; [ exact Hs | ].
  intros r Hin. apply getRecentEARs_In in Hin. destruct Hin as [Hin Hrec].
  specialize (Hr r Hin). unfold WINDOW_MS. lia.
Qed.

End ClosedTimeBound.

(** X5.  The closed time of a window is bounded by twice the window, not
    by the window.  For every detector a program can hold, asked at a clock
    value [now] not before its last update, the closed time of the recent
    samples is between 0 and max(33, 2 x min(now - t0, 59999)): the last
    frame is given the duration of the frame before it, so the frames can
    add up to almost twice the time the samples span.  The bound is
    reached: after two frames with closed eyes, at 0 and at 1000 ms,
    [getScore] at 1000 ms finds 2000 ms of closed time in a window of
    1000 ms, PERCLOS 200 and the score 0. *)
Theorem X5_closed_time_is_at_most_twice_the_window :
  (forall (N : JSNumber) (t0 now : Z) (this : PERCLOSDetector N),
      reachable t0 this ->
      lastUpdateTime this <= now ->
      0 <= closedTime (getRecentEARs now this)
        <= Z.max 33 (2 * Z.min (now - t0) (WINDOW_MS - 1)))
  /\ (forall this : PERCLOSDetector binary64,
         update (face 10 1) 0 (new 0) = Some this ->
         forall this' : PERCLOSDetector binary64,
           update (face 10 1) 1000 this = Some this' ->
           closedTime (getRecentEARs 1000 this') = 2000
           /\ getScore 1000 this'
              = {| score := 0%float; level := level_fatigue;
                   details := 200%float |}).
Proof.
  split; [ intros N; apply recent_closedTime_le | ].
  intros this Hup this' Hup'.
  vm_compute in Hup. injection Hup as <-.
  vm_compute in Hup'. injection Hup' as <-.
  vm_compute. split; reflexivity.
Qed.

Lemma X5_witness :
  0 <= closedTime (getRecentEARs 2000 Scenario.three_samples)
    <= Z.max 33 (2 * Z.min (2000 - 0) (WINDOW_MS - 1)).
Proof.
  apply (proj1 X5_closed_time_is_at_most_twice_the_window binary64 0 2000).
  - apply (reach_update 0 (detector 0 [sample 0 0.1; sample 1000 0.1])%float
                        (face 10 3) 2000).
    + apply (reach_update 0 (detector 0 [sample 0 0.1])%float
                          (face 10 1) 1000).
      * apply (reach_update 0 (new 0) (face 10 1) 0).
        -- apply reach_new.
        -- cbn. lia.
        -- vm_compute. reflexivity.
      * cbn. lia.
      * vm_compute. reflexivity.
    + cbn. lia.
    + vm_compute. reflexivity.
  - cbn. lia.
Defined.

(** ** Rounding in binary64, below a representable bound

    The counterpart of the section on rounding above a bound: a value that
    is exact before it is rounded stays at or below every double it was at
    or below. *)

Section RoundingBelow64.

Lemma shr_1_inexact mrs :
  0 <= shr_m mrs ->
  Z.even (shr_m mrs) = true -> inexact mrs = false ->
  inexact (shr_1 mrs) = false.
Proof.
  destruct mrs as [ m r s ]. unfold inexact. cbn [shr_m shr_r shr_s].
  intros Hm He Hi.
  destruct m as [ | [ p | p | ] | p ]; cbn in He; cbn [shr_1 shr_r shr_s];
    try discriminate He; try lia; rewrite Hi; reflexivity.
Qed.

Lemma pow2_divide a b : 0 <= a <= b -> (2 ^ a | 2 ^ b).
Proof.
  intros H. exists (2 ^ (b - a)).
  rewrite <- Z.pow_add_r by lia. f_equal. lia.
Qed.

(** A shift to the right that drops only zeros is exact. *)
Lemma iter_pos_shr_1_inexact (p : positive) :
  forall mrs, 0 <= shr_m mrs ->
              (2 ^ Zpos p | shr_m mrs) -> inexact mrs = false ->
              inexact (iter_pos shr_1 p mrs) = false.
Proof.
  assert (forall m k, 0 <= m -> 0 < k -> (2 ^ k | m) -> Z.even m = true)
    as Heven.
  { intros m k Hm Hk [q Hq]. apply Z.even_spec. exists (q * 2 ^ (k - 1)).
    replace k with (Z.succ (k - 1)) in Hq by lia.
    rewrite Z.pow_succ_r in Hq by lia. lia. }
  assert (forall m a b, 0 <= m -> 0 < a -> 0 <= b ->
                        (a * 2 ^ b | m) -> (a | m / 2 ^ b)) as Hquot.
  { intros m a b Hm Ha Hb [q Hq]. exists q.
    pose proof (pow2_pos b Hb).
    replace m with (q * a * 2 ^ b) by lia.
    now rewrite Z.div_mul by lia. }
  induction p as [ p IH | p IH | ]; intros mrs Hm Hd Hi; cbn [iter_pos].
  - rewrite pow2_xI in Hd.
    assert (0 <= shr_m (shr_1 mrs)) as H1
        by (rewrite shr_1_m by assumption; apply Z.div_pos; lia).
    assert (0 <= shr_m (iter_pos shr_1 p (shr_1 mrs))) as H2
        by (rewrite iter_pos_shr_1 by assumption; apply Z.div_pos;
            [ lia | apply pow2_pos; lia ]).
    pose proof (pow2_pos (Zpos p) ltac:(lia)) as Hp.
    assert ((2 ^ Zpos p * 2 ^ Zpos p | shr_m (shr_1 mrs))) as Hd1.
    { rewrite shr_1_m by assumption.
      replace 2 with (2 ^ 1) at 3 by reflexivity.
      apply Hquot; [ exact Hm | nia | lia | ].
      change (2 ^ 1) with 2.
      now replace (2 ^ Zpos p * 2 ^ Zpos p * 2)
        with (2 * (2 ^ Zpos p * 2 ^ Zpos p)) by lia. }
    apply IH; [ exact H2 | | ].
    + rewrite iter_pos_shr_1 by assumption.
      apply Hquot; [ exact H1 | exact Hp | lia | exact Hd1 ].
    + apply IH; [ exact H1 | | ].
      * apply Z.divide_trans with (2 ^ Zpos p * 2 ^ Zpos p);
          [ now exists (2 ^ Zpos p) | exact Hd1 ].
      * apply shr_1_inexact; [ exact Hm | | exact Hi ].
        apply (Heven _ 1 Hm ltac:(lia)). change (2 ^ 1) with 2.
        apply Z.divide_trans with (2 * (2 ^ Zpos p * 2 ^ Zpos p));
          [ now exists (2 ^ Zpos p * 2 ^ Zpos p); lia | exact Hd ].
  - rewrite pow2_xO in Hd.
    assert (0 <= shr_m (iter_pos shr_1 p mrs)) as H2
        by (rewrite iter_pos_shr_1 by assumption; apply Z.div_pos;
            [ lia | apply pow2_pos; lia ]).
    pose proof (pow2_pos (Zpos p) ltac:(lia)) as Hp.
    apply IH; [ exact H2 | | ].
    + rewrite iter_pos_shr_1 by assumption.
      apply Hquot; [ exact Hm | exact Hp | lia | exact Hd ].
    + apply IH; [ exact Hm | | exact Hi ].
      apply Z.divide_trans with (2 ^ Zpos p * 2 ^ Zpos p);
        [ now exists (2 ^ Zpos p) | exact Hd ].
  - apply shr_1_inexact; [ exact Hm | | exact Hi ].
    apply (Heven _ 1 Hm ltac:(lia)). exact Hd.
Qed.

Lemma loc_of_exact mrs : inexact mrs = false -> loc_of_shr_record mrs = loc_Exact.
Proof.
  destruct mrs as [ m [ | ] [ | ] ]; unfold inexact; cbn; congruence.
Qed.

Lemma round_nearest_even_le m l : round_nearest_even m l <= m + 1.
Proof.
  destruct l as [ | [ | | ] ]; cbn [round_nearest_even]; try lia.
  destruct (Z.even m); lia.
Qed.

Lemma magnitude_le (m1 m2 : positive) (e1 e2 : Z) :
  -2200 <= e1 -> -2200 <= e2 ->
  scaled (Zpos m1) e1 <= scaled (Zpos m2) e2 ->
  Zpos (digits2_pos m1) + e1 <= Zpos (digits2_pos m2) + e2.
Proof.
  intros H1 H2 Hle.
  destruct (Z_lt_le_dec (Zpos (digits2_pos m2) + e2)
                        (Zpos (digits2_pos m1) + e1)) as [Hlt | Hge];
    [ | exact Hge ].
  pose proof (scaled_lt_of_magnitude m2 m1 e2 e1 H2 H1 Hlt). lia.
Qed.

(** Cutting an exact value down to the precision of binary64 and rounding
    it to nearest does not take it above a representable number that it
    is not above. *)
Lemma shr_fexp_le (mx mc : positive) (e ec : Z) :
  canonical mc ec -> -2200 <= e ->
  scaled (Zpos mx) e <= scaled (Zpos mc) ec ->
  let mrs' := fst (shr_fexp prec emax (Zpos mx) e loc_Exact) in
  let e' := snd (shr_fexp prec emax (Zpos mx) e loc_Exact) in
  -2200 <= e' /\ e' <= Z.max e ec /\ 0 <= shr_m mrs'
  /\ scaled (round_nearest_even (shr_m mrs') (loc_of_shr_record mrs')) e'
     <= scaled (Zpos mc) ec.
Proof.
  intros Hc He Hle. cbv zeta.
  pose proof (canonical_bounds mc ec Hc) as [Hbc Hdc].
  pose proof (magnitude_le mx mc e ec He ltac:(lia) Hle) as Hmag.
  unfold canonical in Hc. rewrite fexp_eq in Hc.
  unfold shr_fexp, shr. cbn [Zdigits2]. rewrite fexp_eq.
  set (d := Zpos (digits2_pos mx)) in *.
  set (dc := Zpos (digits2_pos mc)) in *.
  destruct (Z.max (d + e - 53) (-1074) - e) as [ | n | n ] eqn:Hn;
    cbn [fst snd];
    try (rewrite shr_record_of_loc_m; cbn [shr_record_of_loc
           loc_of_shr_record round_nearest_even]; lia).
  set (mrs := iter_pos shr_1 n (shr_record_of_loc (Zpos mx) loc_Exact)).
  assert (shr_m mrs = Zpos mx / 2 ^ Zpos n) as Hm
      by (subst mrs; rewrite iter_pos_shr_1, shr_record_of_loc_m;
          [ reflexivity | rewrite shr_record_of_loc_m; lia ]).
  pose proof (pow2_pos (Zpos n) ltac:(lia)) as Hpn.
  pose proof (pow2_pos (e + 2200) ltac:(lia)) as Hpe.
  set (e' := e + Zpos n) in *.
  assert (e' <= ec) as He' by lia.
  pose proof (pow2_pos (e' + 2200) ltac:(lia)) as Hpe'.
  pose proof (pow2_pos (ec - e') ltac:(lia)) as Hpc.
  assert (2 ^ (e' + 2200) = 2 ^ Zpos n * 2 ^ (e + 2200)) as Hsplit
      by (rewrite <- Z.pow_add_r by lia; f_equal; lia).
  assert (2 ^ (ec + 2200) = 2 ^ (ec - e') * 2 ^ (e' + 2200)) as Hsplitc
      by (rewrite <- Z.pow_add_r by lia; f_equal; lia).
  set (C := Zpos mc * 2 ^ (ec - e')).
  assert (scaled (Zpos mc) ec = C * 2 ^ (e' + 2200)) as HC
      by (unfold scaled, C; rewrite Hsplitc; ring).
  assert (Zpos mx <= C * 2 ^ Zpos n) as Hmx
      by (unfold scaled in Hle, HC; rewrite HC, Hsplit in Hle; nia).
  assert (0 <= shr_m mrs) as Hm0
      by (rewrite Hm; apply Z.div_pos; lia).
  split; [ lia | ]. split; [ lia | ]. split; [ exact Hm0 | ].
  rewrite HC. unfold scaled.
  apply Z.mul_le_mono_nonneg_r; [ lia | ].
  pose proof (round_nearest_even_le (shr_m mrs) (loc_of_shr_record mrs))
    as Hup.
  assert (shr_m mrs <= C) as HmC
      by (rewrite Hm; apply Z.div_le_upper_bound; lia).
  destruct (Z.eq_dec (shr_m mrs) C) as [Heq | Hne]; [ | lia ].
  (* the value is on the grid: nothing is dropped *)
  assert (Zpos mx = C * 2 ^ Zpos n) as Hexact.
  { pose proof (Z.mul_div_le (Zpos mx) (2 ^ Zpos n) Hpn) as Hfloor.
    rewrite <- Hm, Heq in Hfloor. lia. }
  assert (inexact mrs = false) as Hi.
  { subst mrs. apply iter_pos_shr_1_inexact.
    - rewrite shr_record_of_loc_m. lia.
    - rewrite shr_record_of_loc_m, Hexact. now exists C.
    - reflexivity. }
  rewrite (loc_of_exact mrs Hi). cbn [round_nearest_even]. lia.
Qed.

(** Cutting a rounded mantissa again only drops digits. *)
Lemma shr_fexp_floor (m : positive) (e : Z) :
  -2200 <= e ->
  let mrs' := fst (shr_fexp prec emax (Zpos m) e loc_Exact) in
  let e' := snd (shr_fexp prec emax (Zpos m) e loc_Exact) in
  0 <= shr_m mrs'
  /\ scaled (shr_m mrs') e' <= scaled (Zpos m) e
  /\ e' = Z.max e (fexp prec emax (Zpos (digits2_pos m) + e)).
Proof.
  intros He. cbv zeta. unfold shr_fexp, shr. cbn [Zdigits2].
  set (f := fexp prec emax (Zpos (digits2_pos m) + e)).
  destruct (f - e) as [ | n | n ] eqn:Hn; cbn [fst snd];
    try (rewrite shr_record_of_loc_m; lia).
  rewrite iter_pos_shr_1, shr_record_of_loc_m
    by (rewrite shr_record_of_loc_m; lia).
  pose proof (pow2_pos (Zpos n) ltac:(lia)) as Hpn.
  pose proof (pow2_pos (e + 2200) ltac:(lia)) as Hpe.
  split; [ apply Z.div_pos; lia | ]. split; [ | lia ].
  unfold scaled.
  replace (e + Zpos n + 2200) with (Zpos n + (e + 2200)) by lia.
  rewrite (Z.pow_add_r 2 (Zpos n) (e + 2200)) by lia.
  pose proof (Z.mul_div_le (Zpos m) (2 ^ Zpos n) Hpn). nia.
Qed.

(** Rounding an exact value to nearest does not take it above a
    representable number that it is not above: the result is a zero or a
    number that is that number at most; it is never infinite. *)
Lemma binary_round_aux_le (sx : bool) (mx mc : positive) (ex ec : Z) :
  canonical mc ec -> ec <= 971 -> -2200 <= ex <= 971 ->
  scaled (Zpos mx) ex <= scaled (Zpos mc) ec ->
  match binary_round_aux prec emax sx (Zpos mx) ex loc_Exact with
  | S754_zero s => s = sx
  | S754_finite s m e => s = sx /\ scaled (Zpos m) e <= scaled (Zpos mc) ec
  | _ => False
  end.
Proof.
  intros Hc Hec Hex Hle. unfold binary_round_aux.
  pose proof (canonical_bounds mc ec Hc) as [Hbc Hdc].
  pose proof (shr_fexp_le mx mc ex ec Hc ltac:(lia) Hle) as H1.
  cbv zeta in H1.
  destruct (shr_fexp prec emax (Zpos mx) ex loc_Exact) as [mrs' e'].
  cbn [fst snd] in H1. destruct H1 as (He1 & He1' & Hm1 & H1).
  pose proof (round_nearest_even_ge (shr_m mrs') (loc_of_shr_record mrs'))
    as Hr.
  set (m2 := round_nearest_even (shr_m mrs') (loc_of_shr_record mrs')) in *.
  destruct m2 as [ | p2 | p2 ]; try lia.
  - (* rounded to zero *)
    unfold shr_fexp, shr. cbn [Zdigits2].
    destruct (fexp prec emax (0 + e') - e') as [ | n | n ];
      try reflexivity.
    assert (shr_m (iter_pos shr_1 n (shr_record_of_loc 0 loc_Exact)) = 0)
      as H0 by (rewrite iter_pos_shr_1 by (cbn; lia); reflexivity).
    now rewrite H0.
  - pose proof (shr_fexp_floor p2 e' He1) as H2. cbv zeta in H2.
    pose proof (magnitude_le p2 mc e' ec He1 ltac:(lia) H1) as Hmag.
    destruct (shr_fexp prec emax (Zpos p2) e' loc_Exact) as [mrs'' e''].
    cbn [fst snd] in H2. destruct H2 as (Hm2 & H2 & He2).
    unfold canonical in Hc. rewrite fexp_eq in Hc, He2.
    destruct (shr_m mrs'') as [ | p3 | p3 ]; try lia; [ reflexivity | ].
    replace (e'' <=? emax - prec) with true
      by (symmetry; apply Z.leb_le; unfold emax, prec; lia).
    split; [ reflexivity | lia ].
Qed.

Lemma binary_round_le (sx : bool) (mx mc : positive) (ex ec : Z) :
  canonical mc ec -> ec <= 971 -> -2200 <= ex <= 971 ->
  scaled (Zpos mx) ex <= scaled (Zpos mc) ec ->
  match binary_round prec emax sx mx ex with
  | S754_zero s => s = sx
  | S754_finite s m e => s = sx /\ scaled (Zpos m) e <= scaled (Zpos mc) ec
  | _ => False
  end.
Proof.
  intros Hc Hec Hex Hle. unfold binary_round.
  destruct (shl_align_scaled mx ex
              (fexp prec emax (Zpos (digits2_pos mx) + ex)) ltac:(lia))
    as (Hv & He' & Hmin); [ rewrite fexp_eq; lia | ].
  destruct (shl_align mx ex (fexp prec emax (Zpos (digits2_pos mx) + ex)))
    as [mz ez]. cbn [fst snd] in Hv, He', Hmin.
  apply binary_round_aux_le; [ exact Hc | exact Hec | lia | lia ].
Qed.

End RoundingBelow64.

(** ** The operations of binary64 between representable bounds *)

Section Operations64.

Lemma aligned (mx my : positive) (ex ey : Z) :
  -1074 <= ex -> -1074 <= ey ->
  scaled (Zpos (fst (shl_align mx ex (Z.min ex ey)))) (Z.min ex ey)
  = scaled (Zpos mx) ex
  /\ scaled (Zpos (fst (shl_align my ey (Z.min ex ey)))) (Z.min ex ey)
     = scaled (Zpos my) ey.
Proof.
  intros Hx Hy.
  destruct (shl_align_scaled mx ex (Z.min ex ey)) as (Ha & _ & Hea); try lia.
  destruct (shl_align_scaled my ey (Z.min ex ey)) as (Hb & _ & Heb); try lia.
  replace (Z.min ex (Z.min ex ey)) with (Z.min ex ey) in Hea by lia.
  replace (Z.min ey (Z.min ex ey)) with (Z.min ex ey) in Heb by lia.
  rewrite Hea in Ha. rewrite Heb in Hb. split; assumption.
Qed.

Lemma scaled_add a b e : scaled (a + b) e = scaled a e + scaled b e.
Proof. unfold scaled. ring. Qed.

Lemma scaled_sign m e : -2200 <= e -> (0 < scaled m e <-> 0 < m)
                                      /\ (scaled m e < 0 <-> m < 0)
                                      /\ (scaled m e = 0 <-> m = 0).
Proof.
  intros He. unfold scaled. pose proof (pow2_pos (e + 2200) ltac:(lia)). nia.
Qed.

(** The difference of two positive numbers, by its exact value [v]. *)
Lemma SFsub_finite (mx my : positive) (ex ey : Z) :
  canonical mx ex -> canonical my ey -> ex <= 971 -> ey <= 971 ->
  let r := SFsub prec emax (S754_finite false mx ex) (S754_finite false my ey) in
  let v := scaled (Zpos mx) ex - scaled (Zpos my) ey in
  (0 <= v -> from_zero r)
  /\ (v <= 0 -> at_most_zero r)
  /\ (forall mc ec, canonical mc ec ->
                    scaled (Zpos mc) ec <= v -> at_least mc ec r)
  /\ (forall mc ec, canonical mc ec -> ec <= 971 ->
                    v <= scaled (Zpos mc) ec -> at_most mc ec r).
Proof.
  intros Hx Hy Hex Hey. cbv zeta.
  pose proof (canonical_bounds mx ex Hx) as [Hbx _].
  pose proof (canonical_bounds my ey Hy) as [Hby _].
  cbn [SFsub cond_Zopp].
  destruct (aligned mx my ex ey Hbx Hby) as [Ha Hb].
  set (ez := Z.min ex ey) in *.
  set (a := Zpos (fst (shl_align mx ex ez))) in *.
  set (b := Zpos (fst (shl_align my ey ez))) in *.
  rewrite <- Ha, <- Hb, <- scaled_sub.
  destruct (scaled_sign (a - b) ez ltac:(lia)) as (Hpos & Hneg & Hzero).
  destruct (a - b) as [ | d | d ] eqn:Hd; cbn [binary_normalize].
  - repeat split; try exact I.
    + intros mc ec Hc Hle. pose proof (scaled_pos mc ec) as Hp.
      pose proof (canonical_bounds mc ec Hc). lia.
  - pose proof (binary_round_sign false d ez) as Hs.
    repeat split.
    + intros _. destruct (binary_round prec emax false d ez);
        cbn [from_zero]; try exact I; try exact Hs; contradiction.
    + lia.
    + intros mc ec Hc Hle.
      pose proof (binary_round_ge false d mc ez ec Hc ltac:(lia) Hle) as Hr.
      destruct (binary_round prec emax false d ez) as [ s | s | | s m e ];
        cbn [at_least]; try contradiction.
      * now subst s.
      * destruct Hr as [-> Hr]. exact Hr.
    + intros mc ec Hc Hec Hle.
      pose proof (binary_round_le false d mc ez ec Hc Hec ltac:(lia) Hle)
        as Hr.
      destruct (binary_round prec emax false d ez) as [ s | s | | s m e ];
        cbn [at_most]; try contradiction; [ exact I | ].
      destruct Hr as [-> Hr]. exact Hr.
  - pose proof (binary_round_sign true d ez) as Hs.
    repeat split.
    + lia.
    + intros _. destruct (binary_round prec emax true d ez);
        cbn [at_most_zero]; try exact I; try contradiction;
        subst; exact I.
    + intros mc ec Hc Hle. pose proof (scaled_pos mc ec) as Hp.
      pose proof (canonical_bounds mc ec Hc). lia.
    + intros mc ec Hc Hec Hle.
      destruct (binary_round prec emax true d ez);
        cbn [at_most]; try exact I; try contradiction; subst; exact I.
Qed.

(** The sum of two positive numbers, by its exact value. *)
Lemma SFadd_finite (mx my : positive) (ex ey : Z) :
  canonical mx ex -> canonical my ey -> ex <= 971 -> ey <= 971 ->
  let r := SFadd prec emax (S754_finite false mx ex) (S754_finite false my ey) in
  let v := scaled (Zpos mx) ex + scaled (Zpos my) ey in
  (forall mc ec, canonical mc ec ->
                 scaled (Zpos mc) ec <= v -> at_least mc ec r)
  /\ (forall mc ec, canonical mc ec -> ec <= 971 ->
                    v <= scaled (Zpos mc) ec -> at_most mc ec r).
Proof.
  intros Hx Hy Hex Hey. cbv zeta.
  pose proof (canonical_bounds mx ex Hx) as [Hbx _].
  pose proof (canonical_bounds my ey Hy) as [Hby _].
  cbn [SFadd cond_Zopp].
  destruct (aligned mx my ex ey Hbx Hby) as [Ha Hb].
  set (ez := Z.min ex ey) in *.
  set (a := fst (shl_align mx ex ez)) in *.
  set (b := fst (shl_align my ey ez)) in *.
  rewrite <- Ha, <- Hb, <- scaled_add.
  change (Zpos a + Zpos b) with (Zpos (a + b)). cbn [binary_normalize].
  split.
  - intros mc ec Hc Hle.
    pose proof (binary_round_ge false (a + b) mc ez ec Hc ltac:(lia) Hle)
      as Hr.
    destruct (binary_round prec emax false (a + b) ez) as [ s | s | | s m e ];
      cbn [at_least]; try contradiction.
    + now subst s.
    + destruct Hr as [-> Hr]. exact Hr.
  - intros mc ec Hc Hec Hle.
    pose proof (binary_round_le false (a + b) mc ez ec Hc Hec ltac:(lia) Hle)
      as Hr.
    destruct (binary_round prec emax false (a + b) ez) as [ s | s | | s m e ];
      cbn [at_most]; try contradiction; [ exact I | ].
    destruct Hr as [-> Hr]. exact Hr.
Qed.

Lemma scaled_mul (a b : Z) (ea eb : Z) :
  -2200 <= ea + eb -> -2200 <= ea -> -2200 <= eb ->
  scaled (a * b) (ea + eb) * 2 ^ 2200 = scaled a ea * scaled b eb.
Proof.
  intros H H1 H2. unfold scaled.
  assert (2 ^ (ea + eb + 2200) * 2 ^ 2200
          = 2 ^ (ea + 2200) * 2 ^ (eb + 2200)) as E
      by (rewrite <- !Z.pow_add_r by lia; f_equal; lia).
  transitivity (a * b * (2 ^ (ea + eb + 2200) * 2 ^ 2200)); [ ring | ].
  rewrite E. ring.
Qed.

(** The product of two positive numbers, by its exact value. *)
Lemma SFmul_finite (mx my : positive) (ex ey : Z) :
  canonical mx ex -> canonical my ey -> ex + ey <= 971 ->
  let r := SFmul prec emax (S754_finite false mx ex) (S754_finite false my ey) in
  let v := scaled (Zpos mx) ex * scaled (Zpos my) ey in
  from_zero r
  /\ (forall mc ec, canonical mc ec ->
                    scaled (Zpos mc) ec * 2 ^ 2200 <= v -> at_least mc ec r)
  /\ (forall mc ec, canonical mc ec -> ec <= 971 ->
                    v <= scaled (Zpos mc) ec * 2 ^ 2200 -> at_most mc ec r).
Proof.
  intros Hx Hy Hexy. cbv zeta.
  pose proof (canonical_bounds mx ex Hx) as [Hbx _].
  pose proof (canonical_bounds my ey Hy) as [Hby _].
  cbn [SFmul xorb].
  pose proof (scaled_mul (Zpos mx) (Zpos my) ex ey ltac:(lia) ltac:(lia)
                ltac:(lia)) as Hv.
  rewrite <- Hv. change (Zpos mx * Zpos my) with (Zpos (mx * my)).
  pose proof (pow2_pos 2200 ltac:(lia)) as Hp.
  pose proof (binary_round_aux_sign false (Zpos (mx * my)) (ex + ey) loc_Exact
                ltac:(lia)) as Hs.
  split; [ | split ].
  - destruct (binary_round_aux prec emax false (Zpos (mx * my)) (ex + ey)
                               loc_Exact);
      cbn [from_zero]; try exact I; try exact Hs; contradiction.
  - intros mc ec Hc Hle.
    pose proof (binary_round_aux_ge false (mx * my) mc (ex + ey) ec loc_Exact
                  Hc ltac:(lia) ltac:(nia)) as Hr.
    destruct (binary_round_aux prec emax false (Zpos (mx * my)) (ex + ey)
                               loc_Exact) as [ s | s | | s m e ];
      cbn [at_least]; try contradiction.
    + now subst s.
    + destruct Hr as [-> Hr]. exact Hr.
  - intros mc ec Hc Hec Hle.
    pose proof (binary_round_aux_le false (mx * my) mc (ex + ey) ec
                  Hc Hec ltac:(lia) ltac:(nia)) as Hr.
    destruct (binary_round_aux prec emax false (Zpos (mx * my)) (ex + ey)
                               loc_Exact) as [ s | s | | s m e ];
      cbn [at_most]; try contradiction; [ exact I | ].
    destruct Hr as [-> Hr]. exact Hr.
Qed.

End Operations64.

(** ** The score of every PERCLOS from zero on, in binary64 *)

Section Score64.

#[local] Open Scope float_scope.

Ltac canon := apply canonical_checked; reflexivity.
Ltac checked := apply Z.leb_le; vm_compute; reflexivity.

Lemma from_zero_cases (f : spec_float) :
  valid_binary f = true -> from_zero f ->
  (exists s, f = S754_zero s) \/ f = S754_infinity false
  \/ exists m e, f = S754_finite false m e /\ canonical m e /\ (e <= 971)%Z.
Proof.
  intros Hv Hf. destruct f as [ s | s | | s m e ]; cbn [from_zero] in Hf;
    try contradiction; subst.
  - left. now exists s.
  - right. now left.
  - right. right. exists m, e. apply valid_finite in Hv. now split.
Qed.

(** [x - y] for [x >= y]. *)
Lemma SFsub_from_zero (x : spec_float) (my : positive) (ey : Z) :
  valid_binary x = true -> canonical my ey -> (ey <= 971)%Z ->
  at_least my ey x ->
  from_zero (SFsub prec emax x (S754_finite false my ey)).
Proof.
  intros Hv Hy Hey Hx.
  destruct x as [ s | [ | ] | | [ | ] m e ]; cbn [at_least] in Hx;
    try contradiction; [ reflexivity | ].
  apply valid_finite in Hv. destruct Hv as [Hm He].
  apply (SFsub_finite m my e ey Hm Hy He Hey). lia.
Qed.

(** [x * y] for [x >= 0 < y]. *)
Lemma SFmul_from_zero (x : spec_float) (my : positive) (ey : Z) :
  from_zero x -> from_zero (SFmul prec emax x (S754_finite false my ey)).
Proof.
  destruct x as [ s | s | | s m e ]; cbn [from_zero]; intros Hx;
    try contradiction; subst; cbn [SFmul xorb from_zero];
    try exact I; try reflexivity.
  pose proof (binary_round_aux_sign false (Zpos (m * my)) (e + ey) loc_Exact
                ltac:(lia)) as Hs.
  destruct (binary_round_aux prec emax false (Zpos (m * my)) (e + ey)
                             loc_Exact);
    cbn [from_zero]; try exact I; try exact Hs; contradiction.
Qed.

(** [c - z] for [z >= 0] is [c] at most. *)
Lemma SFsub_const_at_most (z : spec_float) (mc : positive) (ec : Z) :
  valid_binary z = true -> canonical mc ec -> (ec <= 971)%Z ->
  from_zero z ->
  at_most mc ec (SFsub prec emax (S754_finite false mc ec) z).
Proof.
  intros Hv Hc Hec Hz.
  destruct (from_zero_cases z Hv Hz) as [[s ->] | [-> | (m & e & -> & Hm & He)]].
  - cbn [SFsub at_most]. lia.
  - exact I.
  - apply (SFsub_finite mc m ec e Hc Hm Hec He); [ exact Hc | exact Hec | ].
    pose proof (canonical_bounds m e Hm).
    pose proof (scaled_pos m e ltac:(lia)). lia.
Qed.

(** [x - y] for [0 <= x <= h] is [r] at most, when [h - y <= r]. *)
Lemma SFsub_at_most (x : spec_float) (mh my mr : positive) (eh ey er : Z) :
  valid_binary x = true -> from_zero x -> at_most mh eh x ->
  canonical my ey -> (ey <= 971)%Z -> canonical mr er -> (er <= 971)%Z ->
  (scaled (Zpos mh) eh - scaled (Zpos my) ey <= scaled (Zpos mr) er)%Z ->
  at_most mr er (SFsub prec emax x (S754_finite false my ey)).
Proof.
  intros Hv Hz Hx Hy Hey Hr Her Hle.
  destruct (from_zero_cases x Hv Hz) as [[s ->] | [-> | (m & e & -> & Hm & He)]].
  - exact I.
  - contradiction.
  - cbn [at_most] in Hx.
    apply (SFsub_finite m my e ey Hm Hy He Hey); [ exact Hr | exact Her | lia ].
Qed.

(** [x * y] for [0 <= x <= h] is [r] at most, when [h * y <= r]. *)
Lemma SFmul_at_most (x : spec_float) (mh my mr : positive) (eh ey er : Z) :
  valid_binary x = true -> from_zero x -> at_most mh eh x ->
  canonical my ey -> (ey <= 0)%Z -> canonical mr er -> (er <= 971)%Z ->
  (scaled (Zpos mh) eh * scaled (Zpos my) ey
   <= scaled (Zpos mr) er * 2 ^ 2200)%Z ->
  at_most mr er (SFmul prec emax x (S754_finite false my ey)).
Proof.
  intros Hv Hz Hx Hy Hey Hr Her Hle.
  destruct (from_zero_cases x Hv Hz) as [[s ->] | [-> | (m & e & -> & Hm & He)]].
  - exact I.
  - contradiction.
  - cbn [at_most] in Hx.
    apply (SFmul_finite m my e ey Hm Hy ltac:(lia)); [ exact Hr | exact Her | ].
    pose proof (canonical_bounds my ey Hy).
    pose proof (scaled_pos my ey ltac:(lia)).
    pose proof (canonical_bounds m e Hm).
    pose proof (scaled_pos m e ltac:(lia)). nia.
Qed.

(** [c - z] for [0 <= z <= h] is [r] at least, when [c - h >= r]. *)
Lemma SFsub_const_at_least (z : spec_float) (mc mh mr : positive)
      (ec eh er : Z) :
  valid_binary z = true -> from_zero z -> at_most mh eh z ->
  canonical mc ec -> (ec <= 971)%Z -> canonical mh eh -> canonical mr er ->
  (scaled (Zpos mr) er <= scaled (Zpos mc) ec - scaled (Zpos mh) eh)%Z ->
  at_least mr er (SFsub prec emax (S754_finite false mc ec) z).
Proof.
  intros Hv Hz Hx Hc Hec Hh Hr Hle.
  pose proof (canonical_bounds mh eh Hh).
  pose proof (scaled_pos mh eh ltac:(lia)).
  destruct (from_zero_cases z Hv Hz) as [[s ->] | [-> | (m & e & -> & Hm & He)]].
  - cbn [SFsub at_least]. lia.
  - contradiction.
  - cbn [at_most] in Hx.
    apply (SFsub_finite mc m ec e Hc Hm Hec He); [ exact Hr | lia ].
Qed.

(** A number from zero on that [c] is not below or equal to is [c] at
    most. *)
Lemma SFleb_false_at_most (f : spec_float) (mc : positive) (ec : Z) :
  valid_binary f = true -> from_zero f -> canonical mc ec ->
  SFleb (S754_finite false mc ec) f = false -> at_most mc ec f.
Proof.
  intros Hv Hz Hc Hle.
  destruct (from_zero_cases f Hv Hz) as [[s ->] | [-> | (m & e & -> & Hm & He)]].
  - exact I.
  - discriminate Hle.
  - unfold SFleb in Hle. rewrite SFcompare_scaled in Hle by assumption.
    cbn [at_most].
    destruct (Z.compare_spec (scaled (Zpos mc) ec) (scaled (Zpos m) e));
      try discriminate Hle; lia.
Qed.

Lemma SFeqb_refl (f : spec_float) : f <> S754_nan -> SFeqb f f = true.
Proof.
  unfold SFeqb. destruct f as [ s | [ | ] | | [ | ] m e ]; intros Hn;
    cbn [SFcompare]; try reflexivity; try congruence;
    rewrite Z.compare_refl;
    change (Pos.compare_cont Eq m m) with (Pos.compare m m);
    now rewrite Pos.compare_refl.
Qed.

Lemma is_nan_false (y : float) :
  Prim2SF y <> S754_nan -> PrimFloat.is_nan y = false.
Proof.
  intros Hn. unfold PrimFloat.is_nan.
  now rewrite FloatAxioms.eqb_spec, SFeqb_refl.
Qed.

(** [Math.max(0, y)] for [y <= c] is [+0] or a positive number that is [c]
    at most. *)
Lemma max_0_zero_to (y : float) (mc : positive) (ec : Z) :
  at_most mc ec (Prim2SF y) -> zero_to mc ec (Prim2SF (Float64.max 0 y)).
Proof.
  intros Hy. unfold Float64.max.
  rewrite (is_nan_false y)
    by (intros E; rewrite E in Hy; exact Hy).
  change (PrimFloat.is_nan 0 || false)%bool with false. cbv iota.
  rewrite !FloatAxioms.ltb_spec. change (Prim2SF 0) with (S754_zero false).
  destruct (Prim2SF y) as [ s | [ | ] | | [ | ] m e ] eqn:E;
    cbn [at_most] in Hy; try contradiction;
    unfold SFltb; cbn [SFcompare]; cbv iota.
  - change (PrimFloat.is_zero 0) with true. cbv iota.
    rewrite FloatAxioms.add_spec, E. change (Prim2SF 0) with (S754_zero false).
    now destruct s.
  - exact I.
  - exact I.
  - rewrite E. exact Hy.
Qed.

(** Two doubles with the same sign, mantissa and exponent are the same. *)
Lemma same64_eq (a b : float) : same64 a b = true -> a = b.
Proof.
  unfold same64. intros H. apply Prim2SF_inj.
  destruct (Prim2SF a) as [ s | s | | s m e ],
           (Prim2SF b) as [ s' | s' | | s' m' e' ];
    try discriminate H; try reflexivity.
  - apply Bool.eqb_prop in H. now subst.
  - apply Bool.eqb_prop in H. now subst.
  - apply andb_true_iff in H. destruct H as [H He].
    apply andb_true_iff in H. destruct H as [Hs Hm].
    apply Bool.eqb_prop in Hs. apply Pos.eqb_eq in Hm. apply Z.eqb_eq in He.
    now subst.
Qed.

Lemma round_table (n : Z) (b1 b2 : bool) :
  (0 <= n <= 100)%Z ->
  round_from (two52_plus n) b1 b2
  = Float64.of_Z (n - (if b1 then 1 else 0) + (if b2 then 0 else 1)).
Proof.
  intros Hn. apply same64_eq.
  assert (round_table_checked = true) as Hall by (vm_compute; reflexivity).
  unfold round_table_checked in Hall. rewrite forallb_forall in Hall.
  assert (In n (map Z.of_nat (seq 0 101))) as Hin.
  { apply in_map_iff. exists (Z.to_nat n). split; [ lia | ].
    apply in_seq. lia. }
  specialize (Hall n Hin). rewrite forallb_forall in Hall.
  assert (In b1 [true; false]) as H1 by (destruct b1; cbn; tauto).
  specialize (Hall b1 H1). rewrite forallb_forall in Hall.
  assert (In b2 [true; false]) as H2 by (destruct b2; cbn; tauto).
  exact (Hall b2 H2).
Qed.

(** A double between 2^52 and 2^52 + 100 is 2^52 + n. *)
Lemma two52_plus_cases (f : float) :
  at_least 4503599627370496 0 (Prim2SF f) ->
  at_most 4503599627370596 0 (Prim2SF f) ->
  exists n : Z, (0 <= n <= 100)%Z /\ f = two52_plus n
                /\ Prim2SF f
                   = S754_finite false (Z.to_pos (4503599627370496 + n)) 0.
Proof.
  intros Hlo Hhi. pose proof (Prim2SF_valid f) as Hv.
  destruct (Prim2SF f) as [ s | [ | ] | | [ | ] m e ] eqn:E;
    cbn [at_least at_most] in Hlo, Hhi; try contradiction.
  apply valid_finite in Hv. destruct Hv as [Hm He].
  pose proof (canonical_bounds m e Hm) as [Hbe _].
  pose proof (magnitude_le 4503599627370496 m 0 e ltac:(lia) ltac:(lia) Hlo)
    as H1.
  pose proof (magnitude_le m 4503599627370596 e 0 ltac:(lia) ltac:(lia) Hhi)
    as H2.
  change (Zpos (digits2_pos 4503599627370496)) with 53%Z in H1.
  change (Zpos (digits2_pos 4503599627370596)) with 53%Z in H2.
  assert (e = 0%Z) as -> by (unfold canonical in Hm; rewrite fexp_eq in Hm; lia).
  unfold scaled in Hlo, Hhi.
  pose proof (pow2_pos (0 + 2200) ltac:(lia)) as Hp.
  assert (4503599627370496 <= Zpos m <= 4503599627370596)%Z as Hr by nia.
  exists (Zpos m - 4503599627370496)%Z.
  assert (Z.to_pos (4503599627370496 + (Zpos m - 4503599627370496)) = m)
    as Em.
  { replace (4503599627370496 + (Zpos m - 4503599627370496))%Z
      with (Zpos m) by lia. reflexivity. }
  split; [ lia | ]. unfold two52_plus. rewrite Em. split; [ | reflexivity ].
  now rewrite <- E, SF2Prim_Prim2SF.
Qed.

(** [Math.round] of [+0] or of a positive double up to 100 is an integer
    from 0 to 100, and one from 80 on when the double is 80 at least. *)
Lemma round_zero_to_100 (x : float) :
  zero_to 7036874417766400 (-46) (Prim2SF x) ->
  exists n : Z,
    (0 <= n <= 100)%Z /\ Float64.round x = Float64.of_Z n
    /\ (at_least 5629499534213120 (-46) (Prim2SF x) -> (80 <= n)%Z).
Proof.
  intros Hx. pose proof (Prim2SF_valid x) as Hv.
  destruct (Prim2SF x) as [ [ | ] | s | | [ | ] m e ] eqn:E;
    cbn [zero_to] in Hx; try contradiction.
  - (* +0 *)
    assert (x = 0) as -> by (apply Prim2SF_inj; rewrite E; reflexivity).
    exists 0%Z. split; [ lia | ]. split; [ reflexivity | ].
    intros [].
  - apply valid_finite in Hv. destruct Hv as [Hm He].
    pose proof (canonical_bounds m e Hm) as [Hbe _].
    pose proof (scaled_pos m e ltac:(lia)) as Hpos.
    assert (PrimFloat.is_zero x = false) as Hzero
        by (unfold PrimFloat.is_zero;
            rewrite FloatAxioms.eqb_spec, E; reflexivity).
    assert ((PrimFloat.abs x <? Float64.two52) = true) as Habs.
    { rewrite FloatAxioms.ltb_spec, FloatAxioms.abs_spec, E.
      change (Prim2SF Float64.two52)
        with (S754_finite false 4503599627370496 0).
      unfold SFltb. cbn [SFabs]. rewrite SFcompare_scaled; [ | exact Hm | canon ].
      assert (scaled 7036874417766400 (-46) < scaled 4503599627370496 0)%Z
        by (apply Z.ltb_lt; vm_compute; reflexivity).
      destruct (Z.compare_spec (scaled (Zpos m) e)
                               (scaled 4503599627370496 0));
        try reflexivity; lia. }
    assert ((0 <=? x) = true) as Hleb
        by (rewrite FloatAxioms.leb_spec, E; reflexivity).
    assert ((x <? 0) = false) as Hneg
        by (rewrite FloatAxioms.ltb_spec, E; reflexivity).
    (* the sum x + 2^52 *)
    destruct (SFadd_finite m 4503599627370496 e 0 Hm ltac:(canon) He
                           ltac:(lia)) as [Hlo Hhi].
    assert (scaled 7036874417766400 (-46) + scaled 4503599627370496 0
            = scaled 4503599627370596 0)%Z as Hsum
        by (vm_compute; reflexivity).
    pose proof (Hlo 4503599627370496%positive 0%Z ltac:(canon) ltac:(lia)) as Hlo0.
    pose proof (Hhi 4503599627370596%positive 0%Z ltac:(canon) ltac:(lia) ltac:(lia))
      as Hhi0.
    assert (Prim2SF (x + Float64.two52)
            = SFadd prec emax (S754_finite false m e)
                    (S754_finite false 4503599627370496 0)) as Eadd
        by (rewrite FloatAxioms.add_spec, E; reflexivity).
    rewrite <- Eadd in Hlo0, Hhi0.
    destruct (two52_plus_cases _ Hlo0 Hhi0) as (n & Hn & Esum & Esf).
    (* what the comparisons can say *)
    assert (n = 0%Z -> (x <? two52_plus n - Float64.two52) = false) as Hb0.
    { intros ->. change (two52_plus 0 - Float64.two52) with 0. exact Hneg. }
    assert (n = 100%Z ->
            (x - (two52_plus n - Float64.two52) <? 0.5) = true) as Hb100.
    { intros ->. change (two52_plus 100 - Float64.two52) with 100.
      rewrite FloatAxioms.ltb_spec, FloatAxioms.sub_spec, E.
      change (Prim2SF 100) with (S754_finite false 7036874417766400 (-46)).
      change (Prim2SF 0.5) with (S754_finite false 4503599627370496 (-53)).
      destruct (SFsub_finite m 7036874417766400 e (-46) Hm ltac:(canon) He
                             ltac:(lia)) as (_ & Hz & _).
      specialize (Hz ltac:(lia)). unfold SF64sub.
      destruct (SFsub prec emax (S754_finite false m e)
                      (S754_finite false 7036874417766400 (-46)))
        as [ s | [ | ] | | [ | ] m' e' ];
        cbn [at_most_zero] in Hz; try contradiction; reflexivity. }
    assert (at_least 5629499534213120 (-46) (S754_finite false m e) ->
            (80 <= n)%Z
            /\ (n = 80%Z -> (x <? two52_plus n - Float64.two52) = false))
      as H80.
    { cbn [at_least]. intros Hge.
      assert (scaled 5629499534213120 (-46) + scaled 4503599627370496 0
              = scaled 4503599627370576 0)%Z as Hsum80
          by (vm_compute; reflexivity).
      pose proof (Hlo 4503599627370576%positive 0%Z ltac:(canon) ltac:(lia)) as Hlo80.
      rewrite <- Eadd, Esf in Hlo80. cbn [at_least] in Hlo80.
      unfold scaled in Hlo80.
      pose proof (pow2_pos (0 + 2200) ltac:(lia)) as Hp.
      assert (80 <= n)%Z as Hn80 by (rewrite Z2Pos.id in Hlo80 by lia; nia).
      split; [ exact Hn80 | ].
      intros ->. change (two52_plus 80 - Float64.two52) with 80.
      rewrite FloatAxioms.ltb_spec, E.
      change (Prim2SF 80) with (S754_finite false 5629499534213120 (-46)).
      unfold SFltb. rewrite SFcompare_scaled; [ | exact Hm | canon ].
      destruct (Z.compare_spec (scaled (Zpos m) e)
                               (scaled 5629499534213120 (-46)));
        try reflexivity; lia. }
    (* the rounding itself *)
    unfold Float64.round, Float64.floor.
    rewrite Hzero, Habs, Hleb, Hneg, Esum.
    set (t := two52_plus n - Float64.two52) in *.
    destruct (x <? t) eqn:B1.
    + destruct (x - (t - 1) <? 0.5) eqn:B2.
      * change (t - 1) with (round_from (two52_plus n) true true).
        rewrite round_table by exact Hn. rewrite andb_false_r.
        exists (n - 1 + 0)%Z.
        assert (n <> 0%Z) by (intros H0; specialize (Hb0 H0); discriminate).
        split; [ lia | ]. split; [ reflexivity | ].
        intros Hge. destruct (H80 Hge) as [Hn80 Hb80].
        assert (n <> 80%Z)
          by (intros H0; specialize (Hb80 H0); discriminate).
        lia.
      * change (t - 1 + 1) with (round_from (two52_plus n) true false).
        rewrite round_table by exact Hn. rewrite andb_false_r.
        exists (n - 1 + 1)%Z. split; [ lia | ]. split; [ reflexivity | ].
        intros Hge. destruct (H80 Hge) as [Hn80 _]. lia.
    + destruct (x - t <? 0.5) eqn:B2.
      * change t with (round_from (two52_plus n) false true).
        rewrite round_table by exact Hn. rewrite andb_false_r.
        exists (n - 0 + 0)%Z. split; [ lia | ]. split; [ reflexivity | ].
        intros Hge. destruct (H80 Hge) as [Hn80 _]. lia.
      * change (t + 1) with (round_from (two52_plus n) false false).
        rewrite round_table by exact Hn. rewrite andb_false_r.
        exists (n - 0 + 1)%Z.
        assert (n <> 100%Z)
          by (intros H0; specialize (Hb100 H0); discriminate).
        split; [ lia | ]. split; [ reflexivity | ].
        intros Hge. destruct (H80 Hge) as [Hn80 _]. lia.
Qed.

Lemma between_zero_to (f : spec_float) (ml mh : positive) (el eh : Z) :
  at_least ml el f -> at_most mh eh f -> zero_to mh eh f.
Proof.
  destruct f as [ s | [ | ] | | [ | ] m e ]; cbn [at_least at_most zero_to];
    tauto.
Qed.

Lemma leb_0_from_zero (p : float) :
  (0 <=? p) = true <-> from_zero (Prim2SF p).
Proof.
  rewrite FloatAxioms.leb_spec. change (Prim2SF 0) with (S754_zero false).
  unfold SFleb.
  destruct (Prim2SF p) as [ s | [ | ] | | [ | ] m e ];
    cbn [SFcompare from_zero]; split; intros H; try reflexivity;
    try exact I; try discriminate H; contradiction.
Qed.

(** The three formulas of [getScore] on a PERCLOS from zero on: the value
    they give is [+0] or positive and 100 at most, and 80 at least
    outside the fatigue branch. *)
Lemma score_formula_range (p : float) :
  from_zero (Prim2SF p) ->
  let s := if 20 <=? p then score_fatigue (N:=binary64) p
           else if 15 <=? p then score_mild (N:=binary64) p
                else score_normal (N:=binary64) p in
  zero_to 7036874417766400 (-46) (Prim2SF s)
  /\ ((20 <=? p) = false -> at_least 5629499534213120 (-46) (Prim2SF s)).
Proof.
  intros Hp. pose proof (Prim2SF_valid p) as Hvp. cbv zeta.
  destruct (20 <=? p) eqn:H20.
  - (* fatigue *)
    split; [ | discriminate ].
    rewrite FloatAxioms.leb_spec in H20.
    change (Prim2SF 20) with (S754_finite false 5629499534213120 (-48)) in H20.
    apply SFleb_at_least in H20; [ | canon | exact Hvp ].
    change (score_fatigue (N:=binary64) p)
      with (Float64.max 0 (100 - (p - 20) * 4)).
    apply max_0_zero_to.
    pose proof (Prim2SF_valid ((p - 20) * 4)) as Hvz.
    rewrite FloatAxioms.sub_spec.
    rewrite FloatAxioms.mul_spec, FloatAxioms.sub_spec in Hvz |- *.
    change (Prim2SF 100) with (S754_finite false 7036874417766400 (-46)).
    change (Prim2SF 4) with (S754_finite false 4503599627370496 (-50))
      in Hvz |- *.
    change (Prim2SF 20) with (S754_finite false 5629499534213120 (-48))
      in Hvz |- *.
    unfold SF64sub, SF64mul in *.
    apply SFsub_const_at_most; [ exact Hvz | canon | lia | ].
    apply SFmul_from_zero.
    apply SFsub_from_zero; [ exact Hvp | canon | lia | exact H20 ].
  - rewrite FloatAxioms.leb_spec in H20.
    change (Prim2SF 20) with (S754_finite false 5629499534213120 (-48)) in H20.
    apply SFleb_false_at_most in H20; [ | exact Hvp | exact Hp | canon ].
    destruct (15 <=? p) eqn:H15.
    + (* mild fatigue *)
      rewrite FloatAxioms.leb_spec in H15.
      change (Prim2SF 15) with (S754_finite false 8444249301319680 (-49))
        in H15.
      apply SFleb_at_least in H15; [ | canon | exact Hvp ].
      change (score_mild (N:=binary64) p) with (100 - (p - 15) * 4).
      pose proof (Prim2SF_valid (p - 15)) as Hvd.
      pose proof (Prim2SF_valid ((p - 15) * 4)) as Hvz.
      rewrite FloatAxioms.sub_spec.
      rewrite FloatAxioms.sub_spec in Hvd.
      rewrite FloatAxioms.mul_spec, FloatAxioms.sub_spec in Hvz |- *.
      change (Prim2SF 100) with (S754_finite false 7036874417766400 (-46)).
      change (Prim2SF 4) with (S754_finite false 4503599627370496 (-50))
        in Hvz |- *.
      change (Prim2SF 15) with (S754_finite false 8444249301319680 (-49))
        in Hvd, Hvz |- *.
      unfold SF64sub, SF64mul in *.
      set (d := SFsub prec emax (Prim2SF p)
                      (S754_finite false 8444249301319680 (-49))) in *.
      assert (from_zero d) as Hd0
          by (apply SFsub_from_zero; [ exact Hvp | canon | lia | exact H15 ]).
      assert (at_most 5629499534213120 (-50) d) as Hd5.
      { apply (SFsub_at_most _ 5629499534213120 _ _ (-48));
          [ exact Hvp | exact Hp | exact H20 | canon | lia | canon | lia | ].
        checked. }
      set (z := SFmul prec emax d (S754_finite false 4503599627370496 (-50)))
        in *.
      assert (from_zero z) as Hz0 by (apply SFmul_from_zero; exact Hd0).
      assert (at_most 5629499534213120 (-48) z) as Hz20.
      { apply (SFmul_at_most _ 5629499534213120 _ _ (-50));
          [ exact Hvd | exact Hd0 | exact Hd5 | canon | lia | canon | lia | ].
        checked. }
      assert (at_least 5629499534213120 (-46)
                (SFsub prec emax (S754_finite false 7036874417766400 (-46)) z))
        as H80.
      { apply (SFsub_const_at_least _ _ 5629499534213120 _ _ (-48));
          [ exact Hvz | exact Hz0 | exact Hz20 | canon | lia | canon | canon
          | ].
        checked. }
      split; [ | intros _; exact H80 ].
      apply (between_zero_to _ _ _ _ _ H80).
      apply SFsub_const_at_most; [ exact Hvz | canon | lia | exact Hz0 ].
    + (* normal *)
      rewrite FloatAxioms.leb_spec in H15.
      change (Prim2SF 15) with (S754_finite false 8444249301319680 (-49))
        in H15.
      apply SFleb_false_at_most in H15; [ | exact Hvp | exact Hp | canon ].
      change (score_normal (N:=binary64) p) with (100 - p * (20 / 15)).
      pose proof (Prim2SF_valid (p * (20 / 15))) as Hvz.
      rewrite FloatAxioms.sub_spec.
      rewrite FloatAxioms.mul_spec in Hvz |- *.
      change (Prim2SF 100) with (S754_finite false 7036874417766400 (-46)).
      change (Prim2SF (20 / 15))
        with (S754_finite false 6004799503160661 (-52)) in Hvz |- *.
      unfold SF64sub, SF64mul in *.
      set (z := SFmul prec emax (Prim2SF p)
                      (S754_finite false 6004799503160661 (-52))) in *.
      assert (from_zero z) as Hz0 by (apply SFmul_from_zero; exact Hp).
      assert (at_most 5629499534213120 (-48) z) as Hz20.
      { apply (SFmul_at_most _ 8444249301319680 _ _ (-49));
          [ exact Hvp | exact Hp | exact H15 | canon | lia | canon | lia | ].
        checked. }
      assert (at_least 5629499534213120 (-46)
                (SFsub prec emax (S754_finite false 7036874417766400 (-46)) z))
        as H80.
      { apply (SFsub_const_at_least _ _ 5629499534213120 _ _ (-48));
          [ exact Hvz | exact Hz0 | exact Hz20 | canon | lia | canon | canon
          | ].
        checked. }
      split; [ | intros _; exact H80 ].
      apply (between_zero_to _ _ _ _ _ H80).
      apply SFsub_const_at_most; [ exact Hvz | canon | lia | exact Hz0 ].
Qed.

(** The score of a PERCLOS from zero on is an integer from 0 to 100, and
    from 80 on unless the level is fatigue. *)
Lemma score_of_from_zero (p : float) :
  from_zero (Prim2SF p) ->
  exists n : Z,
    (0 <= n <= 100)%Z
    /\ score (score_of (N:=binary64) p) = Float64.of_Z n
    /\ (level (score_of (N:=binary64) p) <> level_fatigue -> (80 <= n)%Z).
Proof.
  intros Hp. destruct (score_formula_range p Hp) as [Hs H80].
  unfold score_of.
  change (@geb binary64 p FATIGUE_PERCLOS) with (20 <=? p).
  change (@geb binary64 p NORMAL_PERCLOS) with (15 <=? p).
  destruct (20 <=? p) eqn:H20.
  - cbn [score level].
    destruct (round_zero_to_100 _ Hs) as (n & Hn & Hr & _).
    exists n. split; [ exact Hn | ]. split; [ exact Hr | ].
    intros Hl. now contradiction Hl.
  - specialize (H80 eq_refl).
    destruct (15 <=? p) eqn:H15; cbn [score level];
      destruct (round_zero_to_100 _ Hs) as (n & Hn & Hr & Hn80);
      exists n; (split; [ exact Hn | ]); (split; [ exact Hr | ]);
      intros _; exact (Hn80 H80).
Qed.

End Score64.

(** X6.  In binary64, for every double [p] that is zero or above,
    +Infinity included, the score [getScore] computes from PERCLOS [p] is
    one of the integers 0, 1, ..., 100: every operation of the three
    formulas and of [Math.round] is followed through its rounding.  Unless
    the level is fatigue the score is 80 at least. *)
Theorem X6_score_of_every_PERCLOS_is_an_integer_from_0_to_100
        (p : float) :
  PrimFloat.leb 0 p = true ->
  exists n : Z,
    0 <= n <= 100
    /\ score (score_of (N:=binary64) p) = Float64.of_Z n
    /\ (level (score_of (N:=binary64) p) <> level_fatigue -> 80 <= n).
Proof.
  intros Hp. apply score_of_from_zero. now apply leb_0_from_zero.
Qed.

Lemma X6_witness :
  exists n : Z,
    0 <= n <= 100
    /\ score (score_of (N:=binary64) 17.3%float) = Float64.of_Z n
    /\ (level (score_of (N:=binary64) 17.3%float) <> level_fatigue -> 80 <= n).
Proof.
  apply (X6_score_of_every_PERCLOS_is_an_integer_from_0_to_100 17.3%float).
  reflexivity.
Defined.

(** ** PERCLOS of a detector a program can hold, in binary64 *)

Section Perclos64.

#[local] Open Scope float_scope.

Ltac canon := apply canonical_checked; reflexivity.

(** The double of an integer that is not negative is [+0] or above. *)
Lemma of_Z_from_zero (c : Z) :
  (0 <= c)%Z -> from_zero (Prim2SF (Float64.of_Z c)).
Proof.
  intros Hc. unfold Float64.of_Z.
  destruct (Z.ltb_spec c 0) as [Hlt | _]; [ lia | ].
  rewrite of_uint63_spec.
  pose proof (Uint63.to_Z_bounded (Uint63.of_Z c)) as Hb.
  destruct (Uint63.to_Z (Uint63.of_Z c)) as [ | m | m ];
    cbn [binary_normalize from_zero]; try exact I; try lia.
  pose proof (binary_round_sign false m 0) as Hs.
  destruct (binary_round prec emax false m 0);
    cbn [from_zero]; try exact I; try exact Hs; contradiction.
Qed.

(** The double of a window of 1 to 60000 ms is a positive number. *)
Lemma of_Z_window (w : Z) :
  (1 <= w <= 60000)%Z ->
  exists m e, Prim2SF (Float64.of_Z w) = S754_finite false m e.
Proof.
  intros Hw. unfold Float64.of_Z.
  destruct (Z.ltb_spec w 0) as [Hlt | _]; [ lia | ].
  rewrite of_uint63_spec, Uint63.of_Z_spec.
  rewrite Z.mod_small
    by (change Uint63.wB with 9223372036854775808%Z; lia).
  destruct w as [ | pw | pw ]; try lia. cbn [binary_normalize].
  assert (scaled 4503599627370496 (-52) <= scaled (Zpos pw) 0)%Z as Hlo.
  { change (scaled 4503599627370496 (-52)) with (scaled 1 0).
    apply scaled_le_mono; lia. }
  assert (scaled (Zpos pw) 0 <= scaled 8246337208320000 (-37))%Z as Hhi.
  { change (scaled 8246337208320000 (-37)) with (scaled 60000 0).
    apply scaled_le_mono; lia. }
  pose proof (binary_round_ge false pw 4503599627370496 0 (-52)
                ltac:(canon) ltac:(lia) Hlo) as Hge.
  pose proof (binary_round_le false pw 8246337208320000 0 (-37)
                ltac:(canon) ltac:(lia) ltac:(lia) Hhi) as Hle.
  destruct (binary_round prec emax false pw 0) as [ s | s | | s m e ];
    try contradiction.
  destruct Hge as [-> _]. now exists m, e.
Qed.

(** [x / y] for [x >= 0 < y]. *)
Lemma SFdiv_from_zero (x : spec_float) (my : positive) (ey : Z) :
  from_zero x -> from_zero (SFdiv prec emax x (S754_finite false my ey)).
Proof.
  destruct x as [ s | s | | s m e ]; cbn [from_zero]; intros Hx;
    try contradiction; subst; cbn [SFdiv xorb from_zero];
    try exact I; try reflexivity.
  destruct (SFdiv_core_binary prec emax (Zpos m) e (Zpos my) ey)
    as [[mz ez] lz] eqn:Hcore.
  assert (0 <= mz)%Z as Hmz.
  { unfold SFdiv_core_binary in Hcore.
    match type of Hcore with
    | context [Z.div_eucl ?a ?b] =>
        pose proof (Z.div_eucl_eq a b ltac:(lia)) as Hq;
        pose proof (Z.mod_pos_bound a b ltac:(lia)) as Hr;
        assert (0 <= a)%Z as Ha;
        [ | unfold Z.modulo in Hr; destruct (Z.div_eucl a b) as [q r] ]
    end.
    - match goal with
      | |- (0 <= match ?s with _ => _ end)%Z => destruct s
      end; try lia.
      apply Z.shiftl_nonneg. lia.
    - injection Hcore as <- _ _. nia. }
  pose proof (binary_round_aux_sign false mz ez lz Hmz) as Hs.
  destruct (binary_round_aux prec emax false mz ez lz);
    cbn [from_zero]; try exact I; try exact Hs; contradiction.
Qed.

(** PERCLOS over a window of 1 to 60000 ms of samples in chronological
    order is a number from zero on: it is not NaN and not negative. *)
Lemma closure_percentage_from_zero
      (earRecords : list (EARRecord binary64)) (w : Z) :
  chronological earRecords -> (1 <= w <= 60000)%Z ->
  from_zero (Prim2SF (calculateClosurePercentage earRecords w)).
Proof.
  intros Hs Hw. unfold calculateClosurePercentage.
  destruct (List.length earRecords =? 0)%nat; [ exact I | ].
  change (of_Z (closedTime earRecords) / of_Z w * of_Z 100)%js
    with (Float64.of_Z (closedTime earRecords) / Float64.of_Z w * 100).
  rewrite FloatAxioms.mul_spec, FloatAxioms.div_spec.
  destruct (of_Z_window w Hw) as (m & e & ->).
  change (Prim2SF 100) with (S754_finite false 7036874417766400 (-46)).
  apply SFmul_from_zero, SFdiv_from_zero, of_Z_from_zero.
  now apply closedTime_nonneg.
Qed.

Lemma calculatePERCLOS_from_zero
      (t0 now : Z) (this : PERCLOSDetector binary64) :
  reachable t0 this -> (t0 < now)%Z ->
  from_zero (Prim2SF (calculatePERCLOS now this)).
Proof.
  intros Hreach Hnow.
  destruct (reachable_well_formed t0 this Hreach) as [Hs _ Ho _].
  unfold calculatePERCLOS.
  destruct (List.length (getRecentEARs now this) =? 0)%nat; [ exact I | ].
  assert (from_zero
            (Prim2SF (calculateClosurePercentage
                        (getRecentEARs now this)
                        (Z.min (now - startTime this) WINDOW_MS)))) as H.
  { apply closure_percentage_from_zero.
    - now apply recent_chronological.
    - rewrite Hs. unfold WINDOW_MS. lia. }
  now destruct (Z.min (now - startTime this) WINDOW_MS <? 30000)%Z.
Qed.

(** After the instant of construction the score is an integer from 0
    to 100. *)
Lemma score_after_start64 (now : Z) (this : PERCLOSDetector binary64) :
  reachable (startTime this) this -> (startTime this < now)%Z ->
  exists n : Z,
    (0 <= n <= 100)%Z /\ score (getScore now this) = Float64.of_Z n.
Proof.
  intros Hreach Hnow.
  pose proof (calculatePERCLOS_from_zero _ now this Hreach Hnow) as Hp.
  destruct (score_of_from_zero _ Hp) as (n & Hn & Hs & _).
  exists n. now split.
Qed.

End Perclos64.

(** X7.  In binary64, for every detector a program can hold and every
    clock value after the instant of its construction: PERCLOS is a number
    that is zero or above (never NaN, never negative), and the score
    [getScore] returns is one of the integers 0, 1, ..., 100; it is 80 at
    least unless the level is fatigue. *)
Theorem X7_score_of_a_reachable_detector_is_an_integer_from_0_to_100
        (t0 now : Z) (this : PERCLOSDetector binary64) :
  reachable t0 this ->
  t0 < now ->
  PrimFloat.leb 0 (calculatePERCLOS now this) = true
  /\ exists n : Z,
      0 <= n <= 100
      /\ score (getScore now this) = Float64.of_Z n
      /\ (level (getScore now this) <> level_fatigue -> 80 <= n).
Proof.
  intros Hreach Hnow.
  pose proof (calculatePERCLOS_from_zero t0 now this Hreach Hnow) as Hp.
  split; [ now apply leb_0_from_zero | ].
  unfold getScore. now apply score_of_from_zero.
Qed.

Lemma X7_witness :
  exists n : Z,
    0 <= n <= 100
    /\ score (getScore 2000 Scenario.three_samples) = Float64.of_Z n
    /\ (level (getScore 2000 Scenario.three_samples) <> level_fatigue
        -> 80 <= n).
Proof.
  apply (X7_score_of_a_reachable_detector_is_an_integer_from_0_to_100
           0 2000 Scenario.three_samples).
  - apply (reach_update 0 (detector 0 [sample 0 0.1; sample 1000 0.1])%float
                        (face 10 3) 2000).
    + apply (reach_update 0 (detector 0 [sample 0 0.1])%float
                          (face 10 1) 1000).
      * apply (reach_update 0 (new 0) (face 10 1) 0).
        -- apply reach_new.
        -- cbn. lia.
        -- vm_compute. reflexivity.
      * cbn. lia.
      * vm_compute. reflexivity.
    + cbn. lia.
    + vm_compute. reflexivity.
  - lia.
Defined.

(** ** Windows without a closed frame *)

Section OpenEyes.

Context {N : JSNumber}.

Lemma spec_closed_time_open (samples : list (EARRecord N)) :
  forall previous,
    Forall counts_as_open samples -> spec_closed_time previous samples = 0.
Proof.
  induction samples as [ | r rest IH ]; intros previous Hopen;
    [ reflexivity | ].
  apply Forall_cons_iff in Hopen. destruct Hopen as [Hr Hrest].
  cbn [spec_closed_time]. unfold counts_as_open in Hr.
  rewrite Hr, IH by exact Hrest. reflexivity.
Qed.

Lemma closedTime_open (samples : list (EARRecord N)) :
  Forall counts_as_open samples -> closedTime samples = 0.
Proof. intros H. rewrite closedTime_spec. now apply spec_closed_time_open. Qed.

End OpenEyes.

Section OpenEyes64.

#[local] Open Scope float_scope.

(** 0 ms of closed time over a window of 1 to 60000 ms is PERCLOS [+0]. *)
Lemma zero_over_window (w : Z) :
  (1 <= w <= 60000)%Z -> Float64.of_Z 0 / Float64.of_Z w * 100 = 0.
Proof.
  intros Hw. apply Prim2SF_inj.
  rewrite FloatAxioms.mul_spec, FloatAxioms.div_spec.
  destruct (of_Z_window w Hw) as (m & e & ->). reflexivity.
Qed.

End OpenEyes64.

(** X8.  In binary64, for every detector (whatever its history) asked
    after the instant of its construction: when no recent sample has a
    ratio below the threshold (NaN and the infinities of the estimator
    count as not below), the closed time is 0, PERCLOS is exactly 0 and
    [getScore] returns score 100, level normal and the detail 0. *)
Theorem X8_no_closed_frame_scores_100
        (this : PERCLOSDetector binary64) (now : Z) :
  startTime this < now ->
  Forall counts_as_open (getRecentEARs now this) ->
  closedTime (getRecentEARs now this) = 0
  /\ calculatePERCLOS now this = 0%float
  /\ getScore now this
     = {| score := 100%float; level := level_normal; details := 0%float |}.
Proof.
  intros Hnow Hopen.
  pose proof (closedTime_open _ Hopen) as Hclosed.
  split; [ exact Hclosed | ].
  assert (calculatePERCLOS now this = 0%float) as Hp.
  { unfold calculatePERCLOS, calculateClosurePercentage. rewrite Hclosed.
    destruct (List.length (getRecentEARs now this) =? 0)%nat;
      [ reflexivity | ].
    assert (1 <= Z.min (now - startTime this) WINDOW_MS <= 60000) as Hw
        by (unfold WINDOW_MS; lia).
    pose proof (zero_over_window _ Hw) as Hz.
    destruct (Z.min (now - startTime this) WINDOW_MS <? 30000); exact Hz. }
  split; [ exact Hp | ]. unfold getScore. rewrite Hp. reflexivity.
Qed.

Lemma X8_witness :
  getScore 5000 (detector 0 [Scenario.sample64 1000 0.3%float;
                             Scenario.sample64 2000 nan])
  = {| score := 100%float; level := level_normal; details := 0%float |}.
Proof.
  apply (X8_no_closed_frame_scores_100
           (detector 0 [Scenario.sample64 1000 0.3%float;
                        Scenario.sample64 2000 nan]) 5000).
  - cbn. lia.
  - vm_compute. repeat constructor.
Defined.

(** ** An eye of width zero *)

Section ZeroWidth64.

#[local] Open Scope float_scope.

Lemma nan_or_plus_infinity_float (e : float) :
  nan_or_plus_infinity (Prim2SF e) -> e = nan \/ e = infinity.
Proof.
  intros [H | H]; [ left | right ]; apply Prim2SF_inj; rewrite H; reflexivity.
Qed.

Lemma nan_or_plus_infinity_open (e : float) :
  nan_or_plus_infinity (Prim2SF e) ->
  is_finite64 e = false /\ @ltb binary64 e EAR_THRESHOLD = false.
Proof.
  intros H. destruct (nan_or_plus_infinity_float e H) as [-> | ->];
    split; reflexivity.
Qed.

(** A number that is not below zero, divided by twice [+0]. *)
Lemma SFdiv_by_zero (v h : spec_float) :
  not_below_zero v -> h = S754_zero false ->
  nan_or_plus_infinity
    (SFdiv prec emax v
           (SFmul prec emax (S754_finite false 4503599627370496 (-51)) h)).
Proof.
  intros Hv ->. cbn [SFmul xorb].
  destruct v as [ s | s | | s m e ]; cbn [not_below_zero] in Hv; subst;
    cbn [SFdiv xorb]; unfold nan_or_plus_infinity;
    (left; reflexivity) || (right; reflexivity).
Qed.

(** The distance that compares equal to 0 is [+0]. *)
Lemma distance_zero (a b : Keypoint binary64) :
  (distance a b =? 0) = true -> Prim2SF (distance a b) = S754_zero false.
Proof.
  intros Hz. pose proof (distance_nonneg64 a b) as Hn. unfold nonneg64 in Hn.
  rewrite FloatAxioms.eqb_spec in Hz.
  change (Prim2SF 0) with (S754_zero false) in Hz. unfold SFeqb in Hz.
  destruct (Prim2SF (distance a b)) as [ s | [ | ] | | [ | ] m e ];
    cbn [SFcompare not_below_zero] in Hz, Hn; try discriminate Hz.
  now subst.
Qed.

Lemma calculateEAR_zero_width
      (keypoints : list (Keypoint binary64)) (indices : EyeIndices)
      (k1 k4 : Keypoint binary64) (e : float) :
  nth_error keypoints (p1 indices) = Some k1 ->
  nth_error keypoints (p4 indices) = Some k4 ->
  (distance k1 k4 =? 0) = true ->
  calculateEAR keypoints indices = Some e ->
  nan_or_plus_infinity (Prim2SF e).
Proof.
  intros H1 H4 Hz. apply distance_zero in Hz.
  unfold calculateEAR. rewrite H1, H4.
  destruct (nth_error keypoints (p2 indices)) as [ k2 | ]; [ | discriminate ].
  destruct (nth_error keypoints (p3 indices)) as [ k3 | ]; [ | discriminate ].
  destruct (nth_error keypoints (p5 indices)) as [ k5 | ]; [ | discriminate ].
  destruct (nth_error keypoints (p6 indices)) as [ k6 | ]; [ | discriminate ].
  intros [= <-].
  change ((distance k2 k6 + distance k3 k5) / (of_Z 2 * distance k1 k4))%js
    with ((distance k2 k6 + distance k3 k5) / (2 * distance k1 k4)).
  rewrite FloatAxioms.div_spec, FloatAxioms.add_spec, FloatAxioms.mul_spec.
  change (Prim2SF 2) with (S754_finite false 4503599627370496 (-51)).
  apply SFdiv_by_zero; [ | exact Hz ].
  apply SFadd_not_below_zero; apply distance_nonneg64.
Qed.

(** The mean of two ratios of the estimator, one of them NaN or
    +Infinity. *)
Lemma mean_nan_or_plus_infinity (l r : spec_float) :
  not_below_zero l -> not_below_zero r ->
  nan_or_plus_infinity l \/ nan_or_plus_infinity r ->
  nan_or_plus_infinity
    (SFdiv prec emax (SFadd prec emax l r)
           (S754_finite false 4503599627370496 (-51))).
Proof.
  unfold nan_or_plus_infinity. intros Hl Hr H.
  destruct l as [ sl | sl | | sl ml el ], r as [ sr | sr | | sr mr er ];
    cbn [not_below_zero] in Hl, Hr; subst; cbn [SFadd SFdiv xorb];
    try (left; reflexivity); try (right; reflexivity);
    destruct H as [[H | H] | [H | H]]; discriminate H.
Qed.

End ZeroWidth64.

(** X9.  In binary64, for every frame: if the horizontal distance of an
    eye (between its landmarks p1 and p4) is 0, [calculateEAR] divides by
    zero without an exception and the ratio of that eye is NaN or
    +Infinity; the mean of the two eyes that [update] stores is then NaN
    or +Infinity as well, whatever the other eye, and compares as not
    below the threshold 0.2: the frame is never counted as closed. *)
Theorem X9_an_eye_of_width_zero_is_never_counted_as_closed
        (keypoints : list (Keypoint binary64)) (indices : EyeIndices)
        (k1 k4 : Keypoint binary64) :
  indices = EYE_LANDMARKS_LEFT \/ indices = EYE_LANDMARKS_RIGHT ->
  nth_error keypoints (p1 indices) = Some k1 ->
  nth_error keypoints (p4 indices) = Some k4 ->
  PrimFloat.eqb (distance k1 k4) 0 = true ->
  (forall e, calculateEAR keypoints indices = Some e ->
             e = nan \/ e = infinity)
  /\ (forall avgEAR, averageEAR keypoints = Some avgEAR ->
                     (avgEAR = nan \/ avgEAR = infinity)
                     /\ is_finite64 avgEAR = false
                     /\ @ltb binary64 avgEAR EAR_THRESHOLD = false)
  /\ (forall now this this',
         update keypoints now this = Some this' ->
         exists avgEAR,
           getRecentEARs now this'
           = getRecentEARs now this ++ [sample now avgEAR]
           /\ counts_as_open (sample now avgEAR)).
Proof.
  intros Hi H1 H4 Hz.
  assert (forall e, calculateEAR keypoints indices = Some e ->
                    nan_or_plus_infinity (Prim2SF e)) as Heye
      by (intros e; now apply (calculateEAR_zero_width _ _ k1 k4)).
  assert (forall avgEAR, averageEAR keypoints = Some avgEAR ->
                         nan_or_plus_infinity (Prim2SF avgEAR)) as Havg.
  { intros avgEAR. unfold averageEAR.
    destruct (calculateEAR keypoints EYE_LANDMARKS_LEFT) as [ l | ] eqn:Hl;
      [ | discriminate ].
    destruct (calculateEAR keypoints EYE_LANDMARKS_RIGHT) as [ r | ] eqn:Hr;
      [ | discriminate ].
    intros [= <-].
    change ((l + r) / of_Z 2)%js with (PrimFloat.div (PrimFloat.add l r) 2).
    rewrite FloatAxioms.div_spec, FloatAxioms.add_spec.
    change (Prim2SF 2) with (S754_finite false 4503599627370496 (-51)).
    apply mean_nan_or_plus_infinity.
    - now apply calculateEAR_nonneg64 in Hl.
    - now apply calculateEAR_nonneg64 in Hr.
    - destruct Hi as [-> | ->]; [ left | right ]; now apply Heye. }
  split; [ | split ].
  - intros e He. now apply nan_or_plus_infinity_float, Heye.
  - intros avgEAR He. specialize (Havg avgEAR He). split.
    + now apply nan_or_plus_infinity_float.
    + now apply nan_or_plus_infinity_open.
  - intros now this this' Hup.
    apply update_inv in Hup. destruct Hup as (avgEAR & He & ->).
    exists avgEAR. split; [ apply getRecentEARs_record_sample | ].
    apply (nan_or_plus_infinity_open avgEAR). now apply Havg.
Qed.

Lemma X9_witness :
  averageEAR (N:=binary64) (face 0 2) = Some infinity
  /\ @ltb binary64 infinity EAR_THRESHOLD = false.
Proof.
  destruct (X9_an_eye_of_width_zero_is_never_counted_as_closed
              (face 0 2) EYE_LANDMARKS_LEFT (point 0 0) (point 0 0))
    as (_ & Havg & _).
  - now left.
  - vm_compute. reflexivity.
  - vm_compute. reflexivity.
  - vm_compute. reflexivity.
  - split; [ vm_compute; reflexivity | ].
    apply (Havg infinity). vm_compute. reflexivity.
Defined.

(** ** The landmark detector *)

Section Iris.

Context {N : JSNumber}.

Lemma slice_length {A : Type} (start stop : nat) (array : list A) :
  List.length (slice start stop array)
  = Nat.min (stop - start) (List.length array - start).
Proof. unfold slice. now rewrite length_firstn, length_skipn. Qed.

(** The two slices are one range of the array. *)
Lemma allIrisPoints_range (keypoints : list (Keypoint N)) :
  allIrisPoints keypoints = firstn 10 (skipn 468 keypoints).
Proof.
  unfold allIrisPoints, slice.
  change (473 - 468)%nat with 5%nat. change (478 - 473)%nat with 5%nat.
  replace (skipn 473 keypoints) with (skipn 5 (skipn 468 keypoints))
    by (rewrite skipn_skipn; reflexivity).
  generalize (skipn 468 keypoints). intros l.
  rewrite <- (firstn_skipn 5 (firstn 10 l)).
  rewrite firstn_firstn. change (Nat.min 5 10) with 5%nat. f_equal.
  rewrite skipn_firstn_comm. reflexivity.
Qed.

Lemma allIrisPoints_length (keypoints : list (Keypoint N)) :
  List.length (allIrisPoints keypoints)
  = Nat.min 10 (List.length keypoints - 468).
Proof.
  now rewrite allIrisPoints_range, length_firstn, length_skipn.
Qed.

End Iris.

(** X10.  [detect] of detector.ts throws before [initialize], reports no
    face for an empty list of faces, and otherwise reports the keypoints
    of the first face only, with the centre of its iris landmarks: these
    are the landmarks 468 to 477 as far as the array has them, min(10,
    length - 468) of them.  There is no guard on their number: in binary64,
    for a face of 468 landmarks or fewer (no iris landmarks) the centre is
    (NaN, NaN), 0/0, and not null, the face still being reported. *)
Theorem X10_detect_reports_the_first_face_and_its_iris_centre :
  (forall (N : JSNumber) (faces : list (list (Keypoint N))),
      detect false faces = thrown "Detector not initialized"%string)
  /\ (forall N : JSNumber, detect (N:=N) true [] = returned nothing_detected)
  /\ (forall (N : JSNumber) (keypoints : list (Keypoint N)) others,
         detect true (keypoints :: others)
         = returned
             {| irisCenter := Some (calculateCenter (allIrisPoints keypoints));
                faceDetected := true;
                detected := Some keypoints |}
         /\ allIrisPoints keypoints = firstn 10 (skipn 468 keypoints)
         /\ List.length (allIrisPoints keypoints)
            = Nat.min 10 (List.length keypoints - 468))
  /\ (forall (keypoints : list (Keypoint binary64)) others,
         (List.length keypoints <= 468)%nat ->
         detect true (keypoints :: others)
         = returned
             {| irisCenter := Some {| Point_x := nan; Point_y := nan |};
                faceDetected := true;
                detected := Some keypoints |}).
Proof.
  split; [ reflexivity | ]. split; [ reflexivity | ]. split.
  - intros N keypoints others. split; [ reflexivity | ].
    split; [ apply allIrisPoints_range | apply allIrisPoints_length ].
  - intros keypoints others Hshort. cbn [detect negb].
    assert (allIrisPoints keypoints = []) as ->; [ | reflexivity ].
    apply length_zero_iff_nil. rewrite allIrisPoints_length. lia.
Qed.

Lemma X10_witness :
  detect (N:=binary64) true [firstn 400 (face 10 2)]
  = returned {| irisCenter := Some {| Point_x := nan; Point_y := nan |};
                faceDetected := true;
                detected := Some (firstn 400 (face 10 2)) |}.
Proof.
  apply (proj2 (proj2 (proj2
           X10_detect_reports_the_first_face_and_its_iris_centre))).
  vm_compute. lia.
Defined.

(** ** The detector on MediaPipe Tasks Vision *)

Section Tasks.

Import TasksVision.

Lemma toKeypoints_length video landmarks :
  List.length (toKeypoints video landmarks) = List.length landmarks.
Proof. apply length_map. Qed.

(** What a call of [detect] that returns has done. *)
Lemma detect_returned video faceLandmarks this found this' :
  TasksVision.detect video faceLandmarks this = returned (found, this') ->
  faceLandmarker this = true
  /\ faceLandmarker this' = true
  /\ ((found = nothing_detected /\ this' = this
       /\ (readyState video <> 4 \/ videoWidth video = 0
           \/ PrimFloat.eqb (currentTime video) (lastVideoTime this) = true))
      \/ (readyState video = 4 /\ videoWidth video <> 0
          /\ PrimFloat.eqb (currentTime video) (lastVideoTime this) = false
          /\ lastVideoTime this' = currentTime video
          /\ ((found = nothing_detected
               /\ (faceLandmarks = None \/ faceLandmarks = Some []))
              \/ exists landmarks others,
                  faceLandmarks = Some (landmarks :: others)
                  /\ faceDetected found = true
                  /\ detected found = Some (toKeypoints video landmarks)
                  /\ irisCenter found
                     = if (477 <? List.length landmarks)%nat
                       then Some (calculateCenter
                                    (allIrisPoints
                                       (toKeypoints video landmarks)))
                       else None))).
Proof.
  unfold TasksVision.detect.
  destruct (faceLandmarker this) eqn:Hinit; cbn [negb]; [ | discriminate ].
  destruct (Z.eqb_spec (readyState video) 4) as [Hready | Hready];
    cbn [negb orb].
  - destruct (Z.eqb_spec (videoWidth video) 0) as [Hwidth | Hwidth].
    + intros [= <- <-]. split; [ reflexivity | ]. split; [ exact Hinit | ].
      left. split; [ reflexivity | ]. split; [ reflexivity | ].
      right. now left.
    + destruct (PrimFloat.eqb (currentTime video) (lastVideoTime this))
        eqn:Hsame.
      * intros [= <- <-]. split; [ reflexivity | ].
        split; [ exact Hinit | ].
        left. split; [ reflexivity | ]. split; [ reflexivity | ].
        right. now right.
      * destruct faceLandmarks as [ [ | landmarks others ] | ];
          intros [= <- <-]; (split; [ reflexivity | ]);
          (split; [ reflexivity | ]); right;
          (split; [ exact Hready | ]); (split; [ exact Hwidth | ]);
          (split; [ reflexivity | ]); (split; [ reflexivity | ]).
        -- left. split; [ reflexivity | now right ].
        -- right. exists landmarks, others.
           rewrite toKeypoints_length. repeat split.
        -- left. split; [ reflexivity | now left ].
  - intros [= <- <-]. split; [ reflexivity | ]. split; [ exact Hinit | ].
    left. split; [ reflexivity | ]. split; [ reflexivity | ]. now left.
Qed.

End Tasks.

(** X11.  [detect] of the Tasks Vision detector.  A call that returns a
    face has seen a ready video ([readyState] 4, a width other than 0) at
    a video time other than the one the detector had noted last
    ([currentTime === lastVideoTime] was false), has noted that time, and
    reports
    as many keypoints as the first face has landmarks, with an iris
    centre exactly when they are more than 477.  The same frame is not
    processed twice: after a call that noted the video time, every
    further call at that video time reports no face and leaves the
    detector as it is, whatever the landmarker would return. *)
Theorem X11_tasks_vision_detect
        (video : TasksVision.Video)
        (faceLandmarks : option (list (list TasksVision.NormalizedLandmark)))
        (this this' : TasksVision.FaceDetector)
        (found : DetectionResult binary64) :
  TasksVision.detect video faceLandmarks this = returned (found, this') ->
  faceDetected found = true ->
  TasksVision.readyState video = 4
  /\ TasksVision.videoWidth video <> 0
  /\ PrimFloat.eqb (TasksVision.currentTime video)
                   (TasksVision.lastVideoTime this) = false
  /\ TasksVision.lastVideoTime this' = TasksVision.currentTime video
  /\ (exists landmarks others,
         faceLandmarks = Some (landmarks :: others)
         /\ detected found = Some (TasksVision.toKeypoints video landmarks)
         /\ List.length (TasksVision.toKeypoints video landmarks)
            = List.length landmarks
         /\ (irisCenter found = None <-> (List.length landmarks <= 477)%nat))
  /\ (forall faceLandmarks',
         PrimFloat.is_nan (TasksVision.currentTime video) = false ->
         TasksVision.detect video faceLandmarks' this'
         = returned (nothing_detected, this')).
Proof.
  intros Hdetect Hfound.
  destruct (detect_returned _ _ _ _ _ Hdetect)
    as (_ & Hinit' & [(-> & _) | (Hready & Hwidth & Hnew & Htime & Hface)]);
    [ discriminate Hfound | ].
  destruct Hface as [(-> & _) | (landmarks & others & -> & _ & Hk & Hiris)];
    [ discriminate Hfound | ].
  split; [ exact Hready | ]. split; [ exact Hwidth | ].
  split; [ exact Hnew | ]. split; [ exact Htime | ]. split.
  - exists landmarks, others. split; [ reflexivity | ].
    split; [ exact Hk | ]. split; [ apply toKeypoints_length | ].
    rewrite Hiris.
    destruct (Nat.ltb_spec 477 (List.length landmarks));
      split; intros H'; try discriminate H'; try reflexivity; lia.
  - intros faceLandmarks' Hnan. unfold TasksVision.detect.
    rewrite Hinit', Hready, Htime. cbn [negb Z.eqb Pos.eqb orb].
    destruct (Z.eqb_spec (TasksVision.videoWidth video) 0) as [H0 | _];
      [ contradiction | ].
    unfold PrimFloat.is_nan in Hnan.
    apply negb_false_iff in Hnan. now rewrite Hnan.
Qed.

Lemma X11_witness :
  let video := {| TasksVision.readyState := 4;
                  TasksVision.videoWidth := 640;
                  TasksVision.videoHeight := 480;
                  TasksVision.currentTime := 0.5%float |} in
  let landmark := {| TasksVision.landmark_x := 0.5%float;
                     TasksVision.landmark_y := 0.5%float;
                     TasksVision.landmark_z := 0%float |} in
  PrimFloat.eqb (TasksVision.currentTime video) (-1)%float = false
  /\ TasksVision.detect video (Some [[landmark]])
       {| TasksVision.faceLandmarker := true;
          TasksVision.lastVideoTime := 0.5%float |}
     = returned (nothing_detected,
                 {| TasksVision.faceLandmarker := true;
                    TasksVision.lastVideoTime := 0.5%float |}).
Proof.
  intros video landmark.
  destruct (X11_tasks_vision_detect
              video (Some [[landmark]])
              {| TasksVision.faceLandmarker := true;
                 TasksVision.lastVideoTime := (-1)%float |}
              {| TasksVision.faceLandmarker := true;
                 TasksVision.lastVideoTime := 0.5%float |}
              {| irisCenter := None; faceDetected := true;
                 detected := Some (TasksVision.toKeypoints video [landmark]) |})
    as (_ & _ & Hnew & _ & _ & Hagain).
  - reflexivity.
  - reflexivity.
  - split; [ exact Hnew | ]. apply Hagain. reflexivity.
Defined.

(** ** The application *)

Section Application.

Import SpotCheck.

Context {MediaStream : Type}.
Implicit Types (this : SpotCheckApp MediaStream).

(** What the methods leave as it is. *)
Lemma setState_fields state this :
  perclosDetector (setState state this) = perclosDetector this
  /\ measurementStartTime (setState state this) = measurementStartTime this
  /\ isRunning (setState state this) = isRunning this
  /\ currentState (setState state this) = state
  /\ camera (page (setState state this)) = camera (page this)
  /\ shownResult (page (setState state this)) = shownResult (page this).
Proof. destruct state; repeat split. Qed.

Lemma updateInfo_fields message this :
  perclosDetector (updateInfo message this) = perclosDetector this
  /\ measurementStartTime (updateInfo message this)
     = measurementStartTime this
  /\ isRunning (updateInfo message this) = isRunning this
  /\ currentState (updateInfo message this) = currentState this
  /\ camera (page (updateInfo message this)) = camera (page this).
Proof. repeat split. Qed.

Lemma stopCamera_fields this :
  perclosDetector (stopCamera this) = perclosDetector this
  /\ measurementStartTime (stopCamera this) = measurementStartTime this
  /\ isRunning (stopCamera this) = isRunning this
  /\ currentState (stopCamera this) = currentState this
  /\ video_srcObject (camera (page (stopCamera this))) = None
  /\ shownResult (page (stopCamera this)) = shownResult (page this).
Proof.
  unfold stopCamera.
  destruct (video_srcObject (camera (page this))) eqn:Hs; repeat split.
  exact Hs.
Qed.

Lemma updateTimer_fields now this :
  perclosDetector (fst (updateTimer now this)) = perclosDetector this
  /\ measurementStartTime (fst (updateTimer now this))
     = measurementStartTime this
  /\ isRunning (fst (updateTimer now this)) = isRunning this
  /\ currentState (fst (updateTimer now this)) = currentState this.
Proof. unfold updateTimer. destruct (isRunning this) eqn:H; repeat split; now cbn. Qed.

(** [completeMeasurement] stops the measurement and the camera, and
    shows the score of the detector, if there is one. *)
Lemma completeMeasurement_fields now this :
  let this' := completeMeasurement now this in
  perclosDetector this' = perclosDetector this
  /\ measurementStartTime this' = measurementStartTime this
  /\ isRunning this' = false
  /\ video_srcObject (camera (page this')) = None
  /\ match perclosDetector this with
     | None => currentState this' = idle
     | Some perclos =>
         currentState this' = result
         /\ shownResult (page this')
            = {| resultLevelElement := literal (level (getScore now perclos));
                 resultLevelElement_color :=
                   levelColor (level (getScore now perclos));
                 resultScoreElement := shown (score (getScore now perclos)) "";
                 resultScoreElement_color :=
                   scoreColor (score (getScore now perclos));
                 resultPERCLOSElement :=
                   shown (details (getScore now perclos)) "%" |}
     end.
Proof.
  cbv zeta. unfold completeMeasurement.
  change (perclosDetector (set_isRunning false this))
    with (perclosDetector this).
  destruct (perclosDetector this) as [ perclos | ] eqn:Hp.
  - match goal with
    | |- context [setState result (stopCamera ?a)] => set (shown_ := a)
    end.
    destruct (setState_fields result (stopCamera shown_))
      as (H1 & H2 & H3 & H4 & H5 & H6).
    destruct (stopCamera_fields shown_) as (S1 & S2 & S3 & S4 & S5 & S6).
    rewrite H1, H2, H3, H4, H5, H6, S1, S2, S3, S5, S6.
    subst shown_. cbn. rewrite Hp. repeat split.
  - match goal with
    | |- context [setState idle (stopCamera ?a)] => set (shown_ := a)
    end.
    destruct (setState_fields idle (stopCamera shown_))
      as (H1 & H2 & H3 & H4 & H5 & H6).
    destruct (stopCamera_fields shown_) as (S1 & S2 & S3 & S4 & S5 & S6).
    rewrite H1, H2, H3, H4, H5, S1, S2, S3, S5.
    subst shown_. cbn. rewrite Hp. repeat split.
Qed.

Lemma in_order_clock clock (e : event MediaStream) clock' :
  in_order clock e clock' -> clock <= clock'.
Proof. destruct e; cbn [in_order]; lia. Qed.

Lemma consistent_later clock clock' this :
  clock <= clock' -> consistent clock this -> consistent clock' this.
Proof.
  unfold consistent. destruct (perclosDetector this); [ | trivial ].
  intros Hc (Hr & Hs & Hl). repeat split; try assumption. lia.
Qed.

Lemma consistent_same clock this this' :
  perclosDetector this' = perclosDetector this ->
  measurementStartTime this' = measurementStartTime this ->
  consistent clock this -> consistent clock this'.
Proof. unfold consistent. now intros -> ->. Qed.

(** A frame of the detection loop keeps the detector consistent. *)
Lemma detect_resume_consistent clock detection now_update now_elapsed
      now_score this :
  clock <= now_update <= now_elapsed -> now_elapsed <= now_score ->
  consistent clock this ->
  consistent now_score
    (fst (detect_resume detection now_update now_elapsed now_score this)).
Proof.
  intros H1 H2 Hc.
  assert (consistent now_score this) as Hc'
      by (apply (consistent_later clock); [ lia | exact Hc ]).
  unfold detect_resume. destruct detection as [ found | message ];
    [ | exact Hc' ].
  destruct (faceDetected found); [ | ].
  2: { cbn [fst]. destruct (_ >=? _); cbn [fst]; [ | exact Hc' ].
       destruct (completeMeasurement_fields now_score this) as (P & M & _).
       now apply (consistent_same _ this). }
  destruct (detected found) as [ keypoints | ].
  2: { cbn [fst]. destruct (_ >=? _); cbn [fst]; [ | exact Hc' ].
       destruct (completeMeasurement_fields now_score this) as (P & M & _).
       now apply (consistent_same _ this). }
  destruct (perclosDetector this) as [ perclos | ] eqn:Hp.
  2: { cbn [fst]. destruct (_ >=? _); cbn [fst]; [ | exact Hc' ].
       destruct (completeMeasurement_fields now_score this) as (P & M & _).
       now apply (consistent_same _ this). }
  destruct (update keypoints now_update perclos) as [ perclos' | ] eqn:Hup;
    [ | exact Hc' ].
  match goal with
  | |- context [completeMeasurement now_score ?a] => set (updated := a)
  end.
  assert (consistent now_score updated) as Hu.
  { unfold consistent in Hc |- *. rewrite Hp in Hc.
    destruct Hc as (Hr & Hs & Hl). subst updated. cbn.
    pose proof (update_inv _ _ _ _ Hup) as (avgEAR & _ & E).
    assert (startTime perclos' = startTime perclos) as Es
        by (rewrite E; reflexivity).
    assert (lastUpdateTime perclos' = now_update) as El
        by (rewrite E; reflexivity).
    rewrite Es, El. repeat split; try assumption; try lia.
    apply (reach_update _ perclos keypoints now_update);
      [ exact Hr | lia | exact Hup ]. }
  destruct (_ >=? _); cbn [fst]; [ | exact Hu ].
  destruct (completeMeasurement_fields now_score updated) as (P & M & _).
  now apply (consistent_same _ updated).
Qed.

(** The clicks and the first steps of [startMeasurement] leave the
    detector and the start of the measurement as they are. *)
Lemma other_events_keep (e : event MediaStream) this :
  match e with
  | model_ready _ _ _ | frame _ _ _ _ => True
  | _ =>
      perclosDetector (handle e this) = perclosDetector this
      /\ measurementStartTime (handle e this) = measurementStartTime this
  end.
Proof.
  destruct e; cbn [handle]; try exact I.
  - unfold startMeasurement.
    destruct (updateInfo_fields "カメラにアクセスしています..."
                (setState initializing this)) as (-> & -> & _).
    destruct (setState_fields initializing this) as (-> & -> & _).
    now split.
  - now split.
  - now split.
  - unfold startMeasurement_catch.
    match goal with
    | |- context [setState idle (stopCamera ?a)] =>
        destruct (setState_fields idle (stopCamera a)) as (-> & -> & _);
        destruct (stopCamera_fields a) as (-> & -> & _)
    end.
    now split.
  - unfold cancelMeasurement.
    match goal with
    | |- context [setState idle (stopCamera ?a)] =>
        destruct (setState_fields idle (stopCamera a)) as (-> & -> & _);
        destruct (stopCamera_fields a) as (-> & -> & _)
    end.
    now split.
  - unfold retryMeasurement.
    destruct (setState_fields idle this) as (-> & -> & _). now split.
  - now split.
  - destruct (updateTimer_fields now this) as (-> & -> & _). now split.
Qed.

(** Whatever the order of the events, the application's detector is one
    a program can hold. *)
Lemma reaches_consistent document clock this :
  reaches document clock this -> consistent clock this.
Proof.
  induction 1 as [ clock | clock this e clock' _ IH Horder ];
    [ exact I | ].
  pose proof (in_order_clock _ _ _ Horder) as Hclock.
  pose proof (other_events_keep e this) as Hkeep.
  pose proof (consistent_later _ _ _ Hclock IH) as IH'.
  destruct e; cbn [in_order] in Horder;
    try (apply (consistent_same _ this);
         [ apply Hkeep | apply Hkeep | exact IH' ]).
  - (* the model is initialized *)
    destruct Horder as (H1 & H2 & ->). cbn [handle].
    unfold startMeasurement_ready.
    match goal with
    | |- consistent _ (fst (updateTimer _ ?a)) => set (ready := a)
    end.
    apply (consistent_same _ ready);
      [ apply updateTimer_fields | apply updateTimer_fields | ].
    unfold consistent. subst ready. cbn [perclosDetector measurementStartTime].
    match goal with
    | |- context [setState measuring ?a] =>
        destruct (setState_fields measuring a) as (P & _)
    end.
    rewrite P. cbn. repeat split; try lia. apply reach_new.
  - (* a frame of the detection loop *)
    destruct Horder as (H1 & H2 & ->). cbn [handle].
    now apply (detect_resume_consistent clock).
Qed.

End Application.

(** X12.  The application shows a score only for a window of 30 s or
    more.  Whatever the order of the clicks, of the steps of
    [startMeasurement] and of the frames, on a clock that does not run
    backwards.  The closure [detect] ends the detection loop at its entry
    exactly when the measurement is not running (after a cancel, or once
    a measurement is complete), and changes nothing then.  A call that
    went on to the landmark detector ends the loop, once the detector has
    answered, only when the detector and [update] have not thrown and
    30000 ms have passed since the measurement started; the measurement
    is then stopped and the camera released; and if there is a detector,
    it is one a program can hold, constructed 30000 ms or more before
    [getScore] reads the clock, the page shows the level, the score and
    PERCLOS of that call with their colours, and the score is one of the
    integers 0 to 100 (in binary64): the window of the score is never 0
    and the score never NaN. *)
Theorem X12_the_application_scores_a_window_of_30_s_or_more
        (MediaStream : Type) (document : SpotCheck.Page MediaStream)
        (clock now_update now_elapsed now_score : Z)
        (entered this this' : SpotCheck.SpotCheckApp MediaStream)
        (detection : outcome (DetectionResult binary64)) :
  SpotCheck.reaches document clock this ->
  clock <= now_update <= now_elapsed ->
  now_elapsed <= now_score ->
  (SpotCheck.detect entered = None <-> SpotCheck.isRunning entered = false)
  /\ forall resume,
      SpotCheck.detect entered = Some resume ->
      resume detection now_update now_elapsed now_score this
      = (this', false) ->
      SpotCheck.isRunning entered = true
      /\ (exists found,
             detection = returned found
             /\ forall keypoints perclos,
                 faceDetected found = true ->
                 detected found = Some keypoints ->
                 SpotCheck.perclosDetector this = Some perclos ->
                 update keypoints now_update perclos <> None)
      /\ SpotCheck.measurementStartTime this + 30000 <= now_elapsed
      /\ SpotCheck.isRunning this' = false
      /\ SpotCheck.video_srcObject (SpotCheck.camera (SpotCheck.page this'))
         = None
      /\ (SpotCheck.perclosDetector this' = None ->
          SpotCheck.currentState this' = SpotCheck.idle)
      /\ (forall perclos,
             SpotCheck.perclosDetector this' = Some perclos ->
             reachable (startTime perclos) perclos
             /\ startTime perclos + 30000 <= now_score
             /\ SpotCheck.currentState this' = SpotCheck.result
             /\ SpotCheck.shownResult (SpotCheck.page this')
                = {| SpotCheck.resultLevelElement :=
                       SpotCheck.literal (level (getScore now_score perclos));
                     SpotCheck.resultLevelElement_color :=
                       SpotCheck.levelColor
                         (level (getScore now_score perclos));
                     SpotCheck.resultScoreElement :=
                       SpotCheck.shown (score (getScore now_score perclos))
                                       "";
                     SpotCheck.resultScoreElement_color :=
                       SpotCheck.scoreColor
                         (score (getScore now_score perclos));
                     SpotCheck.resultPERCLOSElement :=
                       SpotCheck.shown (details (getScore now_score perclos))
                                       "%" |}
             /\ exists n : Z,
                 0 <= n <= 100
                 /\ score (getScore now_score perclos) = Float64.of_Z n).
Proof.
  intros Hreach H1 H2. split.
  { unfold SpotCheck.detect.
    destruct (SpotCheck.isRunning entered); cbn [negb];
      split; intros H; try reflexivity; discriminate H. }
  intros resume Hentered Hframe.
  unfold SpotCheck.detect in Hentered.
  destruct (SpotCheck.isRunning entered); cbn [negb] in Hentered;
    [ | discriminate Hentered ].
  injection Hentered as <-. split; [ reflexivity | ].
  pose proof (reaches_consistent _ _ _ Hreach) as Hc.
  pose proof (detect_resume_consistent clock detection now_update
                now_elapsed now_score this H1 H2 Hc) as Hc'.
  rewrite Hframe in Hc'. cbn [fst] in Hc'.
  unfold SpotCheck.detect_resume in Hframe.
  destruct detection as [ found | message ]; [ | discriminate Hframe ].
  match type of Hframe with
  | match ?u with _ => _ end = _ => destruct u as [ updated | ] eqn:Hu
  end; [ | discriminate Hframe ].
  split.
  { exists found. split; [ reflexivity | ].
    intros keypoints perclos Hface Hkeypoints Hperclos Hthrown.
    rewrite Hface, Hkeypoints, Hperclos, Hthrown in Hu. discriminate Hu. }
  assert (SpotCheck.measurementStartTime updated
          = SpotCheck.measurementStartTime this) as Hm.
  { destruct (faceDetected found), (detected found) as [ keypoints | ],
      (SpotCheck.perclosDetector this) as [ perclos | ];
      try (injection Hu as <-; reflexivity).
    destruct (update keypoints now_update perclos); [ | discriminate Hu ].
    injection Hu as <-. reflexivity. }
  rewrite Hm in Hframe.
  destruct (Z.geb_spec (now_elapsed - SpotCheck.measurementStartTime this)
                       SpotCheck.MEASUREMENT_DURATION_MS) as [Hge | Hlt];
    [ | discriminate Hframe ].
  unfold SpotCheck.MEASUREMENT_DURATION_MS in Hge.
  split; [ lia | ].
  injection Hframe as <-.
  destruct (completeMeasurement_fields now_score updated)
    as (Hp & Hs & Hr & Hcam & Hshow).
  split; [ exact Hr | ]. split; [ exact Hcam | ].
  rewrite Hp in *. split.
  - intros Hnone. now rewrite Hnone in Hshow.
  - intros perclos Hsome. rewrite Hsome in Hshow.
    destruct Hshow as [Hstate Hshown].
    unfold SpotCheck.consistent in Hc'. rewrite Hp, Hsome in Hc'.
    destruct Hc' as (Hreachable & Hstart & _). rewrite Hs, Hm in Hstart.
    split; [ exact Hreachable | ]. split; [ lia | ].
    split; [ exact Hstate | ]. split; [ exact Hshown | ].
    destruct (score_after_start64 now_score perclos Hreachable ltac:(lia))
      as (n & Hn & Hscore).
    now exists n.
Qed.

Lemma X12_witness :
  SpotCheck.detect Run.cancelled = None
  /\ SpotCheck.isRunning Run.started = true
  /\ SpotCheck.isRunning Run.finished = false
  /\ SpotCheck.video_srcObject (SpotCheck.camera (SpotCheck.page Run.finished))
     = None.
Proof.
  assert (SpotCheck.reaches Run.document 0 Run.started) as Hstarted.
  { unfold Run.started.
    apply (SpotCheck.reaches_event _ 0 _ (SpotCheck.model_ready 0 0 0) 0).
    + apply (SpotCheck.reaches_event _ 0 _ SpotCheck.metadata_loaded 0).
      * apply (SpotCheck.reaches_event _ 0 _ (SpotCheck.camera_granted tt) 0).
        -- apply (SpotCheck.reaches_event _ 0 _ SpotCheck.click_start 0).
           ++ apply SpotCheck.reaches_new.
           ++ reflexivity.
        -- reflexivity.
      * reflexivity.
    + cbn. lia. }
  split.
  { apply (proj1 (X12_the_application_scores_a_window_of_30_s_or_more
                    unit Run.document 0 30000 30000 30000 Run.cancelled
                    Run.started Run.finished Run.open_eyes Hstarted
                    ltac:(lia) ltac:(lia))).
    vm_compute. reflexivity. }
  destruct (X12_the_application_scores_a_window_of_30_s_or_more
              unit Run.document 0 30000 30000 30000 Run.started
              Run.started Run.finished Run.open_eyes Hstarted
              ltac:(lia) ltac:(lia)) as [_ Hresume].
  assert (SpotCheck.isRunning Run.started = true) as Hrunning
      by (vm_compute; reflexivity).
  destruct (Hresume SpotCheck.detect_resume)
    as (Hentered & _ & _ & Hrun & Hcam & _).
  - unfold SpotCheck.detect. rewrite Hrunning. reflexivity.
  - unfold Run.finished, SpotCheck.startDetectionLoop, SpotCheck.detect.
    rewrite Hrunning. cbn [negb]. vm_compute. reflexivity.
  - split; [ exact Hentered | ]. split; [ exact Hrun | exact Hcam ].
Defined.

Example the_run_ends_with_a_score :
  SpotCheck.currentState Run.finished = SpotCheck.result
  /\ SpotCheck.shownResult (SpotCheck.page Run.finished)
     = {| SpotCheck.resultLevelElement := SpotCheck.literal level_normal;
          SpotCheck.resultLevelElement_color := "#4CAF50";
          SpotCheck.resultScoreElement := SpotCheck.shown 100%float "";
          SpotCheck.resultScoreElement_color := "#4CAF50";
          SpotCheck.resultPERCLOSElement := SpotCheck.shown 0%float "%" |}
  /\ SpotCheck.stopped (SpotCheck.camera (SpotCheck.page Run.finished))
     = [tt].
Proof. vm_compute. repeat split. Qed.

(** ** The colours of the result *)

Section Colours.

#[local] Open Scope float_scope.

Lemma scoreColor_from_80 (n : Z) :
  (80 <= n <= 100)%Z ->
  SpotCheck.scoreColor (Float64.of_Z n) = "#4CAF50"%string.
Proof.
  intros Hn. unfold SpotCheck.scoreColor.
  assert (forallb (fun k => Float64.geb (Float64.of_Z k) 80)
                  (map Z.of_nat (seq 80 21)) = true) as Hall
      by (vm_compute; reflexivity).
  rewrite forallb_forall in Hall. rewrite Hall; [ reflexivity | ].
  apply in_map_iff. exists (Z.to_nat n). split; [ lia | ].
  apply in_seq. lia.
Qed.

End Colours.

(** X13.  The colours [completeMeasurement] gives to a result, in
    binary64, for every PERCLOS that is zero or above: the level normal is
    shown in green and the level mild fatigue in orange, both with a green
    score (the score is 80 at least); the level fatigue is shown in red,
    with a score of any of the four colours; so a blue, orange or red
    score appears with the level fatigue only.  At PERCLOS 20 the red
    level comes with the green score 100, and the score NaN of a window of
    0 ms would be shown in red beside the green level normal. *)
Theorem X13_colours_of_the_result (p : float) :
  PrimFloat.leb 0 p = true ->
  let shown := score_of (N:=binary64) p in
  ((level shown = level_normal
    /\ SpotCheck.levelColor (level shown) = "#4CAF50"%string
    /\ SpotCheck.scoreColor (score shown) = "#4CAF50"%string)
   \/ (level shown = level_mild
       /\ SpotCheck.levelColor (level shown) = "#FF9800"%string
       /\ SpotCheck.scoreColor (score shown) = "#4CAF50"%string)
   \/ (level shown = level_fatigue
       /\ SpotCheck.levelColor (level shown) = "#F44336"%string))
  /\ SpotCheck.scoreColor (score (score_of (N:=binary64) 20%float))
     = "#4CAF50"%string
  /\ SpotCheck.scoreColor nan = "#F44336"%string.
Proof.
  intros Hp. cbv zeta. split; [ | split; reflexivity ].
  apply leb_0_from_zero in Hp.
  destruct (score_of_from_zero p Hp) as (n & Hn & Hs & H80).
  rewrite Hs. revert H80. unfold score_of.
  destruct (@geb binary64 p FATIGUE_PERCLOS).
  - intros _. right. right. split; reflexivity.
  - destruct (@geb binary64 p NORMAL_PERCLOS); cbn [level]; intros H80.
    + right. left. split; [ reflexivity | ]. split; [ reflexivity | ].
      apply scoreColor_from_80. split; [ | lia ]. apply H80. discriminate.
    + left. split; [ reflexivity | ]. split; [ reflexivity | ].
      apply scoreColor_from_80. split; [ | lia ]. apply H80. discriminate.
Qed.

Lemma X13_witness :
  SpotCheck.scoreColor (score (score_of (N:=binary64) 20%float))
  = "#4CAF50"%string
  /\ SpotCheck.scoreColor nan = "#F44336"%string.
Proof.
  apply (X13_colours_of_the_result 17.3%float). reflexivity.
Defined.

(** ** The timer *)

Section Timer64.

#[local] Open Scope float_scope.

Lemma integers_from_In (count : nat) :
  forall start n : Z,
    (start <= n < start + Z.of_nat count)%Z ->
    In n (integers_from start count).
Proof.
  induction count as [ | count IH ]; intros start n Hn; [ lia | ].
  cbn [integers_from]. destruct (Z.eq_dec start n) as [-> | Hne].
  - now left.
  - right. apply IH. lia.
Qed.

(** Two doubles that compare equal are the same, zeros apart. *)
Lemma eqb_same (a b : float) :
  (a =? b) = true -> PrimFloat.is_zero b = false -> a = b.
Proof.
  unfold PrimFloat.is_zero. rewrite !FloatAxioms.eqb_spec. unfold SFeqb.
  intros Hab Hb. apply Prim2SF_inj.
  destruct (Prim2SF a) as [ sa | [ | ] | | [ | ] ma ea ],
           (Prim2SF b) as [ sb | [ | ] | | [ | ] mb eb ];
    cbn [SFcompare] in Hab, Hb; try discriminate Hab; try discriminate Hb;
    try reflexivity.
  - destruct (Z.compare_spec ea eb) as [-> | _ | _]; try discriminate Hab.
    change (Pos.compare_cont Eq ma mb) with (Pos.compare ma mb) in Hab.
    destruct (Pos.compare ma mb) eqn:Hm; try discriminate Hab.
    apply Pos.compare_eq in Hm. now subst.
  - destruct (Z.compare_spec ea eb) as [-> | _ | _]; try discriminate Hab.
    change (Pos.compare_cont Eq ma mb) with (Pos.compare ma mb) in Hab.
    destruct (Pos.compare ma mb) eqn:Hm; try discriminate Hab.
    apply Pos.compare_eq in Hm. now subst.
Qed.

(** The seconds left, for every time left of the measurement. *)
Lemma seconds_remaining (remaining : Z) :
  (0 <= remaining <= 30000)%Z ->
  Math_ceil64 (Float64.of_Z remaining / Float64.of_Z 1000)
  = Float64.of_Z ((remaining + 999) / 1000).
Proof.
  intros Hr.
  destruct (Z.eq_dec remaining 0) as [-> | Hpos]; [ reflexivity | ].
  assert (forallb
            (fun r =>
               (Math_ceil64 (Float64.of_Z r / Float64.of_Z 1000)
                =? Float64.of_Z ((r + 999) / 1000))
               && negb (PrimFloat.is_zero (Float64.of_Z ((r + 999) / 1000))))
            (integers_from 1 (Z.to_nat 30000)) = true) as Hall
      by (vm_compute; reflexivity).
  rewrite forallb_forall in Hall.
  specialize (Hall remaining). cbv beta in Hall.
  rewrite andb_true_iff, negb_true_iff in Hall.
  apply eqb_same; apply Hall; apply integers_from_In; lia.
Qed.

Lemma ltb_leb (a b : float) : (a <? b) = true -> (a <=? b) = true.
Proof.
  rewrite FloatAxioms.ltb_spec, FloatAxioms.leb_spec. unfold SFltb, SFleb.
  destruct (SFcompare (Prim2SF a) (Prim2SF b)) as [ [ | | ] | ];
    try discriminate; reflexivity.
Qed.

(** [Math.min(100, p)] of a number from zero on is between 0 and 100. *)
Lemma min_100_from_zero (p : float) :
  from_zero (Prim2SF p) ->
  (0 <=? Math_min64 100 p) = true /\ (Math_min64 100 p <=? 100) = true.
Proof.
  intros Hp. unfold Math_min64.
  rewrite (is_nan_false p)
    by (intros E; rewrite E in Hp; exact Hp).
  change (PrimFloat.is_nan 100 || false)%bool with false. cbv iota.
  destruct (100 <? p) eqn:H1; [ split; reflexivity | ].
  destruct (p <? 100) eqn:H2.
  - split; [ now apply leb_0_from_zero | now apply ltb_leb ].
  - change (PrimFloat.is_zero 100) with false. cbv iota. split; reflexivity.
Qed.

(** The share of the measurement that has passed is a number from zero
    on. *)
Lemma progress_from_zero (elapsed : Z) :
  (0 <= elapsed)%Z ->
  from_zero (Prim2SF (Float64.of_Z elapsed / Float64.of_Z 30000
                      * Float64.of_Z 100)).
Proof.
  intros He. rewrite FloatAxioms.mul_spec, FloatAxioms.div_spec.
  destruct (of_Z_window 30000 ltac:(lia)) as (m & e & ->).
  change (Prim2SF (Float64.of_Z 100))
    with (S754_finite false 7036874417766400 (-46)).
  now apply SFmul_from_zero, SFdiv_from_zero, of_Z_from_zero.
Qed.

End Timer64.

(** X14.  A frame of the timer, in binary64.  While the measurement runs
    and the clock is not behind its start: the timer shows the integer
    ceil((30000 - elapsed) / 1000) as long as time is left and 0 after,
    a number of seconds from 0 to 30; the width of the progress bar is a
    percentage between 0 and 100, never NaN; the next frame is asked for
    exactly while less than 30000 ms have passed; and the detector, the
    state and the start of the measurement are left as they are.  When
    the measurement does not run, the frame changes nothing and asks for
    no other. *)
Theorem X14_the_timer_counts_down_from_30
        (MediaStream : Type) (this : SpotCheck.SpotCheckApp MediaStream)
        (now : Z) :
  let elapsed := now - SpotCheck.measurementStartTime this in
  let remaining := Z.max 0 (30000 - elapsed) in
  let this' := fst (SpotCheck.updateTimer now this) in
  (SpotCheck.isRunning this = false ->
   SpotCheck.updateTimer now this = (this, false))
  /\ (SpotCheck.isRunning this = true ->
      0 <= elapsed ->
      SpotCheck.timerElement (SpotCheck.timer (SpotCheck.page this'))
      = SpotCheck.shown (Float64.of_Z ((remaining + 999) / 1000)) ""
      /\ 0 <= (remaining + 999) / 1000 <= 30
      /\ (exists width,
             SpotCheck.progressElement_width
               (SpotCheck.timer (SpotCheck.page this'))
             = SpotCheck.shown width "%"
             /\ PrimFloat.leb 0 width = true
             /\ PrimFloat.leb width 100 = true)
      /\ snd (SpotCheck.updateTimer now this) = (elapsed <? 30000)
      /\ SpotCheck.perclosDetector this' = SpotCheck.perclosDetector this
      /\ SpotCheck.currentState this' = SpotCheck.currentState this
      /\ SpotCheck.isRunning this' = true
      /\ SpotCheck.measurementStartTime this'
         = SpotCheck.measurementStartTime this).
Proof.
  cbv zeta. unfold SpotCheck.updateTimer. split.
  - now intros ->.
  - intros Hrun Helapsed. rewrite Hrun. cbn [negb fst snd].
    unfold SpotCheck.MEASUREMENT_DURATION_MS.
    set (elapsed := now - SpotCheck.measurementStartTime this) in *.
    assert (0 <= Z.max 0 (30000 - elapsed) <= 30000) as Hr by lia.
    cbn [SpotCheck.with_page SpotCheck.page SpotCheck.timer
         SpotCheck.timerElement SpotCheck.progressElement_width
         SpotCheck.perclosDetector SpotCheck.currentState
         SpotCheck.isRunning SpotCheck.measurementStartTime].
    split; [ now rewrite seconds_remaining | ].
    split.
    { split; [ apply Z.div_pos; lia | ].
      assert ((Z.max 0 (30000 - elapsed) + 999) / 1000 < 31)
        by (apply Z.div_lt_upper_bound; lia).
      lia. }
    split.
    { eexists. split; [ reflexivity | ].
      apply min_100_from_zero, progress_from_zero. exact Helapsed. }
    split; [ | repeat split; exact Hrun ].
    destruct (Z.ltb_spec 0 (Z.max 0 (30000 - elapsed)));
      destruct (Z.ltb_spec elapsed 30000); try reflexivity; lia.
Qed.

Lemma X14_witness :
  SpotCheck.timerElement
    (SpotCheck.timer
       (SpotCheck.page (fst (SpotCheck.updateTimer 12345 Run.started))))
  = SpotCheck.shown 18%float "".
Proof.
  destruct (X14_the_timer_counts_down_from_30 unit Run.started 12345)
    as [_ Hrun].
  destruct Hrun as (Htimer & _).
  - reflexivity.
  - vm_compute. discriminate.
  - exact Htimer.
Defined.

(** ** Frames at a steady rate *)

Section SteadyRate.

Context {N : JSNumber}.

Lemma spec_closed_time_cons (previous : option Z) (r next : EARRecord N)
      (rest : list (EARRecord N)) :
  spec_closed_time previous (r :: next :: rest)
  = (if (ear r <? EAR_THRESHOLD)%js then timestamp next - timestamp r else 0)
    + spec_closed_time (Some (timestamp r)) (next :: rest).
Proof. reflexivity. Qed.

Lemma spec_closed_time_spaced (step : Z) (samples : list (EARRecord N)) :
  forall r previous,
    evenly_spaced step (r :: samples) ->
    (samples = [] -> previous = Some (timestamp r - step)) ->
    spec_closed_time previous (r :: samples)
    = step * Z.of_nat (List.length (closed_samples (r :: samples))).
Proof.
  induction samples as [ | next rest IH ]; intros r previous Hs Hprev.
  - rewrite (Hprev eq_refl). unfold closed_samples.
    cbn [spec_closed_time filter].
    destruct (ear r <? EAR_THRESHOLD)%js; cbn [List.length]; lia.
  - destruct Hs as [Hstep Hs]. rewrite spec_closed_time_cons.
    rewrite (IH next (Some (timestamp r)) Hs)
      by (intros _; f_equal; lia).
    unfold closed_samples.
    change (filter ?f (r :: ?l))
      with (if f r then r :: filter f l else filter f l).
    destruct (ear r <? EAR_THRESHOLD)%js; cbn [List.length]; lia.
Qed.

Lemma closedTime_spaced (step : Z) (samples : list (EARRecord N)) :
  (2 <= List.length samples)%nat ->
  evenly_spaced step samples ->
  closedTime samples = step * Z.of_nat (List.length (closed_samples samples)).
Proof.
  intros Hlen Hs. rewrite closedTime_spec.
  destruct samples as [ | r [ | next rest ] ]; cbn [List.length] in Hlen;
    try lia.
  apply spec_closed_time_spaced; [ exact Hs | discriminate ].
Qed.

End SteadyRate.

(** X15.  At a steady frame rate the closed time counts closed frames.
    When the samples handed to [calculateClosurePercentage] are two or
    more and [step] ms apart, the closed time is [step] times the number
    of samples whose ratio is below the threshold, wherever in the window
    they are (the last frame counts as long as the others), and PERCLOS is
    that time over the window: e.g. 3 closed frames out of 4 at 250 ms
    make 750 ms. *)
Theorem X15_closed_time_at_a_steady_frame_rate
        (N : JSNumber) (step windowMs : Z) (samples : list (EARRecord N)) :
  (2 <= List.length samples)%nat ->
  evenly_spaced step samples ->
  closedTime samples = step * Z.of_nat (List.length (closed_samples samples))
  /\ calculateClosurePercentage samples windowMs
     = (of_Z (step * Z.of_nat (List.length (closed_samples samples)))
        / of_Z windowMs * of_Z 100)%js.
Proof.
  intros Hlen Hs. pose proof (closedTime_spaced step samples Hlen Hs) as Hc.
  split; [ exact Hc | ].
  unfold calculateClosurePercentage. rewrite Hc.
  destruct samples; [ cbn in Hlen; lia | reflexivity ].
Qed.

Lemma X15_witness :
  closedTime [Scenario.sample64 0 0.1%float; Scenario.sample64 250 0.3%float;
              Scenario.sample64 500 0.1%float; Scenario.sample64 750 0.1%float]
  = 250 * 3.
Proof.
  apply (X15_closed_time_at_a_steady_frame_rate
           binary64 250 1000
           [Scenario.sample64 0 0.1%float; Scenario.sample64 250 0.3%float;
            Scenario.sample64 500 0.1%float; Scenario.sample64 750 0.1%float]).
  - cbn. lia.
  - cbn. repeat split.
Defined.

(** X16.  The ratio is never negative.  In binary64, for every frame of
    388 landmarks or more, with any coordinates: the distance of two
    landmarks, the ratio of each eye and the mean [update] stores are NaN,
    [+0], a positive number or +Infinity, never a negative number, [-0] or
    -Infinity; so is every sample of a detector a program can hold, and a
    sample that is not NaN compares as zero or above. *)
Theorem X16_the_ratio_is_never_negative :
  (forall a b : Keypoint binary64, nonneg64 (distance a b))
  /\ (forall (keypoints : list (Keypoint binary64)) indices e,
         calculateEAR keypoints indices = Some e -> nonneg64 e)
  /\ (forall (keypoints : list (Keypoint binary64)) avgEAR,
         averageEAR keypoints = Some avgEAR -> nonneg64 avgEAR)
  /\ (forall (t0 : Z) (this : PERCLOSDetector binary64) r,
         reachable t0 this -> In r (earHistory this) ->
         nonneg64 (ear r)
         /\ (PrimFloat.is_nan (ear r) = true
             \/ PrimFloat.leb 0 (ear r) = true)).
Proof.
  split; [ exact distance_nonneg64 | ].
  split; [ exact calculateEAR_nonneg64 | ].
  split; [ exact averageEAR_nonneg64 | ].
  intros t0 this r Hreach Hin.
  pose proof (reachable_nonneg64 t0 this Hreach r Hin) as Hn.
  split; [ exact Hn | ]. unfold nonneg64 in Hn.
  destruct (Prim2SF (ear r)) as [ s | s | | s m e ] eqn:E;
    cbn [not_below_zero] in Hn.
  - right. apply leb_0_from_zero. now rewrite E.
  - right. apply leb_0_from_zero. now rewrite E.
  - left. unfold PrimFloat.is_nan. rewrite FloatAxioms.eqb_spec, E.
    reflexivity.
  - right. apply leb_0_from_zero. now rewrite E.
Qed.

Lemma X16_witness :
  nonneg64 0.3%float
  /\ (PrimFloat.is_nan 0.3%float = true \/ PrimFloat.leb 0 0.3%float = true).
Proof.
  apply (proj2 (proj2 (proj2 X16_the_ratio_is_never_negative))
               0 Scenario.three_samples (Scenario.sample64 2000 0.3%float)).
  - apply (reach_update 0 (detector 0 [sample 0 0.1; sample 1000 0.1])%float
                        (face 10 3) 2000).
    + apply (reach_update 0 (detector 0 [sample 0 0.1])%float
                          (face 10 1) 1000).
      * apply (reach_update 0 (new 0) (face 10 1) 0).
        -- apply reach_new.
        -- cbn. lia.
        -- vm_compute. reflexivity.
      * cbn. lia.
      * vm_compute. reflexivity.
    + cbn. lia.
    + vm_compute. reflexivity.
  - cbn. tauto.
Defined.

(** ** The recent samples are the end of the history *)

Section Suffix.

Context {N : JSNumber}.
Implicit Types (this : PERCLOSDetector N) (r : EARRecord N).

Lemma filter_all_after cutoff (samples : list (EARRecord N)) :
  (forall r, In r samples -> cutoff < timestamp r) ->
  filter (fun r => cutoff <? timestamp r) samples = samples.
Proof.
  induction samples as [ | r rest IH ]; intros Hall; [ reflexivity | ].
  cbn [filter].
  replace (cutoff <? timestamp r) with true
    by (symmetry; apply Z.ltb_lt, Hall; now left).
  f_equal. apply IH. intros r' Hin. apply Hall. now right.
Qed.

(** In chronological order, the samples after a cutoff are the end of the
    list, and those before it the beginning. *)
Lemma filter_chronological cutoff (samples : list (EARRecord N)) :
  chronological samples ->
  exists old,
    samples = old ++ filter (fun r => cutoff <? timestamp r) samples
    /\ (forall r, In r old -> timestamp r <= cutoff).
Proof.
  induction samples as [ | r rest IH ]; intros Hs.
  - exists []. split; [ reflexivity | intros r [] ].
  - destruct (chronological_cons_inv r rest Hs) as [Hs' Hr].
    destruct (Z.ltb_spec cutoff (timestamp r)) as [Hlt | Hge].
    + exists []. split; [ | intros r' [] ].
      cbn [app]. symmetry. apply filter_all_after.
      intros r' [<- | Hin]; [ exact Hlt | ]. specialize (Hr r' Hin). lia.
    + destruct (IH Hs') as (old & Hold & Hbefore).
      exists (r :: old). cbn [filter].
      replace (cutoff <? timestamp r) with false
        by (symmetry; apply Z.ltb_ge; exact Hge).
      split; [ cbn [app]; now rewrite <- Hold | ].
      intros r' [<- | Hin]; [ exact Hge | now apply Hbefore ].
Qed.

End Suffix.

(** X17.  For every detector a program can hold and every clock value:
    the recent samples [getRecentEARs] hands to the scoring are the end of
    the history, in its order, the samples before them all having a
    timestamp of [now - 60000] at most; and [cleanOldData] removes a
    beginning of the history, of samples with a timestamp of [now -
    120000] at most, and nothing else.  (The history of such a detector is
    in chronological order; on an unordered history a filter can remove
    samples from the middle.) *)
Theorem X17_recent_samples_are_the_end_of_the_history
        (N : JSNumber) (t0 now : Z) (this : PERCLOSDetector N) :
  reachable t0 this ->
  (exists old,
      earHistory this = old ++ getRecentEARs now this
      /\ (forall r, In r old -> timestamp r <= now - WINDOW_MS))
  /\ (exists dropped,
         earHistory this = dropped ++ earHistory (cleanOldData now this)
         /\ (forall r, In r dropped -> timestamp r <= now - 2 * WINDOW_MS)
         /\ startTime (cleanOldData now this) = startTime this
         /\ lastUpdateTime (cleanOldData now this) = lastUpdateTime this).
Proof.
  intros Hreach.
  destruct (reachable_well_formed t0 this Hreach) as [_ _ Ho _].
  split.
  - apply (filter_chronological (now - WINDOW_MS) _ Ho).
  - destruct (filter_chronological (now - WINDOW_MS * 2) _ Ho)
      as (dropped & Hd & Hbefore).
    exists dropped. split; [ exact Hd | ].
    split; [ | split; reflexivity ].
    intros r Hin. specialize (Hbefore r Hin). lia.
Qed.

Lemma X17_witness :
  exists old,
    earHistory Scenario.three_samples
    = old ++ getRecentEARs 61500 Scenario.three_samples
    /\ (forall r, In r old -> timestamp r <= 61500 - WINDOW_MS).
Proof.
  apply (X17_recent_samples_are_the_end_of_the_history
           binary64 0 61500 Scenario.three_samples).
  apply (reach_update 0 (detector 0 [sample 0 0.1; sample 1000 0.1])%float
                      (face 10 3) 2000).
  - apply (reach_update 0 (detector 0 [sample 0 0.1])%float
                        (face 10 1) 1000).
    + apply (reach_update 0 (new 0) (face 10 1) 0).
      * apply reach_new.
      * cbn. lia.
      * vm_compute. reflexivity.
    + cbn. lia.
    + vm_compute. reflexivity.
  - cbn. lia.
  - vm_compute. reflexivity.
Defined.

(** ** Quotients in binary64, against a representable bound *)

Section Quotient64.




End Quotient64.

Section QuotientRounding64.




End QuotientRounding64.

Section Division64.



End Division64.

Section Percent64.

#[local] Open Scope float_scope.






End Percent64.

Section PercentOrder64.

#[local] Open Scope float_scope.

Ltac canon := apply canonical_checked; reflexivity.

Lemma scaled_integer (z : Z) : scaled z 0 = (z * 2 ^ 2200)%Z.
Proof. reflexivity. Qed.




End PercentOrder64.


(** ** A degenerate sample and PERCLOS, in binary64 *)

Section Degenerate64.

#[local] Open Scope float_scope.



End Degenerate64.



